(** * lp2p: the peer session, the peer pool, address utilities and validation

    A shallow embedding of the JavaScript sources [utils.js] (the version that
    exports [normalizeAddress] and [getPeerIdFromPeerInfo], which the other
    modules import), [validation.js], [peer/base.js], [peer/inbound.js],
    [peer/outbound.js] and [peer_pool.js], followed by the properties of
    these functions.

    Conventions of the embedding.
    - A JavaScript string is a [string] holding its UTF-8 bytes; every
      character the code inspects (digits, [:], [.], [%], hex letters) is ASCII.
    - A function that can throw returns a [completion]: [Ok v] or [Throw e].
    - Integer-valued numbers are [Z], in the range where a double is exact;
      NaN is [None] where a conversion may fail. Quotients (rates) are exact
      rationals with the two infinities and NaN, see [Rate.JSNum]; where a
      quotient is multiplied, both roundings are those of doubles, see
      [Double].
    - An [async] function is cut at its [await]: one function for what runs up
      to it, one for what runs when the awaited call settles, with the outcome
      of the call as an argument. The time [Date.now()] is an argument too.
    - Objects that are shared by reference (the sessions held by the pool)
      live in a heap indexed by references.
    - What belongs to the platform or to a package (Node's [net] and [Buffer],
      SHA-256, socketcluster, validator, semver, lodash) is modelled from its
      documented behaviour or taken as a parameter, as said at each place. *)

From Stdlib Require Import ZArith QArith Qround Strings.String Strings.Ascii List Bool Lia.
From Stdlib Require Import Numbers.DecimalString Numbers.HexadecimalString Strings.Byte.
From Stdlib Require Import DecimalPos.
From Stdlib Require Floats.SpecFloat.
From stdpp Require Import gmap strings list.

Open Scope Z_scope.

(** ** JavaScript values and built-ins used by the sources *)

Module JS.

(** The error classes of [src/errors.js] and the built-in ones. *)
Inductive JSError : Type :=
| RangeError (message : string)
| TypeError (message : string)
| Error (message : string)
| InvalidPeerError (message : string)
| InvalidRPCResponseError (message : string)
| RPCResponseError (message peerId : string)
| RPCTimeoutError (message peerId : string).

Inductive completion (A : Type) : Type :=
| Ok (value : A)
| Throw (error : JSError).
Arguments Ok {A} value.
Arguments Throw {A} error.

Definition bind {A B : Type} (c : completion A) (k : A -> completion B) : completion B :=
  match c with
  | Ok a => k a
  | Throw e => Throw e
  end.

(** [mapM f l]: [l.map(f)] for an [f] that can throw; the first throw wins. *)
Fixpoint mapM {A B : Type} (f : A -> completion B) (l : list A) : completion (list B) :=
  match l with
  | [] => Ok []
  | a :: l' =>
      match f a with
      | Throw e => Throw e
      | Ok b =>
          match mapM f l' with
          | Throw e => Throw e
          | Ok bs => Ok (b :: bs)
          end
      end
  end.


(** *** Characters *)

Definition is_digit (c : ascii) : bool :=
  let n := nat_of_ascii c in ((48 <=? n) && (n <=? 57))%nat.

Definition is_lower_hex (c : ascii) : bool :=
  let n := nat_of_ascii c in ((97 <=? n) && (n <=? 102))%nat.

Definition is_upper_hex (c : ascii) : bool :=
  let n := nat_of_ascii c in ((65 <=? n) && (n <=? 70))%nat.

Definition is_hex_digit (c : ascii) : bool :=
  is_digit c || is_lower_hex c || is_upper_hex c.

Definition is_alnum (c : ascii) : bool :=
  let n := nat_of_ascii c in
  (((48 <=? n) && (n <=? 57)) || ((65 <=? n) && (n <=? 90)) || ((97 <=? n) && (n <=? 122)))%nat.

(** ASCII members of the StrWhiteSpaceChar production. *)
Definition is_whitespace (c : ascii) : bool :=
  let n := nat_of_ascii c in (((9 <=? n) && (n <=? 13)) || (n =? 32))%nat.

(** The value of a digit in a radix up to 16; [None] when it is not one. *)
Definition digit_value (radix : Z) (c : ascii) : option Z :=
  let n := Z.of_nat (nat_of_ascii c) in
  let v :=
    if is_digit c then Some (n - 48)
    else if is_lower_hex c then Some (n - 87)
    else if is_upper_hex c then Some (n - 55)
    else None in
  match v with
  | Some d => if d <? radix then Some d else None
  | None => None
  end.

(** *** Strings *)

Definition all_chars (p : ascii -> bool) (s : string) : bool :=
  forallb p (list_ascii_of_string s).

(** [s.split(sep)] for a one-character separator. *)
Fixpoint split (sep : ascii) (s : string) : list string :=
  match s with
  | EmptyString => [EmptyString]
  | String c s' =>
      if Ascii.eqb c sep then EmptyString :: split sep s'
      else match split sep s' with
           | [] => [String c EmptyString]
           | part :: parts => String c part :: parts
           end
  end.

(** [l.join(sep)]. *)
Definition join (sep : string) (l : list string) : string := String.concat sep l.

(** [(s.match(/c/g) || []).length]: the occurrences of a character. *)
Fixpoint count_char (c : ascii) (s : string) : Z :=
  match s with
  | EmptyString => 0
  | String c' s' => (if Ascii.eqb c' c then 1 else 0) + count_char c s'
  end.

(** [s.replace(/::/g, r)]: every match of [::], found from left to right
    without overlap, is replaced by [r] ([r] holds no [$] pattern here). *)
Fixpoint replace_double_colon (r : string) (s : string) : string :=
  match s with
  | EmptyString => EmptyString
  | String c s' =>
      match s' with
      | String c' rest =>
          if Ascii.eqb c ":" && Ascii.eqb c' ":"
          then r +:+ replace_double_colon r rest
          else String c (replace_double_colon r s')
      | EmptyString => String c EmptyString
      end
  end.

Fixpoint repeat_nat (s : string) (n : nat) : string :=
  match n with
  | O => EmptyString
  | S n' => s +:+ repeat_nat s n'
  end.

(** [s.repeat(count)]: a negative count throws a RangeError. *)
Definition repeat (s : string) (count : Z) : completion string :=
  if count <? 0 then Throw (RangeError "Invalid count value")
  else Ok (repeat_nat s (Z.to_nat count)).

(** [s.slice(0, n)]. *)
Definition slice0 (n : nat) (s : string) : string := String.substring 0 n s.

Fixpoint drop_while (p : ascii -> bool) (s : string) : string :=
  match s with
  | EmptyString => EmptyString
  | String c s' => if p c then drop_while p s' else s
  end.

(** The value of the longest prefix of [s] made of radix-[radix] digits,
    with the number of digits read. *)
Fixpoint read_digits (radix : Z) (s : string) (acc : Z) (count : nat) : Z * nat :=
  match s with
  | EmptyString => (acc, count)
  | String c s' =>
      match digit_value radix c with
      | Some d => read_digits radix s' (acc * radix + d) (S count)
      | None => (acc, count)
      end
  end.

Definition strip_sign (s : string) : Z * string :=
  match s with
  | String "-" s' => (-1, s')
  | String "+" s' => (1, s')
  | _ => (1, s)
  end.

Definition strip_hex_prefix (s : string) : option string :=
  match s with
  | String "0" (String "x" s') => Some s'
  | String "0" (String "X" s') => Some s'
  | _ => None
  end.

(** [parseInt(s, radix)] for a radix that is absent, 10 or 16; [None] is NaN.
    Leading white space is skipped, a sign is read, [0x] is stripped when the
    radix is 16 or absent, then the longest prefix of digits is the value. *)
Definition parseInt (s : string) (radix : option Z) : option Z :=
  let '(sign, s1) := strip_sign (drop_while is_whitespace s) in
  let '(r, s2) :=
    match radix with
    | Some 10 => (10, s1)
    | _ =>
        match strip_hex_prefix s1 with
        | Some s' => (16, s')
        | None => (match radix with Some r => r | None => 10 end, s1)
        end
    end in
  match read_digits r s2 0 0 with
  | (_, O) => None
  | (v, S _) => Some (sign * v)
  end.

(** [ToString] of an integer-valued number of the range where a double is
    exact, up to [2^53 - 1] in absolute value: there every digit is printed. *)
Definition number_to_string (z : Z) : string :=
  DecimalString.NilEmpty.string_of_int (Z.to_int z).

(** [n.toString(16)]; NaN prints as [NaN]. *)
Definition toString16 (n : option Z) : string :=
  match n with
  | None => "NaN"
  | Some z =>
      let digits := HexadecimalString.NilZero.string_of_uint (N.to_hex_uint (Z.to_N (Z.abs z))) in
      if z <? 0 then String "-" digits else digits
  end.

End JS.


(** ** Node's [net.isIPv4] and [net.isIPv6]

    Both are built-ins of the platform, not code of the repository. They are
    modelled after the regular expressions of Node's [lib/internal/net.js]:
    an IPv4 address is four decimal segments 0..255 without leading zeros; an
    IPv6 address is eight groups of one to four hex digits, where one run of
    groups may be written [::], the last two groups may be written as an IPv4
    address, and a zone [%id] may follow. *)

Module Net.
Import JS.

Definition v4Seg (s : string) : bool :=
  match list_ascii_of_string s with
  | [a] => is_digit a
  | [a; b] => is_digit a && negb (Ascii.eqb a "0") && is_digit b
  | [a; b; c] =>
      is_digit a && is_digit b && is_digit c && negb (Ascii.eqb a "0") &&
      match parseInt s (Some 10) with
      | Some v => v <=? 255
      | None => false
      end
  | _ => false
  end.

Definition isIPv4 (s : string) : bool :=
  match split "." s with
  | [a; b; c; d] => v4Seg a && v4Seg b && v4Seg c && v4Seg d
  | _ => false
  end.

Definition v6Seg (s : string) : bool :=
  let n := String.length s in
  ((1 <=? n) && (n <=? 4))%nat && all_chars is_hex_digit s.

(** The text before and after the first [::], when there is one. *)
Fixpoint split_double_colon (s : string) : option (string * string) :=
  match s with
  | EmptyString => None
  | String c s' =>
      match s' with
      | String c' rest =>
          if Ascii.eqb c ":" && Ascii.eqb c' ":" then Some (EmptyString, rest)
          else match split_double_colon s' with
               | Some (l, r) => Some (String c l, r)
               | None => None
               end
      | EmptyString => None
      end
  end.

(** The groups of one side of [::]; the empty side has none. *)
Definition side_groups (s : string) : list string :=
  match s with
  | EmptyString => []
  | _ => split ":" s
  end.

(** The number of 16-bit groups a list of tokens stands for: every token a
    hex group, except that the last may be an IPv4 address when [v4_allowed]
    (two groups). [None] when a token is neither. *)
Fixpoint groups_count (v4_allowed : bool) (tokens : list string) : option nat :=
  match tokens with
  | [] => Some O
  | [t] =>
      if v6Seg t then Some 1%nat
      else if v4_allowed && isIPv4 t then Some 2%nat
      else None
  | t :: rest =>
      if v6Seg t then
        match groups_count v4_allowed rest with
        | Some n => Some (S n)
        | None => None
        end
      else None
  end.

Definition ipv6_body (body : string) : bool :=
  match split_double_colon body with
  | None =>
      match groups_count true (split ":" body) with
      | Some n => (n =? 8)%nat
      | None => false
      end
  | Some (l, r) =>
      match groups_count false (side_groups l), groups_count true (side_groups r) with
      | Some n, Some m => (n + m <=? 7)%nat
      | _, _ => false
      end
  end.

(** The text before the first [%], and the zone after it when there is one. *)
Fixpoint split_zone (s : string) : string * option string :=
  match s with
  | EmptyString => (EmptyString, None)
  | String c s' =>
      if Ascii.eqb c "%" then (EmptyString, Some s')
      else let '(b, z) := split_zone s' in (String c b, z)
  end.

Definition isIPv6 (s : string) : bool :=
  let '(body, zone) := split_zone s in
  ipv6_body body &&
  match zone with
  | None => true
  | Some z => (1 <=? String.length z)%nat && all_chars is_alnum z
  end.

End Net.

(** ** [src/utils.js] *)

Module Utils.
Import JS Net.

Definition SECRET_BUFFER_LENGTH : Z := 4.
Definition NETWORK_BUFFER_LENGTH : Z := 1.
Definition IPV6_UNCOMPRESSED_PART_LENGTH : Z := 4.
Definition IPV6_UNCOMPRESSED_COLON_COUNT : Z := 7.

Inductive Protocol : Type := PROTOCOL_IPV4 | PROTOCOL_IPV6.

Inductive NETWORK : Type := NET_IPV4 | NET_IPV6 | NET_PRIVATE | NET_LOCAL | NET_OTHER.

(** The numeric value of a member of the [NETWORK] table. *)
Definition network_code (n : NETWORK) : Z :=
  match n with
  | NET_IPV4 => 0
  | NET_IPV6 => 1
  | NET_PRIVATE => 2
  | NET_LOCAL => 3
  | NET_OTHER => 4
  end.

Inductive PEER_TYPE : Type := NEW_PEER | TRIED_PEER.

(** A peer info: the fields that the sessions and the pool read. An absent
    [height] reads as 0 and an absent [isPassive] as [false]. *)
Record P2PPeerInfo : Type := {
  ipAddress : string;
  wsPort : Z;
  height : Z;
  isPassive : bool
}.

Record NormalizedAddress : Type := { protocol : Protocol; address : string }.

(** *** Buffers *)

Definition byte_of_Z (z : Z) : byte :=
  match Byte.of_N (Z.to_N (z mod 256)) with
  | Some b => b
  | None => Byte.x00
  end.

Definition Z_of_byte (b : byte) : Z := Z.of_N (Byte.to_N b).

(** [Buffer.from(s, 'hex')]: pairs of hex digits, up to the first pair that
    is not one. *)
Fixpoint buffer_from_hex (s : string) : list byte :=
  match s with
  | String a (String b rest) =>
      match digit_value 16 a, digit_value 16 b with
      | Some x, Some y => byte_of_Z (16 * x + y) :: buffer_from_hex rest
      | _, _ => []
      end
  | _ => []
  end.

(** [buf.writeUInt8(v)] on a one-byte buffer: NaN is stored as 0, a value
    outside 0..255 throws. *)
Definition writeUInt8 (v : option Z) : completion (list byte) :=
  match v with
  | None => Ok [Byte.x00]
  | Some z =>
      if (z <? 0) || (255 <? z) then Throw (RangeError "The value is out of range")
      else Ok [byte_of_Z z]
  end.

(** [buf.writeUInt32BE(v, 0)] on a four-byte buffer. *)
Definition writeUInt32BE (v : Z) : completion (list byte) :=
  if (v <? 0) || (4294967295 <? v) then Throw (RangeError "The value is out of range")
  else Ok [byte_of_Z (v / 16777216); byte_of_Z (v / 65536); byte_of_Z (v / 256); byte_of_Z v].

(** [buf.readUInt32BE(0)]. *)
Definition readUInt32BE (buf : list byte) : completion Z :=
  match buf with
  | a :: b :: c :: d :: _ =>
      Ok (Z_of_byte a * 16777216 + Z_of_byte b * 65536 + Z_of_byte c * 256 + Z_of_byte d)
  | _ => Throw (RangeError "Attempt to access memory outside buffer bounds")
  end.

(** [a % b] on integer-valued numbers; [None] is NaN. *)
Definition js_rem (a b : Z) : option Z :=
  if b =? 0 then None else Some (Z.rem a b).

(** *** Address normalization *)

Definition normalizeIPv6Address (ipv6Address : string) : completion string :=
  let colonCount := count_char ":" ipv6Address in
  let colonDiff := IPV6_UNCOMPRESSED_COLON_COUNT - colonCount in
  bind (repeat ":" colonDiff) (fun colons =>
  let fullColonAddress := replace_double_colon ("::" +:+ colons) ipv6Address in
  Ok (join ":"
        (map (fun part =>
                if String.eqb part "" then "0"
                else toString16 (parseInt part (Some 16)))
             (split ":" fullColonAddress)))).

Definition digits_1_3 (s : string) : bool :=
  let n := String.length s in
  ((1 <=? n) && (n <=? 3))%nat && all_chars is_digit s.

Definition ends_with_ffff (s : string) : bool :=
  let n := String.length s in
  (4 <=? n)%nat && String.eqb (String.substring (n - 4) 4 s) "ffff".

(** [address.match(IPV6_HYBRID_REGEX)]: the captured dotted quad, when the
    address ends in [ffff:] followed by four groups of one to three digits
    separated by dots. *)
Definition IPV6_HYBRID_match (address : string) : option string :=
  match rev (split ":" address) with
  | quad :: before :: _ =>
      match split "." quad with
      | [a; b; c; d] =>
          if digits_1_3 a && digits_1_3 b && digits_1_3 c && digits_1_3 d
             && ends_with_ffff before
          then Some quad else None
      | _ => None
      end
  | _ => None
  end.

Definition normalizeAddress (address : string) : completion NormalizedAddress :=
  if isIPv6 address then
    match IPV6_HYBRID_match address with
    | Some nested => Ok {| protocol := PROTOCOL_IPV4; address := nested |}
    | None =>
        bind (normalizeIPv6Address address) (fun a =>
        Ok {| protocol := PROTOCOL_IPV6; address := a |})
    end
  else Ok {| protocol := PROTOCOL_IPV4; address := address |}.

(** *** Network classification *)

Definition isPrivate (address : string) : bool :=
  if isIPv4 address then
    let addressParts := split "." address in
    let addressFirstNumber := parseInt (nth 0 addressParts "") None in
    let addressSecondNumber := parseInt (nth 1 addressParts "") None in
    match addressFirstNumber, addressSecondNumber with
    | Some f, Some s => (f =? 10) || ((f =? 172) && (16 <=? s) && (s <=? 31))
    | Some f, None => f =? 10
    | None, _ => false
    end
  else
    let firstAddressPart := nth 0 (split ":" address) "" in
    let addressPrefix := slice0 2 firstAddressPart in
    String.eqb addressPrefix "fc" || String.eqb addressPrefix "fd".

Definition isLocal (address : string) : completion bool :=
  if isIPv4 address then
    let addressParts := split "." address in
    match parseInt (nth 0 addressParts "") None with
    | Some f => Ok ((f =? 127) || (f =? 0))
    | None => Ok false
    end
  else
    bind (normalizeIPv6Address address) (fun a => Ok (String.eqb a "0:0:0:0:0:0:0:1")).

Definition getNetwork (address : string) : completion NETWORK :=
  bind (isLocal address) (fun local =>
  if local then Ok NET_LOCAL
  else if isPrivate address then Ok NET_PRIVATE
  else if isIPv4 address then Ok NET_IPV4
  else if isIPv6 address then Ok NET_IPV6
  else Ok NET_OTHER).

(** *** Bucket hashing *)

Definition getIPV6Bytes (ipv6Address : string) : completion (list byte) :=
  bind (normalizeIPv6Address ipv6Address) (fun normalizedAddress =>
  bind (mapM (fun part =>
                let lengthDiff := IPV6_UNCOMPRESSED_PART_LENGTH - Z.of_nat (String.length part) in
                bind (repeat "0" lengthDiff) (fun zeros =>
                Ok (buffer_from_hex (zeros +:+ part))))
             (split ":" normalizedAddress)) (fun addressBuffers =>
  Ok (concat addressBuffers))).

Definition getIPV4Bytes (ipv4Address : string) : completion (list byte) :=
  bind (mapM (fun part => writeUInt8 (parseInt part None)) (split "." ipv4Address))
       (fun addressBuffers => Ok (concat addressBuffers)).

Record BucketOptions : Type := {
  secret : Z;
  targetAddress : string;
  peerType : PEER_TYPE;
  bucketCount : Z
}.

Section Hashing.
(** SHA-256 ([crypto.createHash('sha256')]), a black box. *)
Variable hash : list byte -> list byte.

(** The bytes that are hashed for a bucket: the secret, the network code
    and, for a public address, the address bytes. *)
Definition bucketBytes (options : BucketOptions) : completion (list byte) :=
  bind (writeUInt32BE (secret options)) (fun secretBytes =>
  bind (getNetwork (targetAddress options)) (fun network =>
  match network with
  | NET_OTHER => Throw (Error "IP address is unsupported.")
  | _ =>
      bind (writeUInt8 (Some (network_code network))) (fun networkBytes =>
      match network with
      | NET_LOCAL | NET_PRIVATE => Ok (secretBytes ++ networkBytes)
      | _ =>
          bind (match network with
                | NET_IPV6 => getIPV6Bytes (targetAddress options)
                | _ => getIPV4Bytes (targetAddress options)
                end) (fun addressBytes =>
          Ok (secretBytes ++ networkBytes ++ addressBytes))
      end)
  end)).

Definition getBucketId (options : BucketOptions) : completion (option Z) :=
  bind (bucketBytes options) (fun bytes =>
  bind (readUInt32BE (hash bytes)) (fun word =>
  Ok (js_rem word (bucketCount options)))).
End Hashing.

(** *** Peer ids *)

Definition getPeerIdFromPeerInfo (peerInfo : P2PPeerInfo) : completion string :=
  bind (normalizeAddress (ipAddress peerInfo)) (fun n =>
  match protocol n with
  | PROTOCOL_IPV6 => Ok ("[" +:+ address n +:+ "]:" +:+ number_to_string (wsPort peerInfo))
  | PROTOCOL_IPV4 => Ok (address n +:+ ":" +:+ number_to_string (wsPort peerInfo))
  end).

End Utils.

(** ** Values on the wire

    Peer infos and RPC payloads are JSON-like values. Numbers are modelled for
    integer values, with [JNaN] for a failed conversion. An object is the list
    of its own properties in insertion order. *)

Module Value.
Import JS.

#[warnings="-register-all"]
Inductive JSValue : Type :=
| JUndefined
| JNull
| JBool (b : bool)
| JNum (n : Z)
| JNaN
| JStr (s : string)
| JArr (items : list JSValue)
| JObj (props : list (string * JSValue)).

(** [!!v]. *)
Definition truthy (v : JSValue) : bool :=
  match v with
  | JUndefined | JNull | JNaN => false
  | JBool b => b
  | JNum n => negb (n =? 0)
  | JStr s => negb (String.eqb s "")
  | JArr _ | JObj _ => true
  end.

Fixpoint lookup_prop (k : string) (props : list (string * JSValue)) : option JSValue :=
  match props with
  | [] => None
  | (k', v) :: rest => if String.eqb k' k then Some v else lookup_prop k rest
  end.

(** [v.k]: a property read; a value without that own property gives
    [undefined] (no key read by the sources is an inherited one). *)
Definition get (v : JSValue) (k : string) : JSValue :=
  match v with
  | JObj props =>
      match lookup_prop k props with
      | Some x => x
      | None => JUndefined
      end
  | _ => JUndefined
  end.

(** [o.k = v] on the property list: an own property keeps its place, a new
    one goes last. *)
Fixpoint set_prop (k : string) (v : JSValue) (props : list (string * JSValue))
  : list (string * JSValue) :=
  match props with
  | [] => [(k, v)]
  | (k', v') :: rest =>
      if String.eqb k' k then (k', v) :: rest else (k', v') :: set_prop k v rest
  end.

(** [const { k, ...rest } = o]: the properties other than [k]. *)
Definition remove_prop (k : string) (props : list (string * JSValue))
  : list (string * JSValue) :=
  List.filter (fun kv => negb (String.eqb (fst kv) k)) props.

Definition has_prop (k : string) (props : list (string * JSValue)) : bool :=
  match lookup_prop k props with
  | Some _ => true
  | None => false
  end.

(** [ToString(v)] and [v.toString()]. An object that carries an own
    [toString] property (data, so not callable) cannot be converted. *)
Fixpoint to_string (v : JSValue) : completion string :=
  match v with
  | JUndefined => Ok "undefined"
  | JNull => Ok "null"
  | JBool true => Ok "true"
  | JBool false => Ok "false"
  | JNum n => Ok (number_to_string n)
  | JNaN => Ok "NaN"
  | JStr s => Ok s
  | JArr items =>
      bind (mapM (fun item =>
                    match item with
                    | JUndefined | JNull => Ok ""
                    | _ => to_string item
                    end) items)
           (fun parts => Ok (join "," parts))
  | JObj props =>
      if has_prop "toString" props
      then Throw (TypeError "Cannot convert object to primitive value")
      else Ok "[object Object]"
  end.

(** The one-character string holding a double quote. *)
Definition dquote : string := String (ascii_of_nat 34) EmptyString.

Definition hex4 (n : Z) : string :=
  let h := toString16 (Some n) in
  repeat_nat "0" (4 - String.length h) +:+ h.

(** The escape of one character in a JSON string. *)
Definition json_escape (c : ascii) : string :=
  let n := Z.of_nat (nat_of_ascii c) in
  if n =? 34 then "\" +:+ dquote
  else if n =? 92 then "\\"
  else if n =? 8 then "\b"
  else if n =? 9 then "\t"
  else if n =? 10 then "\n"
  else if n =? 12 then "\f"
  else if n =? 13 then "\r"
  else if n <? 32 then "\u" +:+ hex4 n
  else String c EmptyString.

Definition json_quote (s : string) : string :=
  dquote +:+ String.concat "" (map json_escape (list_ascii_of_string s)) +:+ dquote.

(** [JSON.stringify(v)]; [None] is [undefined]. *)
Fixpoint stringify (v : JSValue) : option string :=
  match v with
  | JUndefined => None
  | JNull => Some "null"
  | JBool true => Some "true"
  | JBool false => Some "false"
  | JNum n => Some (number_to_string n)
  | JNaN => Some "null"
  | JStr s => Some (json_quote s)
  | JArr items =>
      Some ("[" +:+
            join "," (map (fun item =>
                             match stringify item with
                             | Some s => s
                             | None => "null"
                             end) items) +:+ "]")
  | JObj props =>
      Some ("{" +:+
            join "," (omap (fun kv =>
                              match stringify (snd kv) with
                              | Some s => Some (json_quote (fst kv) +:+ ":" +:+ s)
                              | None => None
                              end) props) +:+ "}")
  end.

(** [Buffer.byteLength(s)]: the UTF-8 length; [undefined] is refused. *)
Definition byteLength (s : option string) : completion Z :=
  match s with
  | Some s => Ok (Z.of_nat (String.length s))
  | None => Throw (TypeError "The string argument must be of type string")
  end.

End Value.

(** ** [src/validation.js] *)

Module Validation.
Import JS Value.

(** The functions of the packages [validator] and [semver] that the module
    calls, and the conversion of a string to a number by the engine. None is
    code of the repository: the validation functions take them as a
    parameter. [isValidVersion v] is the truthiness of [semver.valid(v)]. *)
Record Library : Type := {
  isIP : string -> bool;
  isPort : string -> bool;
  isNumeric : string -> bool;
  isValidVersion : JSValue -> bool;
  StringToNumber : string -> JSValue
}.

(** [assertString] of the validator package: its functions refuse a value that
    is not a string. *)
Definition assertString (v : JSValue) : completion string :=
  match v with
  | JStr s => Ok s
  | _ => Throw (TypeError "This library (validator.js) validates strings only")
  end.

(** The own properties of an object, for a spread or a rest pattern. *)
Definition own_props (v : JSValue) : list (string * JSValue) :=
  match v with
  | JObj props => props
  | _ => []
  end.

Section WithLibrary.
Variable lib : Library.

(** Unary plus. An array or an object goes through its string. *)
Definition ToNumber (v : JSValue) : completion JSValue :=
  match v with
  | JUndefined => Ok JNaN
  | JNull => Ok (JNum 0)
  | JBool true => Ok (JNum 1)
  | JBool false => Ok (JNum 0)
  | JNum n => Ok (JNum n)
  | JNaN => Ok JNaN
  | JStr s => Ok (StringToNumber lib s)
  | JArr _ | JObj _ => bind (to_string v) (fun s => Ok (StringToNumber lib s))
  end.

Definition getByteSize (object : JSValue) : completion Z :=
  byteLength (stringify object).

Definition validatePeerAddress (ip wsPort : JSValue) : completion bool :=
  bind (assertString ip) (fun ipString =>
  if negb (isIP lib ipString) then Ok false
  else
    bind (to_string wsPort) (fun portString =>
    if negb (isPort lib portString) then Ok false else Ok true)).

Definition validatePeerInfoSchema (rawPeerInfo : JSValue) : completion JSValue :=
  if negb (truthy rawPeerInfo) then Throw (InvalidPeerError "Invalid peer object")
  else
    let protocolPeer := rawPeerInfo in
    bind (if negb (truthy (get protocolPeer "ip")) then Ok false
          else if negb (truthy (get protocolPeer "wsPort")) then Ok false
          else validatePeerAddress (get protocolPeer "ip") (get protocolPeer "wsPort"))
         (fun addressOk =>
    if negb addressOk then
      bind (to_string (get protocolPeer "ip")) (fun ipText =>
      bind (to_string (get protocolPeer "wsPort")) (fun portText =>
      Throw (InvalidPeerError
               ("Invalid peer ip or port for peer with ip: " +:+ ipText +:+
                " and wsPort " +:+ portText))))
    else if negb (truthy (get protocolPeer "version"))
            || negb (isValidVersion lib (get protocolPeer "version")) then
      bind (to_string (get protocolPeer "ip")) (fun ipText =>
      bind (to_string (get protocolPeer "wsPort")) (fun portText =>
      bind (to_string (get protocolPeer "version")) (fun versionText =>
      Throw (InvalidPeerError
               ("Invalid peer version for peer with ip: " +:+ ipText +:+ ", wsPort " +:+
                portText +:+ " and version " +:+ versionText)))))
    else
      let version := get protocolPeer "version" in
      let protocolVersion := get protocolPeer "protocolVersion" in
      bind (ToNumber (get protocolPeer "wsPort")) (fun wsPort =>
      let os := if truthy (get protocolPeer "os") then get protocolPeer "os" else JStr "" in
      bind (if truthy (get protocolPeer "height") then
              bind (to_string (get protocolPeer "height")) (fun heightText =>
              if isNumeric lib heightText then ToNumber (get protocolPeer "height")
              else Ok (JNum 0))
            else Ok (JNum 0)) (fun height =>
      let protocolPeerWithoutOptions := remove_prop "options" (own_props protocolPeer) in
      let peerInfo :=
        set_prop "protocolVersion" protocolVersion
          (set_prop "version" version
             (set_prop "os" os
                (set_prop "height" height
                   (set_prop "wsPort" wsPort
                      (set_prop "ipAddress" (get (JObj protocolPeerWithoutOptions) "ip")
                         protocolPeerWithoutOptions))))) in
      let peerInfoUpdated := remove_prop "ip" peerInfo in
      Ok (JObj peerInfoUpdated)))).


End WithLibrary.

(** An instance of [Library] to run examples with. It decides the plain cases
    the way the packages do: dotted quads and colon-hex addresses, decimal
    ports up to 65535, strings of digits, MAJOR.MINOR.PATCH versions. The
    theorems below hold for every instance. *)
Definition decimal_value (s : string) : option Z :=
  if (1 <=? String.length s)%nat && all_chars is_digit s then parseInt s (Some 10) else None.

Definition exampleLibrary : Library := {|
  isIP := fun s => Net.isIPv4 s || Net.isIPv6 s;
  isPort := fun s =>
    match decimal_value s with
    | Some v => v <=? 65535
    | None => false
    end;
  isNumeric := fun s =>
    match decimal_value s with
    | Some _ => true
    | None => false
    end;
  isValidVersion := fun v =>
    match v with
    | JStr s =>
        match split "." s with
        | [a; b; c] =>
            match decimal_value a, decimal_value b, decimal_value c with
            | Some _, Some _, Some _ => true
            | _, _, _ => false
            end
        | _ => false
        end
    | _ => false
    end;
  StringToNumber := fun s =>
    match decimal_value s with
    | Some v => JNum v
    | None => JNaN
    end
|}.

End Validation.

(** ** Numbers that are quotients

    A rate is the quotient of two integer-valued numbers. It is kept as an
    exact rational in lowest terms, with the values a division by zero gives;
    the rounding of the quotient to a double is not modelled. *)

Module Rate.

Inductive JSNum : Type :=
| Finite (q : Q)
| PosInfinity
| NegInfinity
| NotANumber.

Definition of_Z (z : Z) : JSNum := Finite (inject_Z z).

(** [a / b]. *)
Definition js_div (a b : Z) : JSNum :=
  if b =? 0 then
    if 0 <? a then PosInfinity
    else if a <? 0 then NegInfinity
    else NotANumber
  else Finite (Qred (Qmake (a * Z.sgn b) (Z.to_pos (Z.abs b)))).

(** [x > y]. *)
Definition js_gt (x y : JSNum) : bool :=
  match x, y with
  | NotANumber, _ | _, NotANumber => false
  | PosInfinity, PosInfinity => false
  | PosInfinity, _ => true
  | _, PosInfinity => false
  | NegInfinity, _ => false
  | Finite _, NegInfinity => true
  | Finite a, Finite b => negb (Qle_bool a b)
  end.

End Rate.

(** ** [src/peer/base.js], [src/peer/inbound.js], [src/peer/outbound.js] *)

Module PeerSession.
Import JS Value Utils Rate.

Definition REMOTE_EVENT_RPC_REQUEST : string := "rpc-request".
Definition REMOTE_EVENT_MESSAGE : string := "remote-message".
Definition REMOTE_RPC_UPDATE_PEER_INFO : string := "updateMyself".
Definition REMOTE_RPC_GET_NODE_INFO : string := "status".
Definition REMOTE_RPC_GET_PEERS_LIST : string := "list".
Definition REMOTE_MESSAGE_NODE_INFO_CHANGED : string := "nodeInfoChanged".
Definition EVENT_PING : string := "ping".

Definition DEFAULT_CONNECT_TIMEOUT : Z := 2000.
Definition DEFAULT_ACK_TIMEOUT : Z := 2000.
Definition DEFAULT_REPUTATION_SCORE : Z := 100.
Definition DEFAULT_PRODUCTIVITY_RESET_INTERVAL : Z := 20000.
Definition RATE_NORMALIZATION_FACTOR : Z := 1000.

Inductive ConnectionState : Type := CONNECTING | OPEN | CLOSED.

(** The constants of [disconnect_status_codes.js]. The file is not among the
    sources, so each constant stands for itself; [StatusNumber] is a code
    given as a number (1000 is the default of [disconnect]). *)
Inductive StatusCode : Type :=
| StatusNumber (n : Z)
| FORBIDDEN_CONNECTION
| FAILED_TO_RESPOND
| EVICTED_PEER_CODE.

Inductive Reason : Type :=
| NoReason
| ReasonText (s : string)
| FORBIDDEN_CONNECTION_REASON
| FAILED_TO_RESPOND_REASON.

(** The names of the events that peers and the pool emit. *)
Inductive EventName : Type :=
| EVENT_REQUEST_RECEIVED
| EVENT_INVALID_REQUEST_RECEIVED
| EVENT_MESSAGE_RECEIVED
| EVENT_INVALID_MESSAGE_RECEIVED
| EVENT_CONNECT_OUTBOUND
| EVENT_CONNECT_ABORT_OUTBOUND
| EVENT_CLOSE_OUTBOUND
| EVENT_CLOSE_INBOUND
| EVENT_OUTBOUND_SOCKET_ERROR
| EVENT_INBOUND_SOCKET_ERROR
| EVENT_UPDATED_PEER_INFO
| EVENT_FAILED_PEER_INFO_UPDATE
| EVENT_FAILED_TO_FETCH_PEER_INFO
| EVENT_FAILED_TO_FETCH_PEERS
| EVENT_FAILED_TO_COLLECT_PEER_DETAILS_ON_CONNECT
| EVENT_FAILED_TO_PUSH_NODE_INFO
| EVENT_FAILED_TO_SEND_MESSAGE
| EVENT_BAN_PEER
| EVENT_UNBAN_PEER
| EVENT_DISCOVERED_PEER
| EVENT_REMOVE_PEER.

(** The listeners that a pool creates in its constructor. A listener is
    registered and removed by its identity. *)
Inductive Handler : Type :=
| _handlePeerRPC
| _handlePeerMessage
| _handleDiscoverPeer
| _handleOutboundPeerConnect
| _handleOutboundPeerConnectAbort
| _handlePeerCloseOutbound
| _handlePeerCloseInbound
| _handlePeerOutboundSocketError
| _handlePeerInboundSocketError
| _handlePeerInfoUpdate
| _handleFailedPeerInfoUpdate
| _handleFailedToFetchPeerInfo
| _handleFailedToFetchPeers
| _handleFailedToCollectPeerDetails
| _handleBanPeer
| _handleUnbanPeer.

#[global] Instance EventName_eq_dec : EqDecision EventName.
Proof. solve_decision. Defined.

#[global] Instance Handler_eq_dec : EqDecision Handler.
Proof. solve_decision. Defined.

(** *** The transport socket

    The socket belongs to the transport (socketcluster). The model keeps what
    the sessions rely on: its connection state and the calls it received. A
    call to [disconnect] closes it; [connect], and a request or a message sent
    on a closed client socket, start a connection. *)

Inductive SocketCall : Type :=
| call_listener (eventName : string)
| call_procedure (name : string)
| call_receiver (name : string)
| call_closeListener (eventName : string)
| call_killListener (eventName : string)
| call_killProcedure (name : string)
| call_killReceiver (name : string)
| call_connect
| call_disconnect (code : StatusCode) (reason : Reason)
| call_transmit (event : string) (data : JSValue)
| call_invoke (event : string) (data : JSValue).

(** The options a client socket is created with. [query] is the node info
    that is passed to [querystring.stringify]. *)
Record ClientOptions : Type := {
  hostname : string;
  port : Z;
  query : JSValue;
  options_connectTimeout : Z;
  options_ackTimeout : Z;
  autoConnect : bool;
  autoReconnect : bool;
  maxPayload : Z
}.

(** [client] tells a socket made by [socketClusterClient.create], with its
    [options], from a socket handed over by the server. *)
Record Socket : Type := {
  client : bool;
  options : option ClientOptions;
  sock_state : ConnectionState;
  calls : list SocketCall
}.

Definition socket_log (c : SocketCall) (s : Socket) : Socket :=
  {| client := client s; options := options s; sock_state := sock_state s;
     calls := calls s ++ [c] |}.

Definition socket_with_state (st : ConnectionState) (s : Socket) : Socket :=
  {| client := client s; options := options s; sock_state := st; calls := calls s |}.

(** A closed client socket connects when it is used. *)
Definition socket_autoconnect (s : Socket) : Socket :=
  match client s, sock_state s with
  | true, CLOSED => socket_with_state CONNECTING s
  | _, _ => s
  end.

Definition socket_disconnect (code : StatusCode) (reason : Reason) (s : Socket) : Socket :=
  socket_with_state CLOSED (socket_log (call_disconnect code reason) s).

Definition socket_connect (s : Socket) : Socket :=
  socket_autoconnect (socket_log call_connect s).

Definition socket_transmit (event : string) (data : JSValue) (s : Socket) : Socket :=
  socket_autoconnect (socket_log (call_transmit event data) s).

Definition socket_invoke (event : string) (data : JSValue) (s : Socket) : Socket :=
  socket_autoconnect (socket_log (call_invoke event data) s).

(** *** The session state *)

Record PeerConfig : Type := {
  connectTimeout : Z;
  ackTimeout : Z;
  wsMaxMessageRate : Z;
  wsMaxMessageRatePenalty : Z;
  maxPeerDiscoveryResponseLength : Z;
  rateCalculationInterval : Z;
  wsMaxPayloadInbound : Z;
  wsMaxPayloadOutbound : Z;
  maxPeerInfoSize : Z;
  secret : Z
}.

Record Productivity : Type := {
  requestCounter : Z;
  responseCounter : Z;
  responseRate : JSNum;
  lastResponded : Z
}.

Definition DEFAULT_PRODUCTIVITY : Productivity := {|
  requestCounter := 0;
  responseCounter := 0;
  responseRate := of_Z 0;
  lastResponded := 0
|}.

(** The class of a session object: the base class or one of its two
    subclasses. *)
Inductive PeerClass : Type := BasePeer | InboundPeer | OutboundPeer.

Definition PEER_KIND_INBOUND : string := "inbound".
Definition PEER_KIND_OUTBOUND : string := "outbound".

Record Peer : Type := Build_Peer {
  class : PeerClass;
  _peerInfo : P2PPeerInfo;
  _peerConfig : PeerConfig;
  _ipAddress : string;
  _wsPort : Z;
  _id : string;
  _active : bool;
  _height : Z;
  _reputation : Z;
  _latency : Z;
  _connectTime : Z;
  _rpcCounter : gmap string Z;
  _rpcRates : gmap string JSNum;
  _messageCounter : gmap string Z;
  _messageRates : gmap string JSNum;
  _wsMessageCount : Z;
  _wsMessageRate : JSNum;
  _rateInterval : Z;
  _counterResetInterval : bool;
  _productivityResetInterval : bool;
  _pingTimeoutId : bool;
  _productivity : Productivity;
  _nodeInfo : JSValue;
  _socket : option Socket;
  listeners : list (EventName * Handler);
  emitted : list (EventName * string)
}.

Definition set_class (v : PeerClass) (x : Peer) : Peer :=
  Build_Peer v (_peerInfo x) (_peerConfig x) (_ipAddress x) (_wsPort x) (_id x)
    (_active x) (_height x) (_reputation x) (_latency x) (_connectTime x)
    (_rpcCounter x) (_rpcRates x) (_messageCounter x) (_messageRates x)
    (_wsMessageCount x) (_wsMessageRate x) (_rateInterval x) (_counterResetInterval x)
    (_productivityResetInterval x) (_pingTimeoutId x) (_productivity x) (_nodeInfo x)
    (_socket x) (listeners x) (emitted x).

Definition set_peerInfo (v : P2PPeerInfo) (x : Peer) : Peer :=
  Build_Peer (class x) v (_peerConfig x) (_ipAddress x) (_wsPort x) (_id x) (_active x)
    (_height x) (_reputation x) (_latency x) (_connectTime x) (_rpcCounter x)
    (_rpcRates x) (_messageCounter x) (_messageRates x) (_wsMessageCount x)
    (_wsMessageRate x) (_rateInterval x) (_counterResetInterval x)
    (_productivityResetInterval x) (_pingTimeoutId x) (_productivity x) (_nodeInfo x)
    (_socket x) (listeners x) (emitted x).

Definition set_active (v : bool) (x : Peer) : Peer :=
  Build_Peer (class x) (_peerInfo x) (_peerConfig x) (_ipAddress x) (_wsPort x) (_id x)
    v (_height x) (_reputation x) (_latency x) (_connectTime x) (_rpcCounter x)
    (_rpcRates x) (_messageCounter x) (_messageRates x) (_wsMessageCount x)
    (_wsMessageRate x) (_rateInterval x) (_counterResetInterval x)
    (_productivityResetInterval x) (_pingTimeoutId x) (_productivity x) (_nodeInfo x)
    (_socket x) (listeners x) (emitted x).

Definition set_reputation (v : Z) (x : Peer) : Peer :=
  Build_Peer (class x) (_peerInfo x) (_peerConfig x) (_ipAddress x) (_wsPort x) (_id x)
    (_active x) (_height x) v (_latency x) (_connectTime x) (_rpcCounter x)
    (_rpcRates x) (_messageCounter x) (_messageRates x) (_wsMessageCount x)
    (_wsMessageRate x) (_rateInterval x) (_counterResetInterval x)
    (_productivityResetInterval x) (_pingTimeoutId x) (_productivity x) (_nodeInfo x)
    (_socket x) (listeners x) (emitted x).

Definition set_latency (v : Z) (x : Peer) : Peer :=
  Build_Peer (class x) (_peerInfo x) (_peerConfig x) (_ipAddress x) (_wsPort x) (_id x)
    (_active x) (_height x) (_reputation x) v (_connectTime x) (_rpcCounter x)
    (_rpcRates x) (_messageCounter x) (_messageRates x) (_wsMessageCount x)
    (_wsMessageRate x) (_rateInterval x) (_counterResetInterval x)
    (_productivityResetInterval x) (_pingTimeoutId x) (_productivity x) (_nodeInfo x)
    (_socket x) (listeners x) (emitted x).

Definition set_rpcCounter (v : gmap string Z) (x : Peer) : Peer :=
  Build_Peer (class x) (_peerInfo x) (_peerConfig x) (_ipAddress x) (_wsPort x) (_id x)
    (_active x) (_height x) (_reputation x) (_latency x) (_connectTime x) v
    (_rpcRates x) (_messageCounter x) (_messageRates x) (_wsMessageCount x)
    (_wsMessageRate x) (_rateInterval x) (_counterResetInterval x)
    (_productivityResetInterval x) (_pingTimeoutId x) (_productivity x) (_nodeInfo x)
    (_socket x) (listeners x) (emitted x).

Definition set_rpcRates (v : gmap string JSNum) (x : Peer) : Peer :=
  Build_Peer (class x) (_peerInfo x) (_peerConfig x) (_ipAddress x) (_wsPort x) (_id x)
    (_active x) (_height x) (_reputation x) (_latency x) (_connectTime x)
    (_rpcCounter x) v (_messageCounter x) (_messageRates x) (_wsMessageCount x)
    (_wsMessageRate x) (_rateInterval x) (_counterResetInterval x)
    (_productivityResetInterval x) (_pingTimeoutId x) (_productivity x) (_nodeInfo x)
    (_socket x) (listeners x) (emitted x).

Definition set_messageCounter (v : gmap string Z) (x : Peer) : Peer :=
  Build_Peer (class x) (_peerInfo x) (_peerConfig x) (_ipAddress x) (_wsPort x) (_id x)
    (_active x) (_height x) (_reputation x) (_latency x) (_connectTime x)
    (_rpcCounter x) (_rpcRates x) v (_messageRates x) (_wsMessageCount x)
    (_wsMessageRate x) (_rateInterval x) (_counterResetInterval x)
    (_productivityResetInterval x) (_pingTimeoutId x) (_productivity x) (_nodeInfo x)
    (_socket x) (listeners x) (emitted x).

Definition set_messageRates (v : gmap string JSNum) (x : Peer) : Peer :=
  Build_Peer (class x) (_peerInfo x) (_peerConfig x) (_ipAddress x) (_wsPort x) (_id x)
    (_active x) (_height x) (_reputation x) (_latency x) (_connectTime x)
    (_rpcCounter x) (_rpcRates x) (_messageCounter x) v (_wsMessageCount x)
    (_wsMessageRate x) (_rateInterval x) (_counterResetInterval x)
    (_productivityResetInterval x) (_pingTimeoutId x) (_productivity x) (_nodeInfo x)
    (_socket x) (listeners x) (emitted x).

Definition set_wsMessageCount (v : Z) (x : Peer) : Peer :=
  Build_Peer (class x) (_peerInfo x) (_peerConfig x) (_ipAddress x) (_wsPort x) (_id x)
    (_active x) (_height x) (_reputation x) (_latency x) (_connectTime x)
    (_rpcCounter x) (_rpcRates x) (_messageCounter x) (_messageRates x) v
    (_wsMessageRate x) (_rateInterval x) (_counterResetInterval x)
    (_productivityResetInterval x) (_pingTimeoutId x) (_productivity x) (_nodeInfo x)
    (_socket x) (listeners x) (emitted x).

Definition set_wsMessageRate (v : JSNum) (x : Peer) : Peer :=
  Build_Peer (class x) (_peerInfo x) (_peerConfig x) (_ipAddress x) (_wsPort x) (_id x)
    (_active x) (_height x) (_reputation x) (_latency x) (_connectTime x)
    (_rpcCounter x) (_rpcRates x) (_messageCounter x) (_messageRates x)
    (_wsMessageCount x) v (_rateInterval x) (_counterResetInterval x)
    (_productivityResetInterval x) (_pingTimeoutId x) (_productivity x) (_nodeInfo x)
    (_socket x) (listeners x) (emitted x).

Definition set_counterResetInterval (v : bool) (x : Peer) : Peer :=
  Build_Peer (class x) (_peerInfo x) (_peerConfig x) (_ipAddress x) (_wsPort x) (_id x)
    (_active x) (_height x) (_reputation x) (_latency x) (_connectTime x)
    (_rpcCounter x) (_rpcRates x) (_messageCounter x) (_messageRates x)
    (_wsMessageCount x) (_wsMessageRate x) (_rateInterval x) v
    (_productivityResetInterval x) (_pingTimeoutId x) (_productivity x) (_nodeInfo x)
    (_socket x) (listeners x) (emitted x).

Definition set_productivityResetInterval (v : bool) (x : Peer) : Peer :=
  Build_Peer (class x) (_peerInfo x) (_peerConfig x) (_ipAddress x) (_wsPort x) (_id x)
    (_active x) (_height x) (_reputation x) (_latency x) (_connectTime x)
    (_rpcCounter x) (_rpcRates x) (_messageCounter x) (_messageRates x)
    (_wsMessageCount x) (_wsMessageRate x) (_rateInterval x) (_counterResetInterval x) v
    (_pingTimeoutId x) (_productivity x) (_nodeInfo x) (_socket x) (listeners x)
    (emitted x).

Definition set_pingTimeoutId (v : bool) (x : Peer) : Peer :=
  Build_Peer (class x) (_peerInfo x) (_peerConfig x) (_ipAddress x) (_wsPort x) (_id x)
    (_active x) (_height x) (_reputation x) (_latency x) (_connectTime x)
    (_rpcCounter x) (_rpcRates x) (_messageCounter x) (_messageRates x)
    (_wsMessageCount x) (_wsMessageRate x) (_rateInterval x) (_counterResetInterval x)
    (_productivityResetInterval x) v (_productivity x) (_nodeInfo x) (_socket x)
    (listeners x) (emitted x).

Definition set_productivity (v : Productivity) (x : Peer) : Peer :=
  Build_Peer (class x) (_peerInfo x) (_peerConfig x) (_ipAddress x) (_wsPort x) (_id x)
    (_active x) (_height x) (_reputation x) (_latency x) (_connectTime x)
    (_rpcCounter x) (_rpcRates x) (_messageCounter x) (_messageRates x)
    (_wsMessageCount x) (_wsMessageRate x) (_rateInterval x) (_counterResetInterval x)
    (_productivityResetInterval x) (_pingTimeoutId x) v (_nodeInfo x) (_socket x)
    (listeners x) (emitted x).

Definition set_nodeInfo (v : JSValue) (x : Peer) : Peer :=
  Build_Peer (class x) (_peerInfo x) (_peerConfig x) (_ipAddress x) (_wsPort x) (_id x)
    (_active x) (_height x) (_reputation x) (_latency x) (_connectTime x)
    (_rpcCounter x) (_rpcRates x) (_messageCounter x) (_messageRates x)
    (_wsMessageCount x) (_wsMessageRate x) (_rateInterval x) (_counterResetInterval x)
    (_productivityResetInterval x) (_pingTimeoutId x) (_productivity x) v (_socket x)
    (listeners x) (emitted x).

Definition set_socket (v : option Socket) (x : Peer) : Peer :=
  Build_Peer (class x) (_peerInfo x) (_peerConfig x) (_ipAddress x) (_wsPort x) (_id x)
    (_active x) (_height x) (_reputation x) (_latency x) (_connectTime x)
    (_rpcCounter x) (_rpcRates x) (_messageCounter x) (_messageRates x)
    (_wsMessageCount x) (_wsMessageRate x) (_rateInterval x) (_counterResetInterval x)
    (_productivityResetInterval x) (_pingTimeoutId x) (_productivity x) (_nodeInfo x) v
    (listeners x) (emitted x).

Definition set_listeners (v : list (EventName * Handler)) (x : Peer) : Peer :=
  Build_Peer (class x) (_peerInfo x) (_peerConfig x) (_ipAddress x) (_wsPort x) (_id x)
    (_active x) (_height x) (_reputation x) (_latency x) (_connectTime x)
    (_rpcCounter x) (_rpcRates x) (_messageCounter x) (_messageRates x)
    (_wsMessageCount x) (_wsMessageRate x) (_rateInterval x) (_counterResetInterval x)
    (_productivityResetInterval x) (_pingTimeoutId x) (_productivity x) (_nodeInfo x)
    (_socket x) v (emitted x).

Definition set_emitted (v : list (EventName * string)) (x : Peer) : Peer :=
  Build_Peer (class x) (_peerInfo x) (_peerConfig x) (_ipAddress x) (_wsPort x) (_id x)
    (_active x) (_height x) (_reputation x) (_latency x) (_connectTime x)
    (_rpcCounter x) (_rpcRates x) (_messageCounter x) (_messageRates x)
    (_wsMessageCount x) (_wsMessageRate x) (_rateInterval x) (_counterResetInterval x)
    (_productivityResetInterval x) (_pingTimeoutId x) (_productivity x) (_nodeInfo x)
    (_socket x) (listeners x) v.

(** [peer.kind]: the subclasses set it in their constructors. *)
Definition kind (p : Peer) : option string :=
  match class p with
  | BasePeer => None
  | InboundPeer => Some PEER_KIND_INBOUND
  | OutboundPeer => Some PEER_KIND_OUTBOUND
  end.

(** *** The event emitter of a session *)

(** [this.emit(name, payload)]: the event is appended to the session's log;
    the listeners registered for it are run by the owner of the session. *)
Definition emit (name : EventName) (payload : string) (p : Peer) : Peer :=
  set_emitted (emitted p ++ [(name, payload)]) p.

(** [peer.on(name, handler)]. *)
Definition on (name : EventName) (handler : Handler) (p : Peer) : Peer :=
  set_listeners (listeners p ++ [(name, handler)]) p.

Fixpoint remove_first (x : EventName * Handler) (l : list (EventName * Handler))
  : list (EventName * Handler) :=
  match l with
  | [] => []
  | y :: l' => if decide (x = y) then l' else y :: remove_first x l'
  end.

(** [peer.removeListener(name, handler)]: at most one registration is removed,
    the most recent one. *)
Definition removeListener (name : EventName) (handler : Handler) (p : Peer) : Peer :=
  set_listeners (rev (remove_first (name, handler) (rev (listeners p)))) p.

(** *** Getters *)

Definition id (p : Peer) : string := _id p.
Definition reputation (p : Peer) : Z := _reputation p.
Definition latency (p : Peer) : Z := _latency p.
Definition connectTime (p : Peer) : Z := _connectTime p.
Definition wsMessageRate (p : Peer) : JSNum := _wsMessageRate p.
Definition productivity (p : Peer) : Productivity := _productivity p.

(** [get state()]. *)
Definition state (p : Peer) : ConnectionState :=
  match _socket p with
  | Some socket =>
      match sock_state socket with
      | OPEN => OPEN
      | _ => CLOSED
      end
  | None => CLOSED
  end.

(** *** Disconnecting *)

(** The default [code = 1000] of [disconnect]. *)
Definition default_code (code : option StatusCode) : StatusCode :=
  match code with
  | Some c => c
  | None => StatusNumber 1000
  end.

(** [Peer.prototype.disconnect]. *)
Definition Peer_disconnect (code : option StatusCode) (reason : Reason) (p : Peer) : Peer :=
  if _active p then
    let p1 := set_active false p in
    let p2 := set_counterResetInterval false p1 in
    let p3 := set_productivityResetInterval false p2 in
    match _socket p3 with
    | Some socket => set_socket (Some (socket_disconnect (default_code code) reason socket)) p3
    | None => p3
    end
  else p.

Definition _unbindHandlersFromInboundSocket (inboundSocket : Socket) : Socket :=
  socket_log (call_killReceiver REMOTE_EVENT_MESSAGE)
    (socket_log (call_killProcedure REMOTE_EVENT_RPC_REQUEST)
       (socket_log (call_killListener "message")
          (socket_log (call_closeListener "close")
             (socket_log (call_closeListener "error") inboundSocket)))).

Definition _unbindHandlersFromOutboundSocket (outboundSocket : Socket) : Socket :=
  socket_log (call_killReceiver REMOTE_EVENT_MESSAGE)
    (socket_log (call_killProcedure REMOTE_EVENT_RPC_REQUEST)
       (socket_log (call_killProcedure EVENT_PING)
          (socket_log (call_killListener "message")
             (socket_log (call_closeListener "close")
                (socket_log (call_closeListener "connectAbort")
                   (socket_log (call_closeListener "connect")
                      (socket_log (call_closeListener "error") outboundSocket))))))).

(** [this.disconnect(code, reason)], by the class of the session. An inbound
    session holds a socket from its construction on. *)
Definition disconnect (code : option StatusCode) (reason : Reason) (p : Peer) : Peer :=
  match class p with
  | BasePeer => Peer_disconnect code reason p
  | InboundPeer =>
      let p1 := Peer_disconnect code reason p in
      match _socket p1 with
      | Some socket => set_socket (Some (_unbindHandlersFromInboundSocket socket)) p1
      | None => p1
      end
  | OutboundPeer =>
      let p1 := Peer_disconnect code reason p in
      match _socket p1 with
      | Some socket => set_socket (Some (_unbindHandlersFromOutboundSocket socket)) p1
      | None => p1
      end
  end.

(** *** Reputation *)

Definition _banPeer (p : Peer) : Peer :=
  let p1 := emit EVENT_BAN_PEER (_id p) p in
  disconnect (Some FORBIDDEN_CONNECTION) FORBIDDEN_CONNECTION_REASON p1.

Definition applyPenalty (penalty : Z) (p : Peer) : Peer :=
  let p1 := set_reputation (_reputation p - penalty) p in
  if _reputation p1 <=? 0 then _banPeer p1 else p1.

(** *** The two interval timers of the constructor *)

(** The callback of [_counterResetInterval]. *)
Definition counterResetTick (p : Peer) : Peer :=
  let p1 :=
    set_wsMessageRate
      (js_div (_wsMessageCount p * RATE_NORMALIZATION_FACTOR) (_rateInterval p)) p in
  let p2 := set_wsMessageCount 0 p1 in
  if js_gt (_wsMessageRate p2) (of_Z (wsMaxMessageRate (_peerConfig p2))) then
    applyPenalty (wsMaxMessageRatePenalty (_peerConfig p2)) p2
  else
    let p3 := set_rpcRates ((fun value => js_div value (_rateInterval p2)) <$> _rpcCounter p2) p2 in
    let p4 := set_rpcCounter ∅ p3 in
    let p5 :=
      set_messageRates
        ((fun value => js_div value (_rateInterval p4)) <$> _messageCounter p4) p4 in
    set_messageCounter ∅ p5.

(** The callback of [_productivityResetInterval]; [now] is [Date.now()]. *)
Definition productivityResetTick (now : Z) (p : Peer) : Peer :=
  if lastResponded (_productivity p) <? now - DEFAULT_PRODUCTIVITY_RESET_INTERVAL
  then set_productivity DEFAULT_PRODUCTIVITY p
  else p.

(** *** Counters of incoming traffic *)

Definition _handleWSMessage (p : Peer) : Peer :=
  set_wsMessageCount (_wsMessageCount p + 1) p.

Definition bump (key : string) (counter : gmap string Z) : gmap string Z :=
  <[key := default 0 (counter !! key) + 1]> counter.

Definition _updateRPCCounter (procedure : string) (p : Peer) : Peer :=
  set_rpcCounter (bump procedure (_rpcCounter p)) p.


(** *** Requests *)

Record RequestPacket : Type := { procedure : string; data : JSValue }.

(** How the transport settles [socket.invoke]: with a response, or with an
    error of some [name] and [message]. *)
Inductive InvokeOutcome : Type :=
| Resolved (responseData : JSValue)
| Rejected (name message : string).

Definition peer_address_text (p : Peer) : string :=
  _ipAddress p +:+ ":" +:+ number_to_string (_wsPort p).

(** [Peer.prototype.request] up to its [await]: the request is counted and
    handed to the socket. *)
Definition request_start (packet : RequestPacket) (p : Peer) : Peer * completion unit :=
  let pr := _productivity p in
  let p1 :=
    set_productivity
      {| requestCounter := requestCounter pr + 1;
         responseCounter := responseCounter pr;
         responseRate := responseRate pr;
         lastResponded := lastResponded pr |} p in
  match _socket p1 with
  | None => (p1, Throw (Error "Peer socket does not exist"))
  | Some socket =>
      (set_socket
         (Some (socket_invoke REMOTE_EVENT_RPC_REQUEST
                  (JObj [("type", JStr "/RPCRequest");
                         ("procedure", JStr (procedure packet));
                         ("data", data packet)]) socket)) p1,
       Ok tt)
  end.

(** [Peer.prototype.request] from its [await] on, on the state the session has
    when the transport settles the call; [now] is [Date.now()]. *)
Definition request_settle (now : Z) (packet : RequestPacket) (outcome : InvokeOutcome)
    (p : Peer) : Peer * completion JSValue :=
  match outcome with
  | Rejected name message =>
      if String.eqb name "TimeoutError" then
        (disconnect (Some FAILED_TO_RESPOND) FAILED_TO_RESPOND_REASON p,
         Throw (RPCTimeoutError message (peer_address_text p)))
      else (p, Throw (RPCResponseError message (peer_address_text p)))
  | Resolved responseData =>
      if truthy responseData then
        let pr := _productivity p in
        let counter := responseCounter pr + 1 in
        (set_productivity
           {| requestCounter := requestCounter pr;
              responseCounter := counter;
              responseRate := js_div counter (requestCounter pr);
              lastResponded := now |} p,
         Ok responseData)
      else
        (p, Throw (RPCResponseError
                     ("Failed to handle response for procedure " +:+ procedure packet)
                     (peer_address_text p)))
  end.

(** [Peer.prototype.request] when nothing else runs during its [await]. *)
Definition Peer_request (now : Z) (packet : RequestPacket) (outcome : InvokeOutcome)
    (p : Peer) : Peer * completion JSValue :=
  match request_start packet p with
  | (p1, Throw e) => (p1, Throw e)
  | (p1, Ok _) => request_settle now packet outcome p1
  end.

(** *** The outbound socket *)

Definition clientOptions (p : Peer) : ClientOptions := {|
  hostname := if Net.isIPv6 (_ipAddress p) then "[" +:+ _ipAddress p +:+ "]" else _ipAddress p;
  port := _wsPort p;
  query := if truthy (_nodeInfo p) then _nodeInfo p else JUndefined;
  options_connectTimeout :=
    if connectTimeout (_peerConfig p) =? 0 then DEFAULT_CONNECT_TIMEOUT
    else connectTimeout (_peerConfig p);
  options_ackTimeout :=
    if ackTimeout (_peerConfig p) =? 0 then DEFAULT_ACK_TIMEOUT
    else ackTimeout (_peerConfig p);
  autoConnect := false;
  autoReconnect := false;
  maxPayload := wsMaxPayloadOutbound (_peerConfig p)
|}.

(** [socketClusterClient.create(clientOptions)] followed by
    [_bindHandlersToOutboundSocket]: a closed client socket with the
    consumers of its streams attached. *)
Definition _createOutboundSocket (p : Peer) : Socket := {|
  client := true;
  options := Some (clientOptions p);
  sock_state := CLOSED;
  calls := [call_listener "error"; call_listener "connect"; call_listener "connectAbort";
            call_listener "close"; call_listener "message";
            call_procedure EVENT_PING; call_procedure REMOTE_EVENT_RPC_REQUEST;
            call_receiver REMOTE_EVENT_MESSAGE]
|}.

Definition ensure_outbound_socket (p : Peer) : Peer :=
  match _socket p with
  | Some _ => p
  | None => set_socket (Some (_createOutboundSocket p)) p
  end.

(** [this.request(packet)] up to its [await], by the class of the session. *)
Definition request_start_of (packet : RequestPacket) (p : Peer) : Peer * completion unit :=
  match class p with
  | OutboundPeer => request_start packet (ensure_outbound_socket p)
  | _ => request_start packet p
  end.

(** [this.request(packet)] when nothing else runs during its [await]. *)
Definition request (now : Z) (packet : RequestPacket) (outcome : InvokeOutcome)
    (p : Peer) : Peer * completion JSValue :=
  match request_start_of packet p with
  | (p1, Throw e) => (p1, Throw e)
  | (p1, Ok _) => request_settle now packet outcome p1
  end.

Record MessagePacket : Type := { event : string; message_data : JSValue }.

Definition Peer_send (packet : MessagePacket) (p : Peer) : Peer * completion unit :=
  match _socket p with
  | None => (p, Throw (Error "Peer socket does not exist"))
  | Some socket =>
      (set_socket
         (Some (socket_transmit REMOTE_EVENT_MESSAGE
                  (JObj [("event", JStr (event packet)); ("data", message_data packet)])
                  socket)) p,
       Ok tt)
  end.

Definition send (packet : MessagePacket) (p : Peer) : Peer * completion unit :=
  match class p with
  | OutboundPeer => Peer_send packet (ensure_outbound_socket p)
  | _ => Peer_send packet p
  end.

(** [applyNodeInfo] up to its first [await]. *)
Definition applyNodeInfo_start (nodeInfo : JSValue) (p : Peer) : Peer * completion unit :=
  let p1 := set_nodeInfo nodeInfo p in
  if isPassive (_peerInfo p1) then
    match _socket p1 with
    | None => (p1, Throw (Error "Passive peer socket does not exist"))
    | Some socket =>
        (set_socket
           (Some (socket_transmit REMOTE_MESSAGE_NODE_INFO_CHANGED (_nodeInfo p1) socket)) p1,
         Ok tt)
    end
  else
    request_start_of {| procedure := REMOTE_RPC_UPDATE_PEER_INFO; data := _nodeInfo p1 |} p1.

(** [OutboundPeer.prototype.connect] and [Peer.prototype.connect]. *)
Definition connect (p : Peer) : Peer * completion unit :=
  match class p with
  | OutboundPeer =>
      let p1 := ensure_outbound_socket p in
      match _socket p1 with
      | Some socket => (set_socket (Some (socket_connect socket)) p1, Ok tt)
      | None => (p1, Ok tt)
      end
  | _ =>
      match _socket p with
      | None => (p, Throw (Error "Peer socket does not exist"))
      | Some _ => (p, Ok tt)
      end
  end.

(** [updatePeerInfo]: the address of the session is kept. *)
Definition updatePeerInfo (newPeerInfo : P2PPeerInfo) (p : Peer) : Peer :=
  set_peerInfo
    {| ipAddress := _ipAddress p;
       wsPort := _wsPort p;
       height := height newPeerInfo;
       isPassive := isPassive newPeerInfo |} p.

(** *** Constructors; [now] is [Date.now()] *)

Definition new_Peer (cls : PeerClass) (now : Z) (peerInfo : P2PPeerInfo) (peerConfig : PeerConfig)
  : completion Peer :=
  bind (getPeerIdFromPeerInfo
          {| ipAddress := ipAddress peerInfo; wsPort := wsPort peerInfo;
             height := 0; isPassive := false |}) (fun peerId =>
  Ok {| class := cls;
        _peerInfo := peerInfo;
        _peerConfig := peerConfig;
        _ipAddress := ipAddress peerInfo;
        _wsPort := wsPort peerInfo;
        _id := peerId;
        _active := true;
        _height := height peerInfo;
        _reputation := DEFAULT_REPUTATION_SCORE;
        _latency := 0;
        _connectTime := now;
        _rpcCounter := ∅;
        _rpcRates := ∅;
        _messageCounter := ∅;
        _messageRates := ∅;
        _wsMessageCount := 0;
        _wsMessageRate := of_Z 0;
        _rateInterval := rateCalculationInterval peerConfig;
        _counterResetInterval := true;
        _productivityResetInterval := true;
        _pingTimeoutId := false;
        _productivity := DEFAULT_PRODUCTIVITY;
        _nodeInfo := JUndefined;
        _socket := None;
        listeners := [];
        emitted := [] |}).

Definition _bindHandlersToInboundSocket (inboundSocket : Socket) : Socket :=
  socket_log (call_receiver REMOTE_EVENT_MESSAGE)
    (socket_log (call_procedure REMOTE_EVENT_RPC_REQUEST)
       (socket_log (call_listener "message")
          (socket_log (call_listener "close")
             (socket_log (call_listener "error") inboundSocket)))).

Definition new_InboundPeer (now : Z) (peerInfo : P2PPeerInfo) (peerSocket : Socket)
    (peerConfig : PeerConfig) : completion Peer :=
  bind (new_Peer InboundPeer now peerInfo peerConfig) (fun p =>
  Ok (set_socket (Some (_bindHandlersToInboundSocket peerSocket))
        (set_pingTimeoutId true p))).

Definition new_OutboundPeer (now : Z) (peerInfo : P2PPeerInfo) (peerConfig : PeerConfig)
  : completion Peer :=
  new_Peer OutboundPeer now peerInfo peerConfig.

End PeerSession.

(** ** [src/peer_pool.js] *)

Module Pool.
Import JS Value Utils Rate PeerSession.

Definition MAX_PEER_LIST_BATCH_SIZE : Z := 100.
Definition MAX_PEER_DISCOVERY_PROBE_SAMPLE_SIZE : Z := 100.
Definition INTENTIONAL_DISCONNECT_STATUS_CODE : Z := 1000.

Inductive PROTECTION_CATEGORY : Type := LATENCY | RESPONSE_RATE | CONNECT_TIME.

(** What the pool takes from its environment: [lodash.shuffle], whose result
    is random, and [Array.prototype.sort], whose result for the comparator of
    [filterPeersByCategory] (it never answers 0) is left to the engine. *)
Record Runtime : Type := {
  shuffle : list nat -> list nat;
  sort : (nat -> nat -> Z) -> list nat -> list nat
}.

Record PeerLists : Type := {
  seedPeers : list P2PPeerInfo;
  fixedPeers : list P2PPeerInfo;
  whitelisted : list P2PPeerInfo;
  previousPeers : list P2PPeerInfo
}.

(** The options of the pool; [sessionConfig] gathers the ten options that the
    constructor copies into [_peerConfig]. *)
Record PeerPoolConfig : Type := {
  sessionConfig : PeerConfig;
  peerLists : PeerLists;
  maxOutboundConnections : Z;
  maxInboundConnections : Z;
  sendPeerLimit : Z;
  outboundShuffleInterval : Z;
  peerBanTime : Z;
  latencyProtectionRatio : Q;
  productivityProtectionRatio : Q;
  longevityProtectionRatio : Q
}.

(** The pool. Its two maps hold references to session objects; [heap] gives
    the state of every session object created so far, a reference being an
    index into it. [events] is the log of the events the pool emitted. *)
Record PeerPool : Type := Build_PeerPool {
  heap : list Peer;
  _inboundPeerMap : gmap string nat;
  _outboundPeerMap : gmap string nat;
  _peerPoolConfig : PeerPoolConfig;
  _peerConfig : PeerConfig;
  _nodeInfo : JSValue;
  _outboundShuffleIntervalId : bool;
  events : list (EventName * string)
}.

Definition pool_set_heap (v : list Peer) (x : PeerPool) : PeerPool :=
  Build_PeerPool v (_inboundPeerMap x) (_outboundPeerMap x) (_peerPoolConfig x)
    (_peerConfig x) (_nodeInfo x) (_outboundShuffleIntervalId x) (events x).

Definition pool_set_inboundPeerMap (v : gmap string nat) (x : PeerPool) : PeerPool :=
  Build_PeerPool (heap x) v (_outboundPeerMap x) (_peerPoolConfig x) (_peerConfig x)
    (_nodeInfo x) (_outboundShuffleIntervalId x) (events x).

Definition pool_set_outboundPeerMap (v : gmap string nat) (x : PeerPool) : PeerPool :=
  Build_PeerPool (heap x) (_inboundPeerMap x) v (_peerPoolConfig x) (_peerConfig x)
    (_nodeInfo x) (_outboundShuffleIntervalId x) (events x).

Definition pool_set_nodeInfo (v : JSValue) (x : PeerPool) : PeerPool :=
  Build_PeerPool (heap x) (_inboundPeerMap x) (_outboundPeerMap x) (_peerPoolConfig x)
    (_peerConfig x) v (_outboundShuffleIntervalId x) (events x).

Definition pool_set_outboundShuffleIntervalId (v : bool) (x : PeerPool) : PeerPool :=
  Build_PeerPool (heap x) (_inboundPeerMap x) (_outboundPeerMap x) (_peerPoolConfig x)
    (_peerConfig x) (_nodeInfo x) v (events x).

Definition pool_set_events (v : list (EventName * string)) (x : PeerPool) : PeerPool :=
  Build_PeerPool (heap x) (_inboundPeerMap x) (_outboundPeerMap x) (_peerPoolConfig x)
    (_peerConfig x) (_nodeInfo x) (_outboundShuffleIntervalId x) v.

Definition new_PeerPool (peerPoolConfig : PeerPoolConfig) : PeerPool := {|
  heap := [];
  _inboundPeerMap := ∅;
  _outboundPeerMap := ∅;
  _peerPoolConfig := peerPoolConfig;
  _peerConfig := sessionConfig peerPoolConfig;
  _nodeInfo := JUndefined;
  _outboundShuffleIntervalId := true;
  events := []
|}.

Definition _peerLists (pool : PeerPool) : PeerLists := peerLists (_peerPoolConfig pool).
Definition _maxOutboundConnections (pool : PeerPool) : Z :=
  maxOutboundConnections (_peerPoolConfig pool).
Definition _maxInboundConnections (pool : PeerPool) : Z :=
  maxInboundConnections (_peerPoolConfig pool).

(** [this.emit(name, payload)] on the pool. *)
Definition pool_emit (name : EventName) (payload : string) (pool : PeerPool) : PeerPool :=
  pool_set_events (events pool ++ [(name, payload)]) pool.

(** A method call on the session object behind a reference. *)
Definition update_peer (ref : nat) (f : Peer -> Peer) (pool : PeerPool) : PeerPool :=
  pool_set_heap (alter f ref (heap pool)) pool.

(** The values of a map, as [[...map.values()]] lists them. *)
Definition map_values (m : gmap string nat) : list nat := (map_to_list m).*2.

Definition getPeers (kind : option string) (pool : PeerPool) : list nat :=
  match kind with
  | Some k =>
      if String.eqb k PEER_KIND_OUTBOUND then map_values (_outboundPeerMap pool)
      else if String.eqb k PEER_KIND_INBOUND then map_values (_inboundPeerMap pool)
      else map_values (_outboundPeerMap pool) ++ map_values (_inboundPeerMap pool)
  | None => map_values (_outboundPeerMap pool) ++ map_values (_inboundPeerMap pool)
  end.

Definition getPeersCountPerKind (pool : PeerPool) : nat * nat :=
  (size (_outboundPeerMap pool), size (_inboundPeerMap pool)).

Definition getPeer (peerId : string) (pool : PeerPool) : option nat :=
  match _outboundPeerMap pool !! peerId with
  | Some ref => Some ref
  | None => _inboundPeerMap pool !! peerId
  end.

Definition hasPeer (peerId : string) (pool : PeerPool) : bool :=
  bool_decide (is_Some (_outboundPeerMap pool !! peerId))
  || bool_decide (is_Some (_inboundPeerMap pool !! peerId)).

(** *** Handlers of the pool on a session *)

Definition _bindHandlersToPeer (peer : Peer) : Peer :=
  on EVENT_DISCOVERED_PEER _handleDiscoverPeer
  (on EVENT_UNBAN_PEER _handleUnbanPeer
  (on EVENT_BAN_PEER _handleBanPeer
  (on EVENT_FAILED_TO_COLLECT_PEER_DETAILS_ON_CONNECT _handleFailedToCollectPeerDetails
  (on EVENT_FAILED_TO_FETCH_PEERS _handleFailedToFetchPeers
  (on EVENT_FAILED_TO_FETCH_PEER_INFO _handleFailedToFetchPeerInfo
  (on EVENT_FAILED_PEER_INFO_UPDATE _handleFailedPeerInfoUpdate
  (on EVENT_UPDATED_PEER_INFO _handlePeerInfoUpdate
  (on EVENT_INBOUND_SOCKET_ERROR _handlePeerInboundSocketError
  (on EVENT_OUTBOUND_SOCKET_ERROR _handlePeerOutboundSocketError
  (on EVENT_CLOSE_INBOUND _handlePeerCloseInbound
  (on EVENT_CLOSE_OUTBOUND _handlePeerCloseOutbound
  (on EVENT_CONNECT_ABORT_OUTBOUND _handleOutboundPeerConnectAbort
  (on EVENT_CONNECT_OUTBOUND _handleOutboundPeerConnect
  (on EVENT_MESSAGE_RECEIVED _handlePeerMessage
  (on EVENT_REQUEST_RECEIVED _handlePeerRPC peer))))))))))))))).

Definition _unbindHandlersFromPeer (peer : Peer) : Peer :=
  removeListener EVENT_DISCOVERED_PEER _handleDiscoverPeer
  (removeListener EVENT_UNBAN_PEER _handleUnbanPeer
  (removeListener EVENT_BAN_PEER _handleBanPeer
  (removeListener EVENT_FAILED_TO_COLLECT_PEER_DETAILS_ON_CONNECT
     _handleFailedToCollectPeerDetails
  (removeListener EVENT_FAILED_PEER_INFO_UPDATE _handleFailedPeerInfoUpdate
  (removeListener EVENT_FAILED_TO_FETCH_PEERS _handleFailedToFetchPeers
  (removeListener EVENT_FAILED_TO_FETCH_PEER_INFO _handleFailedToFetchPeerInfo
  (removeListener EVENT_UPDATED_PEER_INFO _handlePeerInfoUpdate
  (removeListener EVENT_CLOSE_INBOUND _handlePeerCloseInbound
  (removeListener EVENT_CLOSE_OUTBOUND _handlePeerCloseOutbound
  (removeListener EVENT_CONNECT_ABORT_OUTBOUND _handleOutboundPeerConnectAbort
  (removeListener EVENT_CONNECT_OUTBOUND _handleOutboundPeerConnect
  (removeListener EVENT_MESSAGE_RECEIVED _handlePeerMessage
  (removeListener EVENT_REQUEST_RECEIVED _handlePeerRPC peer))))))))))))).

(** [_applyNodeInfoOnPeer] up to the first [await] of the call it starts. A
    failure is reported later, by [EVENT_FAILED_TO_PUSH_NODE_INFO]. *)
Definition _applyNodeInfoOnPeer (nodeInfo : JSValue) (peer : Peer) : Peer :=
  fst (applyNodeInfo_start nodeInfo peer).

(** *** Removing a session *)

Definition removeOutboundPeer (peerId : string) (code : option StatusCode) (reason : Reason)
    (pool : PeerPool) : PeerPool * bool :=
  let pool1 :=
    match _outboundPeerMap pool !! peerId with
    | Some peer =>
        update_peer peer (fun p => _unbindHandlersFromPeer (disconnect code reason p)) pool
    | None => pool
    end in
  let wasRemoved := bool_decide (is_Some (_outboundPeerMap pool1 !! peerId)) in
  let pool2 := pool_set_outboundPeerMap (delete peerId (_outboundPeerMap pool1)) pool1 in
  (pool_emit EVENT_REMOVE_PEER peerId pool2, wasRemoved).

Definition removeInboundPeer (peerId : string) (code : option StatusCode) (reason : Reason)
    (pool : PeerPool) : PeerPool * bool :=
  let pool1 :=
    match _inboundPeerMap pool !! peerId with
    | Some peer =>
        update_peer peer (fun p => _unbindHandlersFromPeer (disconnect code reason p)) pool
    | None => pool
    end in
  let wasRemoved := bool_decide (is_Some (_inboundPeerMap pool1 !! peerId)) in
  let pool2 := pool_set_inboundPeerMap (delete peerId (_inboundPeerMap pool1)) pool1 in
  (pool_emit EVENT_REMOVE_PEER peerId pool2, wasRemoved).

(** *** Eviction *)

(** [l.every(f)] and [l.filter(f)] for an [f] that can throw. *)
Fixpoint everyM {A : Type} (f : A -> completion bool) (l : list A) : completion bool :=
  match l with
  | [] => Ok true
  | a :: l' => bind (f a) (fun b => if b then everyM f l' else Ok false)
  end.

Fixpoint filterM {A : Type} (f : A -> completion bool) (l : list A) : completion (list A) :=
  match l with
  | [] => Ok []
  | a :: l' =>
      bind (f a) (fun b =>
      bind (filterM f l') (fun rest => Ok (if b then a :: rest else rest)))
  end.

(** [a[options.category]] for the session behind a reference. *)
Definition category_value (category : PROTECTION_CATEGORY) (pool : PeerPool) (ref : nat) : JSNum :=
  match heap pool !! ref with
  | Some p =>
      match category with
      | LATENCY => of_Z (latency p)
      | RESPONSE_RATE => responseRate (productivity p)
      | CONNECT_TIME => of_Z (connectTime p)
      end
  | None => NotANumber
  end.

Definition filterPeersByCategory (rt : Runtime) (pool : PeerPool) (peers : list nat)
    (category : PROTECTION_CATEGORY) (percentage : Q) (asc : bool) : list nat :=
  if negb (Qle_bool percentage 1) || negb (Qle_bool 0 percentage) then peers
  else
    let peerCount := Qceiling (inject_Z (Z.of_nat (length peers)) * percentage) in
    let sign := if asc then 1 else -1 in
    drop (Z.to_nat peerCount)
      (sort rt (fun a b =>
                  if js_gt (category_value category pool a) (category_value category pool b)
                  then sign else sign * -1) peers).

(** Whether no entry of [list] has the id of the session behind [ref]. *)
Definition not_listed (pool : PeerPool) (list : list P2PPeerInfo) (ref : nat) : completion bool :=
  everyM (fun p =>
            bind (getPeerIdFromPeerInfo p) (fun pid =>
            Ok (negb (bool_decide (Some pid = (PeerSession.id <$> heap pool !! ref))))))
         list.

Definition ratio_set (r : Q) : bool := negb (Qeq_bool r 0).

Definition _selectPeersForEviction (rt : Runtime) (pool : PeerPool) : completion (list nat) :=
  bind (filterM (not_listed pool (whitelisted (_peerLists pool)))
                (getPeers (Some PEER_KIND_INBOUND) pool)) (fun peers =>
  let config := _peerPoolConfig pool in
  let filteredPeersByLatency :=
    if ratio_set (latencyProtectionRatio config)
    then filterPeersByCategory rt pool peers LATENCY (latencyProtectionRatio config) true
    else peers in
  if (length filteredPeersByLatency <=? 1)%nat then Ok filteredPeersByLatency
  else
    let filteredPeersByResponseRate :=
      if ratio_set (productivityProtectionRatio config)
      then filterPeersByCategory rt pool filteredPeersByLatency RESPONSE_RATE
             (productivityProtectionRatio config) false
      else filteredPeersByLatency in
    if (length filteredPeersByResponseRate <=? 1)%nat then Ok filteredPeersByResponseRate
    else
      let filteredPeersByConnectTime :=
        if ratio_set (longevityProtectionRatio config)
        then filterPeersByCategory rt pool filteredPeersByResponseRate CONNECT_TIME
               (longevityProtectionRatio config) true
        else filteredPeersByResponseRate in
      Ok filteredPeersByConnectTime).

(** The id of the session behind a reference, for the reason of an eviction. *)
Definition id_of (pool : PeerPool) (ref : nat) : string :=
  match heap pool !! ref with
  | Some p => PeerSession.id p
  | None => ""
  end.

Definition _evictPeer (rt : Runtime) (kind : string) (pool : PeerPool)
  : PeerPool * completion unit :=
  let peers := getPeers (Some kind) pool in
  if (length peers <? 1)%nat then (pool, Ok tt)
  else if String.eqb kind PEER_KIND_OUTBOUND then
    match filterM (not_listed pool (fixedPeers (_peerLists pool))) peers with
    | Throw e => (pool, Throw e)
    | Ok candidates =>
        match shuffle rt candidates with
        | selectedPeer :: _ =>
            (fst (removeOutboundPeer (id_of pool selectedPeer) (Some EVICTED_PEER_CODE)
                    (ReasonText ("Evicted outbound peer " +:+ id_of pool selectedPeer)) pool),
             Ok tt)
        | [] => (pool, Ok tt)
        end
    end
  else if String.eqb kind PEER_KIND_INBOUND then
    match _selectPeersForEviction rt pool with
    | Throw e => (pool, Throw e)
    | Ok evictionCandidates =>
        match shuffle rt evictionCandidates with
        | peerToEvict :: _ =>
            (fst (removeInboundPeer (id_of pool peerToEvict) (Some EVICTED_PEER_CODE)
                    (ReasonText ("Evicted inbound peer " +:+ id_of pool peerToEvict)) pool),
             Ok tt)
        | [] => (pool, Ok tt)
        end
    end
  else (pool, Ok tt).

(** *** Adding a session; [now] is [Date.now()] *)

(** [Object.keys(v).length]. *)
Definition keys_length (v : JSValue) : Z :=
  match v with
  | JObj props => Z.of_nat (length props)
  | JArr items => Z.of_nat (length items)
  | JStr s => Z.of_nat (String.length s)
  | _ => 0
  end.

(** A new session object gets the next free reference. *)
Definition allocate (peer : Peer) (pool : PeerPool) : nat * PeerPool :=
  (length (heap pool), pool_set_heap (heap pool ++ [peer]) pool).

Definition addInboundPeer (rt : Runtime) (now : Z) (peerInfo : P2PPeerInfo) (socket : Socket)
    (pool : PeerPool) : PeerPool * completion nat :=
  let moduleCount :=
    if truthy (_nodeInfo pool) && truthy (get (_nodeInfo pool) "modules")
    then keys_length (get (_nodeInfo pool) "modules") + 1
    else 1 in
  let inboundPeers := getPeers (Some PEER_KIND_INBOUND) pool in
  let '(pool1, evicted) :=
    if _maxInboundConnections pool * moduleCount <=? Z.of_nat (length inboundPeers)
    then _evictPeer rt PEER_KIND_INBOUND pool
    else (pool, Ok tt) in
  match evicted with
  | Throw e => (pool1, Throw e)
  | Ok _ =>
      match new_InboundPeer now peerInfo socket (_peerConfig pool1) with
      | Throw e => (pool1, Throw e)
      | Ok peer =>
          let '(ref, pool2) := allocate peer pool1 in
          if bool_decide (is_Some (_inboundPeerMap pool2 !! PeerSession.id peer)) then
            (pool2, Throw (Error ("Peer " +:+ PeerSession.id peer +:+
                                  " was already in the peer pool")))
          else
            let pool3 :=
              pool_set_inboundPeerMap (<[PeerSession.id peer := ref]> (_inboundPeerMap pool2))
                pool2 in
            let pool4 := update_peer ref _bindHandlersToPeer pool3 in
            let pool5 :=
              if truthy (_nodeInfo pool4)
              then update_peer ref (_applyNodeInfoOnPeer (_nodeInfo pool4)) pool4
              else pool4 in
            (pool5, Ok ref)
      end
  end.

Definition addOutboundPeer (now : Z) (peerId : string) (peerInfo : P2PPeerInfo)
    (pool : PeerPool) : PeerPool * completion nat :=
  match _outboundPeerMap pool !! peerId with
  | Some existingPeer => (pool, Ok existingPeer)
  | None =>
      match new_OutboundPeer now peerInfo (_peerConfig pool) with
      | Throw e => (pool, Throw e)
      | Ok peer =>
          let '(ref, pool1) := allocate peer pool in
          let pool2 :=
            pool_set_outboundPeerMap (<[PeerSession.id peer := ref]> (_outboundPeerMap pool1))
              pool1 in
          let pool3 := update_peer ref _bindHandlersToPeer pool2 in
          let pool4 :=
            if truthy (_nodeInfo pool3)
            then update_peer ref (_applyNodeInfoOnPeer (_nodeInfo pool3)) pool3
            else pool3 in
          (pool4, Ok ref)
      end
  end.

(** [applyNodeInfo] of the pool, up to the first [await] of each call. *)
Definition applyNodeInfo (nodeInfo : JSValue) (pool : PeerPool) : PeerPool :=
  let pool1 := pool_set_nodeInfo nodeInfo pool in
  fold_left (fun acc ref => update_peer ref (_applyNodeInfoOnPeer nodeInfo) acc)
            (getPeers None pool1) pool1.

(** *** Runs of the pool

    The operations that add and remove sessions, the eviction (the shuffle
    timer runs it for the outbound kind), and what happens to the sessions
    themselves while they are held by the pool. *)

(** What a session held by the pool may do or undergo. The events it emits
    are logged on the session; their relay to the pool by the listeners of
    [_bindHandlersToPeer] is not part of a run. *)
Inductive SessionOp : Type :=
| session_applyPenalty (penalty : Z)
| session_counterResetTick
| session_productivityResetTick (now : Z)
| session_handleWSMessage
| session_request (now : Z) (packet : RequestPacket) (outcome : InvokeOutcome)
| session_send (packet : MessagePacket)
| session_connect
| session_disconnect (code : option StatusCode) (reason : Reason).

Definition run_session (op : SessionOp) (p : Peer) : Peer :=
  match op with
  | session_applyPenalty penalty => applyPenalty penalty p
  | session_counterResetTick => counterResetTick p
  | session_productivityResetTick now => productivityResetTick now p
  | session_handleWSMessage => _handleWSMessage p
  | session_request now packet outcome => fst (request now packet outcome p)
  | session_send packet => fst (send packet p)
  | session_connect => fst (connect p)
  | session_disconnect code reason => disconnect code reason p
  end.

Inductive PoolOp : Type :=
| pool_addInboundPeer (now : Z) (peerInfo : P2PPeerInfo) (socket : Socket)
| pool_addOutboundPeer (now : Z) (peerId : string) (peerInfo : P2PPeerInfo)
| pool_removeInboundPeer (peerId : string) (code : option StatusCode) (reason : Reason)
| pool_removeOutboundPeer (peerId : string) (code : option StatusCode) (reason : Reason)
| pool_evictPeer (kind : string)
| pool_applyNodeInfo (nodeInfo : JSValue)
| pool_session (ref : nat) (op : SessionOp).

Definition run_op (rt : Runtime) (op : PoolOp) (pool : PeerPool) : PeerPool :=
  match op with
  | pool_addInboundPeer now peerInfo socket => fst (addInboundPeer rt now peerInfo socket pool)
  | pool_addOutboundPeer now peerId peerInfo => fst (addOutboundPeer now peerId peerInfo pool)
  | pool_removeInboundPeer peerId code reason => fst (removeInboundPeer peerId code reason pool)
  | pool_removeOutboundPeer peerId code reason => fst (removeOutboundPeer peerId code reason pool)
  | pool_evictPeer kind => fst (_evictPeer rt kind pool)
  | pool_applyNodeInfo nodeInfo => applyNodeInfo nodeInfo pool
  | pool_session ref op => update_peer ref (run_session op) pool
  end.

Definition run (rt : Runtime) (ops : list PoolOp) (pool : PeerPool) : PeerPool :=
  fold_left (fun acc op => run_op rt op acc) ops pool.

(** A runtime to run examples with: the shuffle that leaves its argument as
    it is, and an insertion sort. *)
Fixpoint insert_sorted (cmp : nat -> nat -> Z) (x : nat) (l : list nat) : list nat :=
  match l with
  | [] => [x]
  | y :: l' => if cmp x y <=? 0 then x :: l else y :: insert_sorted cmp x l'
  end.

Definition exampleRuntime : Runtime := {|
  shuffle := fun l => l;
  sort := fun cmp l => fold_right (insert_sorted cmp) [] l
|}.

End Pool.

(** ** Vocabulary of the properties *)

Module Observe.
Import JS Value Utils Rate PeerSession.

(** How many events of one name a log holds. *)
Definition count_event (name : EventName) (log : list (EventName * string)) : nat :=
  length (filter (fun e => e.1 = name) log).

(** The [disconnect] calls that the socket of a session received, in order. *)
Definition disconnect_calls (p : Peer) : list (StatusCode * Reason) :=
  match _socket p with
  | Some socket =>
      omap (fun c =>
              match c with
              | call_disconnect code reason => Some (code, reason)
              | _ => None
              end) (calls socket)
  | None => []
  end.

(** A run of [applyPenalty] calls on one session. *)
Definition applyPenalties (penalties : list Z) (p : Peer) : Peer :=
  fold_left (fun acc penalty => applyPenalty penalty acc) penalties p.

(** The number of calls of such a run that leave the reputation at or
    below 0, from the reputation the run starts with. *)
Fixpoint banning_calls (reputation : Z) (penalties : list Z) : nat :=
  match penalties with
  | [] => 0%nat
  | penalty :: rest =>
      let banned := if reputation - penalty <=? 0 then 1%nat else 0%nat in
      (banned + banning_calls (reputation - penalty) rest)%nat
  end.

(** The equation between the productivity fields that the specification
    states as an invariant. *)
Definition productivity_consistent (pr : Productivity) : Prop :=
  responseRate pr = js_div (responseCounter pr) (Z.max (requestCounter pr) 1).

(** A session as the pool creates it for an inbound connection to
    127.0.0.1:5000, and the configuration it is created with. *)
Definition exampleConfig : PeerConfig := {|
  connectTimeout := 2000;
  ackTimeout := 2000;
  wsMaxMessageRate := 100;
  wsMaxMessageRatePenalty := 10;
  maxPeerDiscoveryResponseLength := 1000;
  rateCalculationInterval := 1000;
  wsMaxPayloadInbound := 3048576;
  wsMaxPayloadOutbound := 3048576;
  maxPeerInfoSize := 20480;
  secret := 123456
|}.

Definition exampleInfo : P2PPeerInfo :=
  {| ipAddress := "127.0.0.1"; wsPort := 5000; height := 0; isPassive := false |}.

Definition exampleSocket : Socket :=
  {| client := false; options := None; sock_state := OPEN; calls := [] |}.

Definition exampleInbound : completion Peer :=
  new_InboundPeer 0 exampleInfo exampleSocket exampleConfig.

Definition examplePacket : RequestPacket := {| procedure := "list"; data := JUndefined |}.

(** A penalty that exhausts the reputation, and one more. *)
Definition examplePenalties : list Z := [100; 10].

(** [P] holds of the value of a completion that did not throw. *)
Definition returns {A : Type} (c : completion A) (P : A -> Prop) : Prop :=
  match c with
  | Ok a => P a
  | Throw _ => False
  end.

End Observe.

Module PoolObserve.
Import JS Value Utils Rate PeerSession Pool Observe.

(** A function on sessions that keeps the class and the id of a session. *)
Definition keeps_identity (f : Peer -> Peer) : Prop :=
  forall p : Peer, class (f p) = class p /\ PeerSession.id (f p) = PeerSession.id p.

(** Every entry of the map [m] refers to a session object of class [cls] that
    is stored under its own id. *)
Definition holds_own (cls : PeerClass) (objects : list Peer) (m : gmap string nat) : Prop :=
  forall (k : string) (ref : nat),
    m !! k = Some ref ->
    exists p : Peer, objects !! ref = Some p /\ class p = cls /\ PeerSession.id p = k.

Definition pool_owns (pool : PeerPool) : Prop :=
  holds_own InboundPeer (heap pool) (_inboundPeerMap pool)
  /\ holds_own OutboundPeer (heap pool) (_outboundPeerMap pool).

Definition examplePeerLists : PeerLists :=
  {| seedPeers := []; fixedPeers := []; whitelisted := []; previousPeers := [] |}.

Definition examplePoolConfig : PeerPoolConfig := {|
  sessionConfig := exampleConfig;
  peerLists := examplePeerLists;
  maxOutboundConnections := 20;
  maxInboundConnections := 100;
  sendPeerLimit := 16;
  outboundShuffleInterval := 300000;
  peerBanTime := 86400;
  latencyProtectionRatio := 0.068;
  productivityProtectionRatio := 0.034;
  longevityProtectionRatio := 0.5
|}.

Definition examplePool : PeerPool := new_PeerPool examplePoolConfig.

(** The id of [exampleInfo]. *)
Definition exampleId : string := "127.0.0.1:5000".

(** The pool after an outbound and an inbound session to the same address
    were added. *)
Definition exampleBothKinds : PeerPool :=
  run exampleRuntime
    [pool_addOutboundPeer 0 exampleId exampleInfo;
     pool_addInboundPeer 1 exampleInfo exampleSocket]
    examplePool.

(** The listeners that [_bindHandlersToPeer] registers and
    [_unbindHandlersFromPeer] does not remove. *)
Definition leftover_listeners : list (EventName * Handler) :=
  [(EVENT_OUTBOUND_SOCKET_ERROR, _handlePeerOutboundSocketError);
   (EVENT_INBOUND_SOCKET_ERROR, _handlePeerInboundSocketError)].

End PoolObserve.

Module ValidationObserve.
Import JS Value Validation.




Definition exampleRawPeerInfo : JSValue :=
  JObj [("ip", JStr "1.2.3.4"); ("wsPort", JNum 5000); ("version", JStr "1.0.0");
        ("height", JStr "12"); ("options", JObj []); ("os", JStr "linux")].

End ValidationObserve.

Module UtilsObserve.
Import JS Net Utils.

(** [normalizeAddress(normalizeAddress(x).address)]. *)
Definition renormalize (x : string) : completion NormalizedAddress :=
  bind (normalizeAddress x) (fun n => normalizeAddress (address n)).

(** An IPv6 address whose last two groups are written as an IPv4 address
    (RFC 4291, section 2.2, form 3), without [::]. *)
Definition embeddedIPv4Address : string := "1:2:3:4:5:6:1.2.3.4".

(** An IPv6 address of seven groups followed by [::]. *)
Definition eightColonAddress : string := "1:2:3:4:5:6:7::".

Definition bucketOptionsFor (address : string) : BucketOptions :=
  {| secret := 123456; targetAddress := address; peerType := NEW_PEER; bucketCount := 128 |}.

End UtilsObserve.

(** ** Further functions of the sources *)

(** ** [src/utils.js]: the parts of a peer id *)

Module PeerIds.
Import JS Net Utils.

(** The text before the first occurrence of [c], or all of [s]. *)
Fixpoint before_first (c : ascii) (s : string) : string :=
  match s with
  | EmptyString => EmptyString
  | String a s' => if Ascii.eqb a c then EmptyString else String a (before_first c s')
  end.

(** The text before and after the last occurrence of [c]. *)
Fixpoint split_last (c : ascii) (s : string) : option (string * string) :=
  match s with
  | EmptyString => None
  | String a s' =>
      match split_last c s' with
      | Some (l, r) => Some (String a l, r)
      | None => if Ascii.eqb a c then Some (EmptyString, s') else None
      end
  end.

Definition contains_char (c : ascii) (s : string) : bool :=
  existsb (Ascii.eqb c) (list_ascii_of_string s).

(** The group of the first match of [IPV6_PEER_HOST_REGEX]: an opening
    bracket, a group of any number of characters other than an opening
    bracket, a closing bracket. At the leftmost opening bracket that works, the
    group takes the longest run of such characters that a closing bracket
    follows: the run up to its last closing bracket. *)
Fixpoint IPV6_PEER_HOST_match (peerId : string) : option string :=
  match peerId with
  | EmptyString => None
  | String a rest =>
      if Ascii.eqb a "[" then
        match split_last "]" (before_first "[" rest) with
        | Some (host, _) => Some host
        | None => IPV6_PEER_HOST_match rest
        end
      else IPV6_PEER_HOST_match rest
  end.

(** The group of the first match of [IPV6_PEER_PORT_REGEX]: an opening
    bracket, any number of characters other than an opening bracket, a closing
    bracket, a colon, a group of any number of characters other than a colon,
    the end of the text. The group holds no colon and runs to the end, so it
    starts after the last colon of the text; a closing bracket stands before
    that colon, and no opening bracket stands between the opening bracket of
    the match and it. *)
Fixpoint IPV6_PEER_PORT_match (peerId : string) : option string :=
  match peerId with
  | EmptyString => None
  | String a rest =>
      if Ascii.eqb a "[" then
        match split_last ":" rest with
        | Some (inner, port) =>
            match split_last "]" inner with
            | Some (_, EmptyString) =>
                if contains_char "[" inner then IPV6_PEER_PORT_match rest else Some port
            | _ => IPV6_PEER_PORT_match rest
            end
        | None => None
        end
      else IPV6_PEER_PORT_match rest
  end.

Definition getHostFromPeerId (peerId : string) : completion string :=
  match IPV6_PEER_HOST_match peerId with
  | Some (String c host as peerIPV6Host) =>
      bind (normalizeAddress peerIPV6Host) (fun n => Ok (address n))
  | _ => Ok (nth 0 (split ":" peerId) "")
  end.

(** [None] is NaN; a missing part reads as [undefined]. *)
Definition getPortFromPeerId (peerId : string) : option Z :=
  match IPV6_PEER_PORT_match peerId with
  | Some (String c port as peerIPV6Port) => parseInt peerIPV6Port None
  | _ =>
      match nth_error (split ":" peerId) 1 with
      | Some part => parseInt part None
      | None => parseInt "undefined" None
      end
  end.

(** The text of a number in a template literal. *)
Definition port_text (port : option Z) : string :=
  match port with
  | Some z => number_to_string z
  | None => "NaN"
  end.

Definition normalizePeerId (peerId : string) : completion string :=
  bind (getHostFromPeerId peerId) (fun host =>
  let port := getPortFromPeerId peerId in
  if isIPv4 host then Ok (host +:+ ":" +:+ port_text port)
  else Ok ("[" +:+ host +:+ "]:" +:+ port_text port)).

End PeerIds.

Module UtilsExamples.
(** A stand-in for the hash function in examples: 32 zero bytes. *)
Definition zeroHash (data : list byte) : list byte := List.repeat Byte.x00 32.
End UtilsExamples.

Module TextObserve.
Import JS.

(** A text whose characters are all accepted by [p] holds no character that
    [p] refuses. *)
Definition free_of (c : ascii) (s : string) : Prop :=
  forallb (fun a => negb (Ascii.eqb a c)) (list_ascii_of_string s) = true.

(** An IPv4 address is made of digits and dots. *)
Definition digit_or_dot (c : ascii) : bool := is_digit c || Ascii.eqb c ".".

Definition digit_or_minus (c : ascii) : bool := is_digit c || Ascii.eqb c "-".

(** [Number.MAX_SAFE_INTEGER], [2^53 - 1]: up to it every integer is a double,
    and JavaScript prints and parses it digit by digit. *)
Definition MAX_SAFE_INTEGER : Z := 9007199254740991.

End TextObserve.

(** ** [src/validation.js]: sanitization and lists of peer infos *)

Module Sanitization.
Import JS Value Utils Validation Pool.

(** The own enumerable properties of a value, as a rest pattern and a spread
    read them: the properties of an object, the elements of an array under
    their indices, the characters of a string under theirs. *)
Definition enumerable_props (v : JSValue) : list (string * JSValue) :=
  match v with
  | JObj props => props
  | JArr items => imap (fun i item => (number_to_string (Z.of_nat i), item)) items
  | JStr s =>
      imap (fun i c => (number_to_string (Z.of_nat i), JStr (String c EmptyString)))
        (list_ascii_of_string s)
  | _ => []
  end.

(** [{ ...into, ...props }]: the properties of [props] are set one after the
    other. *)
Definition spread (props into : list (string * JSValue)) : list (string * JSValue) :=
  fold_left (fun acc kv => set_prop (fst kv) (snd kv) acc) props into.

(** [const { k, ...rest } = v; return { k': k, ...rest }]. A pattern cannot
    take [undefined] or [null] apart. *)
Definition rename_prop (k k' : string) (v : JSValue) : completion JSValue :=
  match v with
  | JUndefined | JNull => Throw (TypeError "Cannot destructure the value")
  | _ => Ok (JObj (spread (remove_prop k (enumerable_props v)) [(k', get v k)]))
  end.

Definition incomingPeerInfoSanitization (peerInfo : JSValue) : completion JSValue :=
  rename_prop "ip" "ipAddress" peerInfo.

Definition outgoingPeerInfoSanitization (peerInfo : JSValue) : completion JSValue :=
  rename_prop "ipAddress" "ip" peerInfo.

Section WithLibrary.
Variable lib : Library.

Definition validatePeersInfoList (rawBasicPeerInfoList : JSValue)
    (maxPeerInfoListLength maxPeerInfoByteSize : Z) : completion (list JSValue) :=
  if negb (truthy rawBasicPeerInfoList) then
    Throw (InvalidRPCResponseError "Invalid response type")
  else
    match get rawBasicPeerInfoList "peers" with
    | JArr peers =>
        if maxPeerInfoListLength <? Z.of_nat (length peers) then
          Throw (InvalidRPCResponseError "PeerInfo list was too long")
        else
          bind (filterM (fun peerInfo =>
                           bind (getByteSize peerInfo) (fun size =>
                           Ok (size <? maxPeerInfoByteSize))) peers) (fun cleanPeerList =>
          mapM (validatePeerInfoSchema lib) cleanPeerList)
    | _ => Throw (InvalidRPCResponseError "Invalid response type")
    end.

End WithLibrary.

Definition sanitizePeerInfo (peerInfo : P2PPeerInfo) : completion P2PPeerInfo :=
  bind (normalizeAddress (ipAddress peerInfo)) (fun n =>
  Ok {| ipAddress := address n;
        wsPort := wsPort peerInfo;
        height := height peerInfo;
        isPassive := isPassive peerInfo |}).

(** The lists of the configuration, with the blacklist. *)
Record ConfiguredPeerLists : Type := {
  blacklistedIPs : list string;
  configured : PeerLists
}.

Definition includes (l : list string) (x : string) : bool := existsb (String.eqb x) l.

(** [list.map(sanitizePeerInfo).filter(...)] for the filter that drops the
    blacklisted addresses. *)
Definition sanitized_not_blacklisted (blacklist : list string) (l : list P2PPeerInfo)
  : completion (list P2PPeerInfo) :=
  bind (mapM sanitizePeerInfo l) (fun sanitized =>
  Ok (List.filter (fun peerInfo => negb (includes blacklist (ipAddress peerInfo))) sanitized)).

(** [others.map(getPeerIdFromPeerInfo).includes(getPeerIdFromPeerInfo(peerInfo))]. *)
Definition id_among (others : list P2PPeerInfo) (peerInfo : P2PPeerInfo) : completion bool :=
  bind (mapM getPeerIdFromPeerInfo others) (fun ids =>
  bind (getPeerIdFromPeerInfo peerInfo) (fun peerId =>
  Ok (includes ids peerId))).

Definition sanitizePeerLists (lists : ConfiguredPeerLists) (nodeInfo : JSValue)
  : completion PeerLists :=
  let blacklist := blacklistedIPs lists in
  bind (sanitized_not_blacklisted blacklist (seedPeers (configured lists))) (fun seed =>
  bind (sanitized_not_blacklisted blacklist (fixedPeers (configured lists))) (fun fixed =>
  bind (mapM sanitizePeerInfo (whitelisted (configured lists))) (fun sanitized =>
  bind (filterM (fun peerInfo =>
                   if includes blacklist (ipAddress peerInfo) then Ok false
                   else
                     bind (id_among fixed peerInfo) (fun amongFixed =>
                     if amongFixed then Ok false
                     else
                       bind (id_among seed peerInfo) (fun amongSeed =>
                       if amongSeed then Ok false else Ok true)))
                sanitized) (fun white =>
  bind (sanitized_not_blacklisted blacklist (previousPeers (configured lists))) (fun previous =>
  Ok {| seedPeers := seed;
        fixedPeers := fixed;
        whitelisted := white;
        previousPeers := previous |}))))).

End Sanitization.


Module SanitizationObserve.
Import JS Value Utils Validation ValidationObserve Pool Sanitization.

(** A response to a peer list request: a valid peer info and one whose JSON
    text is longer than 200 bytes. *)
Definition exampleResponse : JSValue :=
  JObj [("peers",
         JArr [exampleRawPeerInfo;
               JObj [("ip", JStr "1.2.3.5"); ("wsPort", JNum 5000); ("version", JStr "1.0.0");
                     ("os", JStr (repeat_nat "x" 200))]])].

Definition exampleValidated : list JSValue :=
  Eval vm_compute in
    match validatePeersInfoList exampleLibrary exampleResponse 10 200 with
    | Ok result => result
    | Throw _ => []
    end.

(** A response whose second entry is not a peer info. *)
Definition exampleBadResponse : JSValue :=
  JObj [("peers", JArr [exampleRawPeerInfo; JNull])].

(** [output] holds only sanitized entries of [input]. *)
Definition sanitized_from (input output : list P2PPeerInfo) : Prop :=
  forall p : P2PPeerInfo,
    In p output -> exists q : P2PPeerInfo, In q input /\ sanitizePeerInfo q = Ok p.

Definition exampleConfiguredLists : ConfiguredPeerLists := {|
  blacklistedIPs := ["10.0.0.9"];
  configured := {|
    seedPeers := [{| ipAddress := "10.0.0.1"; wsPort := 5000; height := 0; isPassive := false |};
                  {| ipAddress := "10.0.0.9"; wsPort := 5000; height := 0; isPassive := false |}];
    fixedPeers := [{| ipAddress := "::1"; wsPort := 5001; height := 0; isPassive := false |}];
    whitelisted := [{| ipAddress := "10.0.0.1"; wsPort := 5000; height := 0; isPassive := false |};
                    {| ipAddress := "10.0.0.2"; wsPort := 5000; height := 0; isPassive := false |}];
    previousPeers := []
  |}
|}.

Definition exampleSanitizedLists : PeerLists :=
  Eval vm_compute in
    match sanitizePeerLists exampleConfiguredLists JUndefined with
    | Ok lists => lists
    | Throw _ => configured exampleConfiguredLists
    end.

End SanitizationObserve.

(** ** [src/errors.js]: the other error classes *)

Module Errors.
Import JS.

(** The classes that the functions below throw beside the ones of
    [JS.JSError]; [Raised] carries an error of that table. *)
Inductive P2PError : Type :=
| InvalidRPCRequestError (message : string)
| InvalidProtocolMessageError (message : string)
| RequestFailError (message : string)
| SendFailError (message : string)
| Raised (error : JSError).

Inductive result (A : Type) : Type :=
| Return (value : A)
| Raise (error : P2PError).
Arguments Return {A} value.
Arguments Raise {A} error.

Definition lift {A : Type} (c : completion A) : result A :=
  match c with
  | Ok a => Return a
  | Throw e => Raise (Raised e)
  end.

End Errors.

(** ** Doubles

    The rate of a message is the product of a quotient and a constant, two
    roundings. The IEEE 754 binary64 operations are those of the Standard
    Library's [SpecFloat], rounding to nearest with ties to even. A quotient
    of [Rate.JSNum] stands for the double nearest to it, which is what the
    division of two integers of the safe range returns. *)

Module Double.
Import SpecFloat Rate.

Definition prec : Z := 53.
Definition emax : Z := 1024.

(** An integer as a mantissa with the exponent 0. *)
Definition integer (z : Z) : spec_float :=
  match z with
  | Z0 => S754_zero false
  | Zpos m => S754_finite false m 0
  | Zneg m => S754_finite true m 0
  end.

(** The double nearest to an integer. *)
Definition double_of_Z (z : Z) : spec_float := binary_normalize prec emax z 0 false.

(** The double nearest to a quotient: the division of its numerator by its
    denominator, rounded once. *)
Definition double_of_Q (q : Q) : spec_float :=
  SFdiv prec emax (integer (Qnum q)) (integer (Zpos (Qden q))).

Definition to_double (x : JSNum) : spec_float :=
  match x with
  | Finite q => double_of_Q q
  | PosInfinity => S754_infinity false
  | NegInfinity => S754_infinity true
  | NotANumber => S754_nan
  end.

(** The value of a double, [m * 2^e], in lowest terms. *)
Definition of_double (x : spec_float) : JSNum :=
  match x with
  | S754_zero _ => Finite 0
  | S754_infinity false => PosInfinity
  | S754_infinity true => NegInfinity
  | S754_nan => NotANumber
  | S754_finite s m e =>
      let n := cond_Zopp s (Z.pos m) in
      Finite (if 0 <=? e then inject_Z (n * 2 ^ e) else Qred (n # Z.to_pos (2 ^ (- e))))
  end.

End Double.

(** ** [src/validation.js] and [src/peer/base.js]: incoming messages *)

Module Incoming.
Import JS Value Utils Rate PeerSession Errors Double.



(** [x * k] for an integer [k]: the product of the two doubles, rounded to a
    double. *)
Definition js_mul (x : JSNum) (k : Z) : JSNum :=
  of_double (SpecFloat.SFmul prec emax (to_double x) (double_of_Z k)).






End Incoming.

Module IncomingObserve.
Import JS Value Utils Rate PeerSession Errors Incoming.




End IncomingObserve.

(** ** [src/peer_pool.js]: traffic, new connections and the removal of all
    sessions *)

Module PoolTraffic.
Import JS Value Utils Rate PeerSession Pool Errors.

(** A method call on the session behind a reference held by a map; such a
    reference is in the heap. *)
Definition call_peer {A : Type} (ref : nat) (f : Peer -> Peer * completion A) (none : A)
    (pool : PeerPool) : PeerPool * completion A :=
  match heap pool !! ref with
  | Some p => (update_peer ref (fun p => fst (f p)) pool, snd (f p))
  | None => (pool, Ok none)
  end.

Definition sendToPeer (message : MessagePacket) (peerId : string) (pool : PeerPool)
  : PeerPool * result unit :=
  match getPeer peerId pool with
  | None =>
      (pool, Raise (SendFailError ("Send failed because a peer with id " +:+ peerId +:+
                                   " could not be found")))
  | Some peer =>
      let '(pool1, sent) := call_peer peer (send message) tt pool in (pool1, lift sent)
  end.

(** The peer infos that the selection functions are given: the peer info of
    a session with its [kind]. *)
Definition listOfPeerInfo (pool : PeerPool) : list (P2PPeerInfo * option string) :=
  omap (fun ref =>
          match heap pool !! ref with
          | Some p => Some (_peerInfo p, kind p)
          | None => None
          end)
       (map_values (_outboundPeerMap pool) ++ map_values (_inboundPeerMap pool)).

(** The input of [peerSelectionForSend]. *)
Record SendSelectionInput : Type := {
  send_peers : list (P2PPeerInfo * option string);
  send_nodeInfo : JSValue;
  send_peerLimit : Z;
  messagePacket : MessagePacket
}.

(** The input of [peerSelectionForConnection]. A connected peer info carries
    the kind [outbound]. *)
Record ConnectionSelectionInput : Type := {
  connection_nodeInfo : JSValue;
  disconnectedNewPeers : list P2PPeerInfo;
  disconnectedTriedPeers : list P2PPeerInfo;
  connectedNewPeers : list (string * P2PPeerInfo);
  connectedTriedPeers : list (string * P2PPeerInfo);
  outboundPeerCount : nat;
  inboundPeerCount : nat;
  maxOutboundPeerCount : Z;
  maxInboundPeerCount : Z
}.

(** The text of an error, for the payload of an event. *)
Definition error_text (e : P2PError) : string :=
  match e with
  | InvalidRPCRequestError m | InvalidProtocolMessageError m
  | RequestFailError m | SendFailError m => m
  | Raised (RangeError m) | Raised (TypeError m) | Raised (Error m)
  | Raised (InvalidPeerError m) | Raised (InvalidRPCResponseError m) => m
  | Raised (RPCResponseError m peerId) | Raised (RPCTimeoutError m peerId) =>
      "[Peer " +:+ peerId +:+ "] " +:+ m
  end.

(** The [forEach] of [send]: a peer that cannot be sent to is reported by
    an event and the next one is tried; a peer info without an id ends the
    loop with its error. *)
Definition send_all (packet : MessagePacket) (selectedPeers : list P2PPeerInfo)
    (start : PeerPool * completion unit) : PeerPool * completion unit :=
  fold_left (fun (acc : PeerPool * completion unit) peerInfo =>
               match acc with
               | (pool1, Throw e) => (pool1, Throw e)
               | (pool1, Ok _) =>
                   match getPeerIdFromPeerInfo peerInfo with
                   | Throw e => (pool1, Throw e)
                   | Ok selectedPeerId =>
                       match sendToPeer packet selectedPeerId pool1 with
                       | (pool2, Return _) => (pool2, Ok tt)
                       | (pool2, Raise error) =>
                           (pool_emit EVENT_FAILED_TO_SEND_MESSAGE (error_text error) pool2,
                            Ok tt)
                       end
                   end
               end)
            selectedPeers start.

(** The [forEach] of [triggerNewConnections]: the sessions of the peer infos
    are added one after the other; [clock i] is [Date.now()] at the
    construction of the session of the [i]-th one. *)
Definition connect_all (clock : nat -> Z) (entries : list (nat * P2PPeerInfo))
    (start : PeerPool * completion unit) : PeerPool * completion unit :=
  fold_left (fun (acc : PeerPool * completion unit) (entry : nat * P2PPeerInfo) =>
               match acc with
               | (pool1, Throw e) => (pool1, Throw e)
               | (pool1, Ok _) =>
                   match getPeerIdFromPeerInfo (snd entry) with
                   | Throw e => (pool1, Throw e)
                   | Ok peerId =>
                       match addOutboundPeer (clock (fst entry)) peerId (snd entry) pool1 with
                       | (pool2, Throw e) => (pool2, Throw e)
                       | (pool2, Ok _) => (pool2, Ok tt)
                       end
                   end
               end) entries start.

Section Selection.
(** The selection functions are options of the pool. *)
Variable peerSelectForSend : SendSelectionInput -> list P2PPeerInfo.
Variable peerSelectForConnection : ConnectionSelectionInput -> list P2PPeerInfo.

(** [send(packet, peerLimit)]; [None] is a limit that is [undefined] or
    [null]. A peer that cannot be sent to is reported by an event. *)
Definition send (packet : MessagePacket) (peerLimit : option Z) (pool : PeerPool)
  : PeerPool * completion unit :=
  let peers := listOfPeerInfo pool in
  let limit :=
    match peerLimit with
    | None => sendPeerLimit (_peerPoolConfig pool)
    | Some l => if l =? -1 then Z.of_nat (length peers) else l
    end in
  let selectedPeers :=
    peerSelectForSend
      {| send_peers := peers; send_nodeInfo := _nodeInfo pool;
         send_peerLimit := limit; messagePacket := packet |} in
  send_all packet selectedPeers (pool, Ok tt).

Definition has_outbound (pool : PeerPool) (peerInfo : P2PPeerInfo) : completion bool :=
  bind (getPeerIdFromPeerInfo peerInfo) (fun peerId =>
  Ok (bool_decide (is_Some (_outboundPeerMap pool !! peerId)))).

(** [triggerNewConnections]; [clock] gives the times of [connect_all]. *)
Definition triggerNewConnections (clock : nat -> Z)
    (newPeers triedPeers fixedPeers : list P2PPeerInfo) (pool : PeerPool)
  : PeerPool * completion unit :=
  let fixedAddresses := map ipAddress fixedPeers in
  let disconnected peerInfo :=
    bind (has_outbound pool peerInfo) (fun connected =>
    Ok (negb connected &&
        negb (bool_decide (ipAddress peerInfo ∈ fixedAddresses)))) in
  let connected l :=
    bind (filterM (has_outbound pool) l) (fun l' =>
    Ok (map (fun peerInfo => (PEER_KIND_OUTBOUND, peerInfo)) l')) in
  let selection :=
    bind (filterM disconnected newPeers) (fun disconnectedNew =>
    bind (filterM disconnected triedPeers) (fun disconnectedTried =>
    bind (connected newPeers) (fun connectedNew =>
    bind (connected triedPeers) (fun connectedTried =>
    let '(outboundCount, inboundCount) := getPeersCountPerKind pool in
    bind (filterM (fun peerInfo =>
                     bind (has_outbound pool peerInfo) (fun c => Ok (negb c)))
                  fixedPeers) (fun disconnectedFixedPeers =>
    let peersToConnect :=
      peerSelectForConnection
        {| connection_nodeInfo := _nodeInfo pool;
           disconnectedNewPeers := disconnectedNew;
           disconnectedTriedPeers := disconnectedTried;
           connectedNewPeers := connectedNew;
           connectedTriedPeers := connectedTried;
           outboundPeerCount := outboundCount;
           inboundPeerCount := inboundCount;
           maxOutboundPeerCount := _maxOutboundConnections pool;
           maxInboundPeerCount := _maxInboundConnections pool |} in
    Ok (peersToConnect ++ disconnectedFixedPeers)))))) in
  match selection with
  | Throw e => (pool, Throw e)
  | Ok peers =>
      connect_all clock (imap (fun i peerInfo => (i, peerInfo)) peers) (pool, Ok tt)
  end.

End Selection.

(** [map.forEach(callback)] for a callback that may delete entries of the
    map: an entry that was deleted before its turn is not visited. *)
Definition for_each_entry (map_of : PeerPool -> gmap string nat)
    (callback : nat -> PeerPool -> PeerPool) (pool : PeerPool) : PeerPool :=
  fold_left (fun acc (entry : string * nat) =>
               if bool_decide (map_of acc !! fst entry = Some (snd entry))
               then callback (snd entry) acc
               else acc)
            (map_to_list (map_of pool)) pool.

Definition removeAllPeers (pool : PeerPool) : PeerPool :=
  let pool1 :=
    if _outboundShuffleIntervalId pool then pool_set_outboundShuffleIntervalId false pool
    else pool in
  let pool2 :=
    for_each_entry _outboundPeerMap
      (fun peer acc =>
         fst (removeOutboundPeer (id_of acc peer)
                (Some (StatusNumber INTENTIONAL_DISCONNECT_STATUS_CODE))
                (ReasonText ("Intentionally removed outbound peer " +:+ id_of acc peer)) acc))
      pool1 in
  for_each_entry _inboundPeerMap
    (fun peer acc =>
       fst (removeInboundPeer (id_of acc peer)
              (Some (StatusNumber INTENTIONAL_DISCONNECT_STATUS_CODE))
              (ReasonText ("Intentionally removed inbound peer " +:+ id_of acc peer)) acc))
    pool2.

End PoolTraffic.

Module PoolTrafficObserve.
Import JS Value Utils Rate PeerSession Pool PoolTraffic.

(** Every session of [before] is in [after] at the same place, as it was or
    inactive. *)
Definition settled (before after : list Peer) : Prop :=
  forall (ref : nat) (p : Peer),
    before !! ref = Some p ->
    exists p' : Peer, after !! ref = Some p' /\ (p' = p \/ _active p' = false).

(** Every entry of a map of the pool is stored under the id of its session. *)
Definition keyed (map_of : PeerPool -> gmap string nat) (acc : PeerPool) : Prop :=
  forall (k : string) (r : nat),
    map_of acc !! k = Some r ->
    exists p : Peer, heap acc !! r = Some p /\ PeerSession.id p = k.

(** A selection for [send] that picks nobody, one for connections that picks
    nobody, and a clock that stands still. *)
Definition selectNone (input : SendSelectionInput) : list P2PPeerInfo := [].
Definition connectNone (input : ConnectionSelectionInput) : list P2PPeerInfo := [].
Definition exampleClock (i : nat) : Z := 0.

(** A selection for [send] that picks a peer the example pools do not hold
    and one they hold. *)
Definition selectStranger (input : SendSelectionInput) : list P2PPeerInfo :=
  [{| ipAddress := "10.9.9.9"; wsPort := 4000; height := 0; isPassive := false |};
   Observe.exampleInfo].

Definition exampleMessagePacket : MessagePacket :=
  {| event := "postBlock"; message_data := JNum 7 |}.

End PoolTrafficObserve.

Module EvictionObserve.
Import JS Value Utils Rate PeerSession Pool.

(** The shuffle and the sort of a runtime return elements of their
    argument, as a permutation does. *)
Definition runtime_selects (rt : Runtime) : Prop :=
  (forall (l : list nat) (x : nat), In x (shuffle rt l) -> In x l)
  /\ (forall (cmp : nat -> nat -> Z) (l : list nat) (x : nat), In x (sort rt cmp l) -> In x l).

(** A pool whose one fixed peer is connected. *)
Definition exampleFixedConfig : PeerPoolConfig := {|
  sessionConfig := Observe.exampleConfig;
  peerLists := {| seedPeers := []; fixedPeers := [Observe.exampleInfo];
                  whitelisted := []; previousPeers := [] |};
  maxOutboundConnections := 20;
  maxInboundConnections := 100;
  sendPeerLimit := 16;
  outboundShuffleInterval := 300000;
  peerBanTime := 86400;
  latencyProtectionRatio := 0.068;
  productivityProtectionRatio := 0.034;
  longevityProtectionRatio := 0.5
|}.

Definition exampleFixedPool : PeerPool :=
  run exampleRuntime [pool_addOutboundPeer 0 PoolObserve.exampleId Observe.exampleInfo]
    (new_PeerPool exampleFixedConfig).

End EvictionObserve.

(** * Properties *)

(** ** The session: reputation and ban *)

Section Reputation.
Import JS Value Utils Rate PeerSession Observe.

Lemma count_event_app (name : EventName) (l1 l2 : list (EventName * string)) :
  count_event name (l1 ++ l2) = (count_event name l1 + count_event name l2)%nat.
Proof.
  unfold count_event. rewrite filter_app, length_app. reflexivity.
Qed.

Lemma Peer_disconnect_emitted (code : option StatusCode) (reason : Reason) (p : Peer) :
  emitted (Peer_disconnect code reason p) = emitted p
  /\ _reputation (Peer_disconnect code reason p) = _reputation p
  /\ _id (Peer_disconnect code reason p) = _id p
  /\ class (Peer_disconnect code reason p) = class p.
Proof.
  unfold Peer_disconnect. destruct p as [cls ? ? ? ? ? act ? ? ? ? ? ? ? ? ? ? ? ? ? ? ? ? sock ? ?].
  simpl. destruct act; simpl; [destruct sock; simpl|]; auto.
Qed.

Lemma disconnect_frame (code : option StatusCode) (reason : Reason) (p : Peer) :
  emitted (disconnect code reason p) = emitted p
  /\ _reputation (disconnect code reason p) = _reputation p
  /\ _id (disconnect code reason p) = _id p
  /\ class (disconnect code reason p) = class p.
Proof.
  unfold disconnect.
  destruct (Peer_disconnect_emitted code reason p) as (He & Hr & Hi & Hc).
  destruct (class p) eqn:Hcls; [tauto| |];
    destruct (_socket (Peer_disconnect code reason p)); simpl; tauto.
Qed.

(** A session that is disconnected is inactive, and closed once it was active:
    the socket, when there is one, is told to disconnect with the given code. *)
Lemma disconnect_closes (code : option StatusCode) (reason : Reason) (p : Peer) :
  _active (disconnect code reason p) = false
  /\ (_active p = true ->
      state (disconnect code reason p) = CLOSED
      /\ disconnect_calls (disconnect code reason p) =
         disconnect_calls p ++
         match _socket p with
         | Some _ => [(default_code code, reason)]
         | None => []
         end).
Proof.
  unfold disconnect, Peer_disconnect, state, disconnect_calls.
  destruct p as [cls ? ? ? ? ? act ? ? ? ? ? ? ? ? ? ? ? ? ? ? ? ? sock ? ?]. simpl.
  destruct cls, act, sock as [s|]; simpl; split; try reflexivity; try discriminate;
    intros _; split; try reflexivity;
    rewrite ?omap_app; simpl; rewrite ?app_nil_r; reflexivity.
Qed.

(** Disconnecting an inactive session leaves it inactive and, if it was closed,
    closed; its socket receives no [disconnect] call. *)
Lemma disconnect_inactive (code : option StatusCode) (reason : Reason) (p : Peer) :
  _active p = false ->
  _active (disconnect code reason p) = false
  /\ state (disconnect code reason p) = state p
  /\ disconnect_calls (disconnect code reason p) = disconnect_calls p.
Proof.
  unfold disconnect, Peer_disconnect, state, disconnect_calls.
  destruct p as [cls ? ? ? ? ? act ? ? ? ? ? ? ? ? ? ? ? ? ? ? ? ? sock ? ?]. simpl.
  intros ->. destruct cls, sock as [s|]; simpl; repeat split;
    rewrite ?omap_app; simpl; rewrite ?app_nil_r; reflexivity.
Qed.

Lemma applyPenalty_reputation (penalty : Z) (p : Peer) :
  _reputation (applyPenalty penalty p) = _reputation p - penalty.
Proof.
  unfold applyPenalty, _banPeer.
  destruct (_reputation (set_reputation _ p) <=? 0) eqn:E.
  - destruct (disconnect_frame (Some FORBIDDEN_CONNECTION) FORBIDDEN_CONNECTION_REASON
                (emit EVENT_BAN_PEER (_id (set_reputation (_reputation p - penalty) p))
                   (set_reputation (_reputation p - penalty) p))) as (_ & Hr & _).
    rewrite Hr. reflexivity.
  - reflexivity.
Qed.

Lemma applyPenalty_emitted (penalty : Z) (p : Peer) :
  emitted (applyPenalty penalty p) =
  emitted p ++ (if _reputation p - penalty <=? 0 then [(EVENT_BAN_PEER, _id p)] else []).
Proof.
  unfold applyPenalty, _banPeer.
  change (_reputation (set_reputation (_reputation p - penalty) p)) with (_reputation p - penalty).
  destruct (_reputation p - penalty <=? 0) eqn:E.
  - destruct (disconnect_frame (Some FORBIDDEN_CONNECTION) FORBIDDEN_CONNECTION_REASON
                (emit EVENT_BAN_PEER (_id (set_reputation (_reputation p - penalty) p))
                   (set_reputation (_reputation p - penalty) p))) as (He & _).
    rewrite He. reflexivity.
  - simpl. rewrite app_nil_r. reflexivity.
Qed.

End Reputation.

Section Ban.
Import JS Value Utils Rate PeerSession Observe.

Lemma applyPenalties_cons (penalty : Z) (penalties : list Z) (p : Peer) :
  applyPenalties (penalty :: penalties) p = applyPenalties penalties (applyPenalty penalty p).
Proof. reflexivity. Qed.

Lemma applyPenalties_events (penalties : list Z) :
  forall p : Peer,
    count_event EVENT_BAN_PEER (emitted (applyPenalties penalties p)) =
    (count_event EVENT_BAN_PEER (emitted p) + banning_calls (_reputation p) penalties)%nat.
Proof.
  induction penalties as [|penalty rest IH]; intros p.
  - simpl. lia.
  - rewrite applyPenalties_cons, IH, applyPenalty_emitted, applyPenalty_reputation.
    rewrite count_event_app. simpl banning_calls.
    destruct (_reputation p - penalty <=? 0); simpl; unfold count_event; simpl; lia.
Qed.

Lemma applyPenalty_inactive (penalty : Z) (p : Peer) :
  _active p = false ->
  _active (applyPenalty penalty p) = false
  /\ state (applyPenalty penalty p) = state p
  /\ disconnect_calls (applyPenalty penalty p) = disconnect_calls p.
Proof.
  intros Hact. unfold applyPenalty, _banPeer.
  destruct (_reputation (set_reputation (_reputation p - penalty) p) <=? 0).
  - set (q := emit EVENT_BAN_PEER _ _).
    assert (Hq : _active q = false) by (subst q; destruct p; exact Hact).
    destruct (disconnect_inactive (Some FORBIDDEN_CONNECTION) FORBIDDEN_CONNECTION_REASON q Hq)
      as (H1 & H2 & H3).
    rewrite H1, H2, H3. subst q. destruct p; auto.
  - destruct p; auto.
Qed.

Lemma applyPenalties_inactive (penalties : list Z) :
  forall p : Peer,
    _active p = false ->
    _active (applyPenalties penalties p) = false
    /\ state (applyPenalties penalties p) = state p
    /\ disconnect_calls (applyPenalties penalties p) = disconnect_calls p.
Proof.
  induction penalties as [|penalty rest IH]; intros p Hact.
  - auto.
  - rewrite applyPenalties_cons.
    destruct (applyPenalty_inactive penalty p Hact) as (H1 & H2 & H3).
    destruct (IH _ H1) as (I1 & I2 & I3).
    rewrite I1, I2, I3, H2, H3. auto.
Qed.

(** The call that brings the reputation of an active session to 0 or below
    disconnects it with [FORBIDDEN_CONNECTION]. *)
Lemma applyPenalty_ban (penalty : Z) (p : Peer) :
  _active p = true ->
  _reputation p - penalty <= 0 ->
  _active (applyPenalty penalty p) = false
  /\ state (applyPenalty penalty p) = CLOSED
  /\ disconnect_calls (applyPenalty penalty p) =
     disconnect_calls p ++
     match _socket p with
     | Some _ => [(FORBIDDEN_CONNECTION, FORBIDDEN_CONNECTION_REASON)]
     | None => []
     end.
Proof.
  intros Hact Hrep. unfold applyPenalty, _banPeer.
  change (_reputation (set_reputation (_reputation p - penalty) p)) with (_reputation p - penalty).
  destruct (Z.leb_spec (_reputation p - penalty) 0) as [_|Hlt]; [|lia].
  set (q := emit EVENT_BAN_PEER _ _).
  assert (Hq : _active q = true) by (subst q; destruct p; exact Hact).
  destruct (disconnect_closes (Some FORBIDDEN_CONNECTION) FORBIDDEN_CONNECTION_REASON q)
    as (H1 & H2).
  destruct (H2 Hq) as (H3 & H4).
  rewrite H1, H3, H4. subst q. destruct p; auto.
Qed.

Lemma applyPenalty_no_ban (penalty : Z) (p : Peer) :
  0 < _reputation p - penalty ->
  _active (applyPenalty penalty p) = _active p
  /\ state (applyPenalty penalty p) = state p
  /\ disconnect_calls (applyPenalty penalty p) = disconnect_calls p
  /\ _socket (applyPenalty penalty p) = _socket p.
Proof.
  intros Hrep. unfold applyPenalty.
  change (_reputation (set_reputation (_reputation p - penalty) p)) with (_reputation p - penalty).
  destruct (Z.leb_spec (_reputation p - penalty) 0) as [Hle|_]; [lia|].
  destruct p; auto.
Qed.

(** C1, as amended. On a session that was not disconnected before, a run of
    [applyPenalty] calls emits one [banPeer] event for every call that leaves
    the reputation at or below 0, not one for the whole lifetime: the ban is
    not latched. The first such call disconnects the session with
    [FORBIDDEN_CONNECTION]; the later ones do not disconnect again, and at the
    end of the run the session is inactive and its state is closed. *)
Theorem applyPenalty_bans_on_each_call :
  forall (p : Peer) (penalties : list Z),
    _active p = true ->
    count_event EVENT_BAN_PEER (emitted (applyPenalties penalties p)) =
      (count_event EVENT_BAN_PEER (emitted p) + banning_calls (_reputation p) penalties)%nat
    /\ ((0 < banning_calls (_reputation p) penalties)%nat ->
        _active (applyPenalties penalties p) = false
        /\ state (applyPenalties penalties p) = CLOSED
        /\ disconnect_calls (applyPenalties penalties p) =
           disconnect_calls p ++
           match _socket p with
           | Some _ => [(FORBIDDEN_CONNECTION, FORBIDDEN_CONNECTION_REASON)]
           | None => []
           end).
Proof.
  intros p penalties Hact. split; [apply applyPenalties_events|].
  revert p Hact. induction penalties as [|penalty rest IH]; intros p Hact Hban.
  - simpl in Hban. lia.
  - rewrite applyPenalties_cons. simpl in Hban.
    destruct (Z.leb_spec (_reputation p - penalty) 0) as [Hle|Hgt].
    + destruct (applyPenalty_ban penalty p Hact Hle) as (H1 & H2 & H3).
      destruct (applyPenalties_inactive rest _ H1) as (I1 & I2 & I3).
      rewrite I1, I2, I3, H2, H3. auto.
    + destruct (applyPenalty_no_ban penalty p Hgt) as (H1 & H2 & H3 & H4).
      assert (Hact' : _active (applyPenalty penalty p) = true) by (rewrite H1; exact Hact).
      specialize (IH (applyPenalty penalty p) Hact').
      rewrite applyPenalty_reputation in IH. simpl in Hban.
      destruct (IH Hban) as (I1 & I2 & I3).
      rewrite I1, I2, I3, H3, H4. auto.
Qed.

(** A session that takes a penalty of 100 and then one of 10 emits two
    [banPeer] events. *)
Lemma applyPenalty_bans_twice :
  returns exampleInbound (fun p =>
    _active p = true
    /\ count_event EVENT_BAN_PEER (emitted (applyPenalties examplePenalties p)) = 2%nat
    /\ state (applyPenalties examplePenalties p) = CLOSED).
Proof.
  vm_compute. repeat split; reflexivity.
Qed.

Lemma applyPenalty_bans_on_each_call_witness :
  returns exampleInbound (fun p =>
    count_event EVENT_BAN_PEER (emitted (applyPenalties examplePenalties p)) =
      (count_event EVENT_BAN_PEER (emitted p) + banning_calls (_reputation p) examplePenalties)%nat
    /\ ((0 < banning_calls (_reputation p) examplePenalties)%nat ->
        _active (applyPenalties examplePenalties p) = false
        /\ state (applyPenalties examplePenalties p) = CLOSED
        /\ disconnect_calls (applyPenalties examplePenalties p) =
           disconnect_calls p ++
           match _socket p with
           | Some _ => [(FORBIDDEN_CONNECTION, FORBIDDEN_CONNECTION_REASON)]
           | None => []
           end)).
Proof.
  unfold returns. destruct exampleInbound as [p|e] eqn:E; [|discriminate E].
  apply (applyPenalty_bans_on_each_call p examplePenalties).
  injection E as <-. reflexivity.
Defined.

End Ban.

(** ** The session: outgoing requests *)

Section Requests.
Import JS Value Utils Rate PeerSession Observe.

Lemma js_div_max (a b : Z) : 1 <= b -> js_div a (Z.max b 1) = js_div a b.
Proof. intros H. rewrite Z.max_l by lia. reflexivity. Qed.

(** A request that returns left the response rate equal to the quotient of the
    two counters, on whatever state the session had when the transport
    answered. *)
Lemma request_settle_rate (now : Z) (packet : RequestPacket) (outcome : InvokeOutcome)
    (p p' : Peer) (v : JSValue) :
  request_settle now packet outcome p = (p', Ok v) ->
  responseRate (_productivity p') =
    js_div (responseCounter (_productivity p')) (requestCounter (_productivity p'))
  /\ responseCounter (_productivity p') = responseCounter (_productivity p) + 1
  /\ requestCounter (_productivity p') = requestCounter (_productivity p).
Proof.
  unfold request_settle. destruct outcome as [responseData|name message].
  - destruct (truthy responseData); intros H; inversion H; subst; clear H.
    destruct p; simpl; auto.
  - destruct (String.eqb name "TimeoutError"); intros H; inversion H.
Qed.

Lemma disconnect_productivity (code : option StatusCode) (reason : Reason) (p : Peer) :
  _productivity (disconnect code reason p) = _productivity p.
Proof.
  unfold disconnect, Peer_disconnect.
  destruct p as [cls ? ? ? ? ? act ? ? ? ? ? ? ? ? ? ? ? ? ? ? ? ? sock ? ?]. simpl.
  destruct cls, act, sock; reflexivity.
Qed.

Lemma request_start_of_productivity (packet : RequestPacket) (p : Peer) :
  _productivity (fst (request_start_of packet p)) =
  {| requestCounter := requestCounter (_productivity p) + 1;
     responseCounter := responseCounter (_productivity p);
     responseRate := responseRate (_productivity p);
     lastResponded := lastResponded (_productivity p) |}.
Proof.
  unfold request_start_of, request_start, ensure_outbound_socket.
  destruct p as [cls ? ? ? ? ? act ? ? ? ? ? ? ? ? ? ? ? ? ? ? ? ? sock ? ?]. simpl.
  destruct cls, sock; reflexivity.
Qed.

(** C2, as amended. A request during whose [await] nothing else changes the
    session leaves [responseRate = responseCounter / max(requestCounter, 1)]
    when it returns a response, and when it throws (no socket, timeout,
    transport error, falsy response) it counts the request and leaves
    [responseCounter] and [responseRate] as they were, so the equation is not
    restored by it. On whatever state [q] the session has when the transport
    settles the call: a request that returns sets
    [responseRate = responseCounter / requestCounter] from the counters of
    [q], which is the quotient by [max(requestCounter, 1)] when [q] counts a
    request, and is infinity, against the equation, when the counters of [q]
    are zero, as they are after a reset of the productivity during the
    [await]; a request that throws leaves the productivity of [q]. *)
Theorem request_productivity :
  forall (now : Z) (packet : RequestPacket) (outcome : InvokeOutcome) (p q : Peer),
    0 <= requestCounter (_productivity p) ->
    match snd (request now packet outcome p) with
    | Ok _ => productivity_consistent (_productivity (fst (request now packet outcome p)))
    | Throw _ =>
        requestCounter (_productivity (fst (request now packet outcome p))) =
          requestCounter (_productivity p) + 1
        /\ responseCounter (_productivity (fst (request now packet outcome p))) =
             responseCounter (_productivity p)
        /\ responseRate (_productivity (fst (request now packet outcome p))) =
             responseRate (_productivity p)
    end
    /\ match snd (request_settle now packet outcome q) with
       | Ok _ =>
           responseRate (_productivity (fst (request_settle now packet outcome q))) =
             js_div (responseCounter (_productivity (fst (request_settle now packet outcome q))))
                    (requestCounter (_productivity (fst (request_settle now packet outcome q))))
           /\ responseCounter (_productivity (fst (request_settle now packet outcome q))) =
                responseCounter (_productivity q) + 1
           /\ requestCounter (_productivity (fst (request_settle now packet outcome q))) =
                requestCounter (_productivity q)
           /\ (1 <= requestCounter (_productivity q) ->
               productivity_consistent
                 (_productivity (fst (request_settle now packet outcome q))))
           /\ (requestCounter (_productivity q) = 0 ->
               0 <= responseCounter (_productivity q) ->
               responseRate (_productivity (fst (request_settle now packet outcome q))) =
                 PosInfinity
               /\ ~ productivity_consistent
                      (_productivity (fst (request_settle now packet outcome q))))
       | Throw _ =>
           _productivity (fst (request_settle now packet outcome q)) = _productivity q
       end.
Proof.
  intros now packet outcome p q Hcount. split.
  - unfold request.
    pose proof (request_start_of_productivity packet p) as Hstart.
    destruct (request_start_of packet p) as [p1 [[]|e]] eqn:E; simpl in Hstart.
    + destruct (request_settle now packet outcome p1) as [p2 [v|e]] eqn:S; simpl.
      * destruct (request_settle_rate _ _ _ _ _ _ S) as (H1 & H2 & H3).
        unfold productivity_consistent. rewrite js_div_max; [exact H1|].
        rewrite H3, Hstart. simpl. lia.
      * unfold request_settle in S. destruct outcome as [responseData|name message].
        -- destruct (truthy responseData); inversion S; subst.
           rewrite Hstart. simpl. auto.
        -- destruct (String.eqb name "TimeoutError"); inversion S; subst;
             rewrite ?disconnect_productivity, Hstart; simpl; auto.
    + simpl. rewrite Hstart. simpl. auto.
  - destruct (request_settle now packet outcome q) as [q' [v|e]] eqn:S; cbn [fst snd].
    + destruct (request_settle_rate _ _ _ _ _ _ S) as (H1 & H2 & H3).
      split; [exact H1|]. split; [exact H2|]. split; [exact H3|]. split.
      * intros Hone. unfold productivity_consistent.
        rewrite js_div_max; [exact H1|]. rewrite H3. exact Hone.
      * intros Hzero Hresp.
        assert (Hinf : responseRate (_productivity q') = PosInfinity).
        { rewrite H1, H2, H3, Hzero. unfold js_div. cbn [Z.eqb].
          destruct (Z.ltb_spec 0 (responseCounter (_productivity q) + 1)) as [_|Hneg];
            [reflexivity|lia]. }
        split; [exact Hinf|].
        unfold productivity_consistent. rewrite Hinf, H3, Hzero.
        unfold js_div. cbn. discriminate.
    + unfold request_settle in S. destruct outcome as [responseData|name message].
      * destruct (truthy responseData); inversion S; subst. reflexivity.
      * destruct (String.eqb name "TimeoutError"); inversion S; subst;
          rewrite ?disconnect_productivity; reflexivity.
Qed.

(** After a request that was answered and one that was refused by the
    transport, the counters are 2 and 1 and the rate is still 1. *)
Lemma request_rate_stale_after_failure :
  returns exampleInbound (fun p =>
    let p1 := fst (request 5 examplePacket (Resolved (JObj [])) p) in
    let p2 := fst (request 6 examplePacket (Rejected "BadConnectionError" "socket hung up") p1) in
    requestCounter (_productivity p2) = 2
    /\ responseCounter (_productivity p2) = 1
    /\ responseRate (_productivity p2) = of_Z 1
    /\ ~ productivity_consistent (_productivity p2)).
Proof.
  vm_compute. repeat split; try reflexivity. intros H. discriminate H.
Qed.

Lemma request_productivity_witness :
  returns exampleInbound (fun p =>
    0 <= requestCounter (_productivity p)
    /\ productivity_consistent
         (_productivity (fst (request 400001 examplePacket (Resolved (JObj [])) p)))
    /\ responseRate
         (_productivity
            (fst (request_settle 400001 examplePacket (Resolved (JObj []))
                    (productivityResetTick 400000 (fst (request_start_of examplePacket p)))))) =
       PosInfinity).
Proof.
  unfold returns. destruct exampleInbound as [p|e] eqn:E; [|discriminate E].
  assert (Hcount : 0 <= requestCounter (_productivity p))
    by (injection E as <-; vm_compute; discriminate).
  destruct (request_productivity 400001 examplePacket (Resolved (JObj [])) p
              (productivityResetTick 400000 (fst (request_start_of examplePacket p))) Hcount)
    as [H1 H2].
  split; [exact Hcount|]. split.
  - assert (Hok : snd (request 400001 examplePacket (Resolved (JObj [])) p) = Ok (JObj []))
      by (injection E as <-; vm_compute; reflexivity).
    rewrite Hok in H1. exact H1.
  - assert (Hok : snd (request_settle 400001 examplePacket (Resolved (JObj []))
                         (productivityResetTick 400000
                            (fst (request_start_of examplePacket p)))) = Ok (JObj []))
      by (injection E as <-; vm_compute; reflexivity).
    rewrite Hok in H2. destruct H2 as (_ & _ & _ & _ & H5).
    apply H5; injection E as <-; vm_compute; [reflexivity|discriminate].
Defined.




End Requests.

(** ** The session: the rate tick *)

Section RateTick.
Import JS Value Utils Rate PeerSession Observe.



End RateTick.

(** ** The pool: which sessions its maps hold *)

Section PoolOwnership.
Import JS Value Utils Rate PeerSession Pool Observe PoolObserve.

Lemma keeps_identity_compose (f g : Peer -> Peer) :
  keeps_identity f -> keeps_identity g -> keeps_identity (fun p => f (g p)).
Proof.
  intros Hf Hg p. destruct (Hf (g p)) as (F1 & F2). destruct (Hg p) as (G1 & G2).
  split; congruence.
Qed.

Lemma disconnect_keeps_identity (code : option StatusCode) (reason : Reason) :
  keeps_identity (disconnect code reason).
Proof.
  intros p. destruct (disconnect_frame code reason p) as (_ & _ & Hi & Hc). auto.
Qed.

Lemma applyPenalty_keeps_identity (penalty : Z) : keeps_identity (applyPenalty penalty).
Proof.
  intros p. unfold applyPenalty, _banPeer.
  destruct (_ <=? 0).
  - destruct (disconnect_keeps_identity (Some FORBIDDEN_CONNECTION) FORBIDDEN_CONNECTION_REASON
                (emit EVENT_BAN_PEER (_id (set_reputation (_reputation p - penalty) p))
                   (set_reputation (_reputation p - penalty) p))) as (H1 & H2).
    rewrite H1, H2. destruct p; auto.
  - destruct p; auto.
Qed.

Lemma counterResetTick_keeps_identity : keeps_identity counterResetTick.
Proof.
  intros p. unfold counterResetTick.
  match goal with
  | |- context [applyPenalty ?n ?q] =>
      destruct (applyPenalty_keeps_identity n q) as (H1 & H2)
  end.
  destruct (js_gt _ _); [rewrite H1, H2|]; destruct p; auto.
Qed.

Lemma request_start_of_keeps_identity (packet : RequestPacket) :
  keeps_identity (fun p => fst (request_start_of packet p)).
Proof.
  intros p. unfold request_start_of, request_start, ensure_outbound_socket.
  destruct p as [cls ? ? ? ? ? act ? ? ? ? ? ? ? ? ? ? ? ? ? ? ? ? sock ? ?]. simpl.
  destruct cls, sock; auto.
Qed.

Lemma request_settle_keeps_identity (now : Z) (packet : RequestPacket) (outcome : InvokeOutcome) :
  keeps_identity (fun p => fst (request_settle now packet outcome p)).
Proof.
  intros p. unfold request_settle.
  destruct outcome as [responseData|name message].
  - destruct (truthy responseData); destruct p; auto.
  - destruct (String.eqb name "TimeoutError"); simpl; [apply disconnect_keeps_identity|auto].
Qed.

Lemma request_keeps_identity (now : Z) (packet : RequestPacket) (outcome : InvokeOutcome) :
  keeps_identity (fun p => fst (request now packet outcome p)).
Proof.
  intros p. unfold request.
  pose proof (request_start_of_keeps_identity packet p) as H1. simpl in H1.
  destruct (request_start_of packet p) as [p1 [[]|e]]; simpl in *; [|exact H1].
  pose proof (request_settle_keeps_identity now packet outcome p1) as H2. simpl in H2.
  destruct H1, H2. split; congruence.
Qed.

Lemma send_keeps_identity (packet : MessagePacket) :
  keeps_identity (fun p => fst (send packet p)).
Proof.
  intros p. unfold send, Peer_send, ensure_outbound_socket.
  destruct p as [cls ? ? ? ? ? act ? ? ? ? ? ? ? ? ? ? ? ? ? ? ? ? sock ? ?]. simpl.
  destruct cls, sock; auto.
Qed.

Lemma connect_keeps_identity : keeps_identity (fun p => fst (connect p)).
Proof.
  intros p. unfold connect, ensure_outbound_socket.
  destruct p as [cls ? ? ? ? ? act ? ? ? ? ? ? ? ? ? ? ? ? ? ? ? ? sock ? ?]. simpl.
  destruct cls, sock; auto.
Qed.

Lemma run_session_keeps_identity (op : SessionOp) : keeps_identity (run_session op).
Proof.
  destruct op; intros p; simpl.
  - apply applyPenalty_keeps_identity.
  - apply counterResetTick_keeps_identity.
  - unfold productivityResetTick.
    match goal with |- context [if ?c then _ else _] => destruct c end; destruct p; auto.
  - destruct p; auto.
  - apply (request_keeps_identity now packet outcome p).
  - apply (send_keeps_identity packet p).
  - apply (connect_keeps_identity p).
  - apply disconnect_keeps_identity.
Qed.

Lemma bind_keeps_identity : keeps_identity _bindHandlersToPeer.
Proof. intros p. destruct p; auto. Qed.

Lemma unbind_keeps_identity : keeps_identity _unbindHandlersFromPeer.
Proof. intros p. destruct p; auto. Qed.

Lemma applyNodeInfoOnPeer_keeps_identity (nodeInfo : JSValue) :
  keeps_identity (_applyNodeInfoOnPeer nodeInfo).
Proof.
  intros p. unfold _applyNodeInfoOnPeer, applyNodeInfo_start.
  destruct (isPassive (_peerInfo (set_nodeInfo nodeInfo p))).
  - destruct p as [cls ? ? ? ? ? act ? ? ? ? ? ? ? ? ? ? ? ? ? ? ? ? sock ? ?]. simpl.
    destruct sock; auto.
  - destruct (request_start_of_keeps_identity
                {| procedure := REMOTE_RPC_UPDATE_PEER_INFO;
                   data := PeerSession._nodeInfo (set_nodeInfo nodeInfo p) |}
                (set_nodeInfo nodeInfo p)) as (H1 & H2).
    cbv beta in H1, H2. rewrite H1, H2. destruct p; auto.
Qed.

(** *** The maps and the heap *)

Lemma holds_own_alter (cls : PeerClass) (objects : list Peer) (m : gmap string nat)
    (ref : nat) (f : Peer -> Peer) :
  keeps_identity f -> holds_own cls objects m -> holds_own cls (alter f ref objects) m.
Proof.
  intros Hf H k r Hk. destruct (H k r Hk) as (p & Hp & Hc & Hi).
  destruct (decide (ref = r)) as [->|Hne].
  - exists (f p). rewrite list_lookup_alter_eq, Hp. destruct (Hf p) as (F1 & F2).
    split; [reflexivity|split; congruence].
  - exists p. rewrite list_lookup_alter_ne by exact Hne. auto.
Qed.

Lemma holds_own_app (cls : PeerClass) (objects : list Peer) (m : gmap string nat) (p : Peer) :
  holds_own cls objects m -> holds_own cls (objects ++ [p]) m.
Proof.
  intros H k r Hk. destruct (H k r Hk) as (q & Hq & Hc & Hi).
  exists q. rewrite lookup_app_l by (eapply lookup_lt_Some; exact Hq). auto.
Qed.

Lemma holds_own_delete (cls : PeerClass) (objects : list Peer) (m : gmap string nat)
    (k : string) :
  holds_own cls objects m -> holds_own cls objects (delete k m).
Proof.
  intros H k' r Hk. apply lookup_delete_Some in Hk as (_ & Hk). exact (H k' r Hk).
Qed.

Lemma holds_own_insert (cls : PeerClass) (objects : list Peer) (m : gmap string nat) (p : Peer) :
  class p = cls ->
  holds_own cls objects m ->
  holds_own cls (objects ++ [p]) (<[PeerSession.id p := length objects]> m).
Proof.
  intros Hc H k r Hk. apply lookup_insert_Some in Hk as [(<- & <-)|(Hne & Hk)].
  - exists p. rewrite lookup_app_r by lia. rewrite Nat.sub_diag. auto.
  - exact (holds_own_app cls objects m p H k r Hk).
Qed.

Lemma pool_owns_update (ref : nat) (f : Peer -> Peer) (pool : PeerPool) :
  keeps_identity f -> pool_owns pool -> pool_owns (update_peer ref f pool).
Proof.
  intros Hf (Hin & Hout). split; simpl; apply holds_own_alter; assumption.
Qed.

Lemma removeOutboundPeer_owns (peerId : string) (code : option StatusCode) (reason : Reason)
    (pool : PeerPool) :
  pool_owns pool -> pool_owns (fst (removeOutboundPeer peerId code reason pool)).
Proof.
  intros H. unfold removeOutboundPeer. simpl.
  assert (H1 : pool_owns
                 match _outboundPeerMap pool !! peerId with
                 | Some peer =>
                     update_peer peer (fun p => _unbindHandlersFromPeer (disconnect code reason p))
                       pool
                 | None => pool
                 end).
  { destruct (_outboundPeerMap pool !! peerId); [|exact H].
    apply pool_owns_update; [|exact H].
    apply (keeps_identity_compose _unbindHandlersFromPeer (disconnect code reason)).
    - apply unbind_keeps_identity.
    - apply disconnect_keeps_identity. }
  destruct H1 as (Hin & Hout). split; simpl; [exact Hin|].
  apply holds_own_delete. exact Hout.
Qed.

Lemma removeInboundPeer_owns (peerId : string) (code : option StatusCode) (reason : Reason)
    (pool : PeerPool) :
  pool_owns pool -> pool_owns (fst (removeInboundPeer peerId code reason pool)).
Proof.
  intros H. unfold removeInboundPeer. simpl.
  assert (H1 : pool_owns
                 match _inboundPeerMap pool !! peerId with
                 | Some peer =>
                     update_peer peer (fun p => _unbindHandlersFromPeer (disconnect code reason p))
                       pool
                 | None => pool
                 end).
  { destruct (_inboundPeerMap pool !! peerId); [|exact H].
    apply pool_owns_update; [|exact H].
    apply (keeps_identity_compose _unbindHandlersFromPeer (disconnect code reason)).
    - apply unbind_keeps_identity.
    - apply disconnect_keeps_identity. }
  destruct H1 as (Hin & Hout). split; simpl; [|exact Hout].
  apply holds_own_delete. exact Hin.
Qed.

Lemma evictPeer_owns (rt : Runtime) (kind : string) (pool : PeerPool) :
  pool_owns pool -> pool_owns (fst (_evictPeer rt kind pool)).
Proof.
  intros H. unfold _evictPeer.
  destruct (length (getPeers (Some kind) pool) <? 1)%nat; [exact H|].
  destruct (String.eqb kind PEER_KIND_OUTBOUND).
  - destruct (filterM _ _) as [candidates|e]; [|exact H].
    destruct (shuffle rt candidates) as [|selectedPeer rest]; [exact H|].
    simpl. apply removeOutboundPeer_owns. exact H.
  - destruct (String.eqb kind PEER_KIND_INBOUND); [|exact H].
    destruct (_selectPeersForEviction rt pool) as [candidates|e]; [|exact H].
    destruct (shuffle rt candidates) as [|peerToEvict rest]; [exact H|].
    simpl. apply removeInboundPeer_owns. exact H.
Qed.

Lemma new_Peer_class (cls : PeerClass) (now : Z) (peerInfo : P2PPeerInfo)
    (peerConfig : PeerConfig) (p : Peer) :
  new_Peer cls now peerInfo peerConfig = Ok p ->
  class p = cls
  /\ getPeerIdFromPeerInfo peerInfo = Ok (PeerSession.id p)
  /\ listeners p = [].
Proof.
  unfold new_Peer, getPeerIdFromPeerInfo. simpl.
  destruct (normalizeAddress (ipAddress peerInfo)) as [n|e]; simpl; [|discriminate].
  destruct (protocol n); intros H; inversion H; subst; simpl; auto.
Qed.

Lemma new_InboundPeer_class (now : Z) (peerInfo : P2PPeerInfo) (socket : Socket)
    (peerConfig : PeerConfig) (p : Peer) :
  new_InboundPeer now peerInfo socket peerConfig = Ok p ->
  class p = InboundPeer /\ getPeerIdFromPeerInfo peerInfo = Ok (PeerSession.id p).
Proof.
  unfold new_InboundPeer.
  destruct (new_Peer InboundPeer now peerInfo peerConfig) as [q|e] eqn:E; simpl; [|discriminate].
  destruct (new_Peer_class _ _ _ _ _ E) as (Hc & Hi & _).
  intros H. inversion H; subst. destruct q; auto.
Qed.

Lemma addOutboundPeer_owns (now : Z) (peerId : string) (peerInfo : P2PPeerInfo)
    (pool : PeerPool) :
  pool_owns pool -> pool_owns (fst (addOutboundPeer now peerId peerInfo pool)).
Proof.
  intros H. unfold addOutboundPeer.
  destruct (_outboundPeerMap pool !! peerId); [exact H|].
  destruct (new_OutboundPeer now peerInfo (_peerConfig pool)) as [peer|e] eqn:E; [|exact H].
  destruct (new_Peer_class _ _ _ _ _ E) as (Hc & _).
  unfold allocate.
  set (pool2 := pool_set_outboundPeerMap _ _).
  assert (H2 : pool_owns pool2).
  { destruct H as (Hin & Hout). split; simpl.
    - apply holds_own_app. exact Hin.
    - apply holds_own_insert; assumption. }
  set (pool3 := update_peer (length (heap pool)) _bindHandlersToPeer pool2).
  assert (H3 : pool_owns pool3) by (apply pool_owns_update; [apply bind_keeps_identity|exact H2]).
  destruct (truthy (_nodeInfo pool3)); simpl; [|exact H3].
  apply pool_owns_update; [apply applyNodeInfoOnPeer_keeps_identity|exact H3].
Qed.

Lemma addInboundPeer_owns (rt : Runtime) (now : Z) (peerInfo : P2PPeerInfo) (socket : Socket)
    (pool : PeerPool) :
  pool_owns pool -> pool_owns (fst (addInboundPeer rt now peerInfo socket pool)).
Proof.
  intros H. unfold addInboundPeer.
  set (evicting := _ <=? _).
  assert (H1 : pool_owns (fst (if evicting then _evictPeer rt PEER_KIND_INBOUND pool
                               else (pool, Ok tt))))
    by (destruct evicting; [apply evictPeer_owns|]; exact H).
  destruct (if evicting then _evictPeer rt PEER_KIND_INBOUND pool else (pool, Ok tt))
    as [pool1 [[]|e]]; simpl in H1; [|exact H1].
  destruct (new_InboundPeer now peerInfo socket (_peerConfig pool1)) as [peer|e] eqn:E;
    [|exact H1].
  destruct (new_InboundPeer_class _ _ _ _ _ E) as (Hc & _).
  unfold allocate.
  destruct (bool_decide _).
  - destruct H1 as (Hin & Hout). split; simpl; apply holds_own_app; assumption.
  - set (pool3 := pool_set_inboundPeerMap _ _).
    assert (H3 : pool_owns pool3).
    { destruct H1 as (Hin & Hout). split; simpl.
      - apply holds_own_insert; assumption.
      - apply holds_own_app. exact Hout. }
    set (pool4 := update_peer (length (heap pool1)) _bindHandlersToPeer pool3).
    assert (H4 : pool_owns pool4)
      by (apply pool_owns_update; [apply bind_keeps_identity|exact H3]).
    destruct (truthy (_nodeInfo pool4)); simpl; [|exact H4].
    apply pool_owns_update; [apply applyNodeInfoOnPeer_keeps_identity|exact H4].
Qed.

Lemma applyNodeInfo_owns (nodeInfo : JSValue) (pool : PeerPool) :
  pool_owns pool -> pool_owns (applyNodeInfo nodeInfo pool).
Proof.
  intros H. unfold applyNodeInfo.
  assert (H1 : pool_owns (pool_set_nodeInfo nodeInfo pool)) by exact H.
  generalize dependent (pool_set_nodeInfo nodeInfo pool). intros pool1.
  generalize (getPeers None pool1). intros refs. revert pool1.
  induction refs as [|ref refs IH]; intros pool1 H1; simpl; [exact H1|].
  apply IH. apply pool_owns_update; [apply applyNodeInfoOnPeer_keeps_identity|exact H1].
Qed.

Lemma run_op_owns (rt : Runtime) (op : PoolOp) (pool : PeerPool) :
  pool_owns pool -> pool_owns (run_op rt op pool).
Proof.
  intros H. destruct op; simpl.
  - apply addInboundPeer_owns. exact H.
  - apply addOutboundPeer_owns. exact H.
  - apply removeInboundPeer_owns. exact H.
  - apply removeOutboundPeer_owns. exact H.
  - apply evictPeer_owns. exact H.
  - apply applyNodeInfo_owns. exact H.
  - apply pool_owns_update; [apply run_session_keeps_identity|exact H].
Qed.

Lemma run_owns (rt : Runtime) (ops : list PoolOp) :
  forall pool : PeerPool, pool_owns pool -> pool_owns (run rt ops pool).
Proof.
  induction ops as [|op ops IH]; intros pool H; simpl; [exact H|].
  apply IH. apply run_op_owns. exact H.
Qed.

(** C7, as amended. In every state that a new pool reaches by adding,
    removing and evicting sessions (and by what its sessions do meanwhile),
    every entry of the inbound map refers to an inbound session stored under
    its own id, and every entry of the outbound map to an outbound session
    stored under its own id. So no session object is held by both maps. That
    one peerId is a key of both maps is not excluded: an inbound and an
    outbound session for one address can be held at the same time. *)
Theorem pool_maps_hold_own_sessions :
  forall (rt : Runtime) (config : PeerPoolConfig) (ops : list PoolOp),
    pool_owns (run rt ops (new_PeerPool config))
    /\ (forall (k1 k2 : string) (r1 r2 : nat),
           _inboundPeerMap (run rt ops (new_PeerPool config)) !! k1 = Some r1 ->
           _outboundPeerMap (run rt ops (new_PeerPool config)) !! k2 = Some r2 ->
           r1 <> r2).
Proof.
  intros rt config ops.
  assert (H : pool_owns (run rt ops (new_PeerPool config))).
  { apply run_owns. split; intros k r Hk; simpl in Hk; rewrite lookup_empty in Hk;
      discriminate Hk. }
  split; [exact H|].
  intros k1 k2 r1 r2 H1 H2 ->. destruct H as (Hin & Hout).
  destruct (Hin k1 r2 H1) as (p & Hp & Hc & _).
  destruct (Hout k2 r2 H2) as (q & Hq & Hc' & _).
  rewrite Hp in Hq. inversion Hq; subst. rewrite Hc in Hc'. discriminate Hc'.
Qed.

(** After an outbound and an inbound session to 127.0.0.1:5000 were added, the
    id is a key of both maps. *)
Lemma peerId_in_both_maps :
  _outboundPeerMap exampleBothKinds !! exampleId = Some 0%nat
  /\ _inboundPeerMap exampleBothKinds !! exampleId = Some 1%nat.
Proof.
  vm_compute. split; reflexivity.
Qed.

End PoolOwnership.

(** ** The pool: adding an outbound session twice *)

Section AddOutbound.
Import JS Value Utils Rate PeerSession Pool Observe PoolObserve.

(** The id of a peer info depends on its address and port only. *)
Lemma getPeerIdFromPeerInfo_address (peerInfo : P2PPeerInfo) :
  getPeerIdFromPeerInfo
    {| ipAddress := ipAddress peerInfo; wsPort := wsPort peerInfo;
       height := 0; isPassive := false |} =
  getPeerIdFromPeerInfo peerInfo.
Proof. reflexivity. Qed.

(** When the outbound map has an entry under [peerId], [addOutboundPeer]
    returns the session of that entry and changes nothing, whatever the peer
    info. *)
Lemma addOutboundPeer_existing (now : Z) (peerId : string) (peerInfo : P2PPeerInfo)
    (pool : PeerPool) (session : nat) :
  _outboundPeerMap pool !! peerId = Some session ->
  addOutboundPeer now peerId peerInfo pool = (pool, Ok session).
Proof.
  intros H. unfold addOutboundPeer. rewrite H. reflexivity.
Qed.

(** A first call that returns a session leaves it in the outbound map under
    the id of the peer info. *)
Lemma addOutboundPeer_stores (now : Z) (peerId : string) (peerInfo : P2PPeerInfo)
    (pool pool1 : PeerPool) (session : nat) :
  getPeerIdFromPeerInfo peerInfo = Ok peerId ->
  addOutboundPeer now peerId peerInfo pool = (pool1, Ok session) ->
  _outboundPeerMap pool1 !! peerId = Some session.
Proof.
  intros Hid. unfold addOutboundPeer.
  destruct (_outboundPeerMap pool !! peerId) as [existing|] eqn:L.
  - intros H. inversion H; subst. exact L.
  - destruct (new_OutboundPeer now peerInfo (_peerConfig pool)) as [peer|e] eqn:E;
      [|intros H; inversion H].
    destruct (new_Peer_class _ _ _ _ _ E) as (_ & Hpid & _).
    rewrite Hid in Hpid. injection Hpid as Hk.
    unfold allocate.
    destruct (truthy _); intros H; inversion H; subst; simpl;
      apply lookup_insert_eq.
Qed.

(** C9, as amended. When [peerId] is the id of [peerInfo], as it is in every
    call the pool itself makes, a second call of [addOutboundPeer] with the
    same arguments returns the session of the first call and leaves the pool
    as the first call left it: the maps, the session objects with their bound
    handlers, and the events are the same. *)
Theorem addOutboundPeer_twice :
  forall (now now' : Z) (peerId : string) (peerInfo : P2PPeerInfo)
         (pool pool1 : PeerPool) (session : nat),
    getPeerIdFromPeerInfo peerInfo = Ok peerId ->
    addOutboundPeer now peerId peerInfo pool = (pool1, Ok session) ->
    addOutboundPeer now' peerId peerInfo pool1 = (pool1, Ok session).
Proof.
  intros now now' peerId peerInfo pool pool1 session Hid Hfirst.
  apply addOutboundPeer_existing.
  exact (addOutboundPeer_stores now peerId peerInfo pool pool1 session Hid Hfirst).
Qed.

Lemma addOutboundPeer_twice_witness :
  getPeerIdFromPeerInfo exampleInfo = Ok exampleId
  /\ addOutboundPeer 1 exampleId exampleInfo (fst (addOutboundPeer 0 exampleId exampleInfo examplePool)) =
     (fst (addOutboundPeer 0 exampleId exampleInfo examplePool), Ok 0%nat).
Proof.
  split; [reflexivity|].
  apply (addOutboundPeer_twice 0 1 exampleId exampleInfo examplePool).
  - reflexivity.
  - vm_compute. reflexivity.
Defined.

(** Called twice with a [peerId] that is not the id of the peer info, here
    [foo] for 127.0.0.1:5000, [addOutboundPeer] creates two sessions: the
    second call returns a new session object and replaces the first one in
    the outbound map. *)
Lemma addOutboundPeer_twice_other_id :
  snd (addOutboundPeer 0 "foo" exampleInfo examplePool) = Ok 0%nat
  /\ snd (addOutboundPeer 1 "foo" exampleInfo
            (fst (addOutboundPeer 0 "foo" exampleInfo examplePool))) = Ok 1%nat
  /\ _outboundPeerMap (fst (addOutboundPeer 0 "foo" exampleInfo examplePool)) !! exampleId =
     Some 0%nat
  /\ _outboundPeerMap
       (fst (addOutboundPeer 1 "foo" exampleInfo
               (fst (addOutboundPeer 0 "foo" exampleInfo examplePool)))) !! exampleId =
     Some 1%nat
  /\ length (heap (fst (addOutboundPeer 1 "foo" exampleInfo
                          (fst (addOutboundPeer 0 "foo" exampleInfo examplePool))))) = 2%nat.
Proof.
  vm_compute. repeat split; reflexivity.
Qed.

End AddOutbound.

(** ** The pool: removing a session *)

Section Remove.
Import JS Value Utils Rate PeerSession Pool Observe PoolObserve.

(** Every call of [removeOutboundPeer] emits one [removePeer] event. When the
    outbound map has no entry under the id, the call returns [false] and
    changes neither the maps nor the sessions. When it has one, the call
    returns [true], deletes the entry and leaves the inbound map alone, and
    the session behind the entry was disconnected and then passed to
    [_unbindHandlersFromPeer]. *)
Lemma removeOutboundPeer_effects (peerId : string) (code : option StatusCode) (reason : Reason)
    (pool : PeerPool) :
  events (fst (removeOutboundPeer peerId code reason pool)) =
    events pool ++ [(EVENT_REMOVE_PEER, peerId)]
  /\ _inboundPeerMap (fst (removeOutboundPeer peerId code reason pool)) = _inboundPeerMap pool
  /\ _outboundPeerMap (fst (removeOutboundPeer peerId code reason pool)) =
     delete peerId (_outboundPeerMap pool)
  /\ match _outboundPeerMap pool !! peerId with
     | None =>
         snd (removeOutboundPeer peerId code reason pool) = false
         /\ _outboundPeerMap (fst (removeOutboundPeer peerId code reason pool)) =
            _outboundPeerMap pool
         /\ heap (fst (removeOutboundPeer peerId code reason pool)) = heap pool
     | Some session =>
         snd (removeOutboundPeer peerId code reason pool) = true
         /\ heap (fst (removeOutboundPeer peerId code reason pool)) =
            alter (fun p => _unbindHandlersFromPeer (disconnect code reason p)) session
              (heap pool)
     end.
Proof.
  unfold removeOutboundPeer. simpl.
  destruct (_outboundPeerMap pool !! peerId) as [session|] eqn:L; simpl.
  - rewrite L. simpl. repeat split; reflexivity.
  - rewrite L. simpl. repeat split; try reflexivity. apply delete_id. exact L.
Qed.

Lemma removeInboundPeer_effects (peerId : string) (code : option StatusCode) (reason : Reason)
    (pool : PeerPool) :
  events (fst (removeInboundPeer peerId code reason pool)) =
    events pool ++ [(EVENT_REMOVE_PEER, peerId)]
  /\ _outboundPeerMap (fst (removeInboundPeer peerId code reason pool)) = _outboundPeerMap pool
  /\ _inboundPeerMap (fst (removeInboundPeer peerId code reason pool)) =
     delete peerId (_inboundPeerMap pool)
  /\ match _inboundPeerMap pool !! peerId with
     | None =>
         snd (removeInboundPeer peerId code reason pool) = false
         /\ _inboundPeerMap (fst (removeInboundPeer peerId code reason pool)) =
            _inboundPeerMap pool
         /\ heap (fst (removeInboundPeer peerId code reason pool)) = heap pool
     | Some session =>
         snd (removeInboundPeer peerId code reason pool) = true
         /\ heap (fst (removeInboundPeer peerId code reason pool)) =
            alter (fun p => _unbindHandlersFromPeer (disconnect code reason p)) session
              (heap pool)
     end.
Proof.
  unfold removeInboundPeer. simpl.
  destruct (_inboundPeerMap pool !! peerId) as [session|] eqn:L; simpl.
  - rewrite L. simpl. repeat split; reflexivity.
  - rewrite L. simpl. repeat split; try reflexivity. apply delete_id. exact L.
Qed.

(** Disconnecting does not touch the listeners of a session. *)
Lemma disconnect_listeners (code : option StatusCode) (reason : Reason) (p : Peer) :
  listeners (disconnect code reason p) = listeners p.
Proof.
  unfold disconnect, Peer_disconnect.
  destruct p as [cls ? ? ? ? ? act ? ? ? ? ? ? ? ? ? ? ? ? ? ? ? ? sock ? ?]. simpl.
  destruct cls, act, sock; reflexivity.
Qed.

Lemma listeners_removeListener (name : EventName) (handler : Handler) (p : Peer) :
  listeners (removeListener name handler p) =
  rev (remove_first (name, handler) (rev (listeners p))).
Proof. destruct p; reflexivity. Qed.

Lemma listeners_on (name : EventName) (handler : Handler) (p : Peer) :
  listeners (on name handler p) = listeners p ++ [(name, handler)].
Proof. destruct p; reflexivity. Qed.

(** Of the sixteen listeners that [_bindHandlersToPeer] registers on a new
    session, [_unbindHandlersFromPeer] removes fourteen: the two listeners of
    the socket errors stay registered. *)
Lemma unbind_after_bind (code : option StatusCode) (reason : Reason) (p : Peer) :
  listeners p = [] ->
  length (listeners (_bindHandlersToPeer p)) = 16%nat
  /\ listeners (_unbindHandlersFromPeer (disconnect code reason (_bindHandlersToPeer p))) =
     leftover_listeners.
Proof.
  intros H.
  assert (Hb : listeners (_bindHandlersToPeer p) =
               [(EVENT_REQUEST_RECEIVED, _handlePeerRPC);
                (EVENT_MESSAGE_RECEIVED, _handlePeerMessage);
                (EVENT_CONNECT_OUTBOUND, _handleOutboundPeerConnect);
                (EVENT_CONNECT_ABORT_OUTBOUND, _handleOutboundPeerConnectAbort);
                (EVENT_CLOSE_OUTBOUND, _handlePeerCloseOutbound);
                (EVENT_CLOSE_INBOUND, _handlePeerCloseInbound);
                (EVENT_OUTBOUND_SOCKET_ERROR, _handlePeerOutboundSocketError);
                (EVENT_INBOUND_SOCKET_ERROR, _handlePeerInboundSocketError);
                (EVENT_UPDATED_PEER_INFO, _handlePeerInfoUpdate);
                (EVENT_FAILED_PEER_INFO_UPDATE, _handleFailedPeerInfoUpdate);
                (EVENT_FAILED_TO_FETCH_PEER_INFO, _handleFailedToFetchPeerInfo);
                (EVENT_FAILED_TO_FETCH_PEERS, _handleFailedToFetchPeers);
                (EVENT_FAILED_TO_COLLECT_PEER_DETAILS_ON_CONNECT, _handleFailedToCollectPeerDetails);
                (EVENT_BAN_PEER, _handleBanPeer);
                (EVENT_UNBAN_PEER, _handleUnbanPeer);
                (EVENT_DISCOVERED_PEER, _handleDiscoverPeer)]).
  { unfold _bindHandlersToPeer. rewrite !listeners_on, H. reflexivity. }
  split; [rewrite Hb; reflexivity|].
  unfold _unbindHandlersFromPeer. rewrite !listeners_removeListener.
  rewrite disconnect_listeners, Hb. vm_compute. reflexivity.
Qed.

(** C10, on a pool that holds one outbound session: [removeOutboundPeer]
    returns [true], empties the map, emits one [removePeer] event and
    disconnects the session, but the session keeps the two socket-error
    listeners of the pool, which [_bindHandlersToPeer] registered and
    [_unbindHandlersFromPeer] does not remove. *)
Theorem removeOutboundPeer_keeps_error_listeners :
  let pool1 := fst (addOutboundPeer 0 exampleId exampleInfo examplePool) in
  let removed := removeOutboundPeer exampleId None NoReason pool1 in
  _outboundPeerMap pool1 !! exampleId = Some 0%nat
  /\ snd removed = true
  /\ _outboundPeerMap (fst removed) !! exampleId = None
  /\ events (fst removed) = [(EVENT_REMOVE_PEER, exampleId)]
  /\ (_active <$> heap (fst removed) !! 0%nat) = Some false
  /\ (length <$> (listeners <$> heap pool1 !! 0%nat)) = Some 16%nat
  /\ (listeners <$> heap (fst removed) !! 0%nat) = Some leftover_listeners.
Proof.
  vm_compute. repeat split; reflexivity.
Qed.

End Remove.

(** ** Validation of a peer info *)

Section PeerInfoValidation.
Import JS Value Validation ValidationObserve.

Lemma lookup_prop_set_eq (k : string) (v : JSValue) (props : list (string * JSValue)) :
  lookup_prop k (set_prop k v props) = Some v.
Proof.
  induction props as [|[k' v'] rest IH]; simpl.
  - rewrite String.eqb_refl. reflexivity.
  - destruct (String.eqb k' k) eqn:E; simpl; rewrite E; [reflexivity|exact IH].
Qed.

Lemma lookup_prop_set_ne (k k' : string) (v : JSValue) (props : list (string * JSValue)) :
  k <> k' -> lookup_prop k' (set_prop k v props) = lookup_prop k' props.
Proof.
  intros Hne. induction props as [|[k0 v0] rest IH]; simpl.
  - destruct (String.eqb_spec k k'); [contradiction|reflexivity].
  - destruct (String.eqb_spec k0 k) as [->|Hk]; simpl.
    + destruct (String.eqb_spec k k'); [contradiction|reflexivity].
    + rewrite IH. reflexivity.
Qed.

Lemma lookup_prop_remove_eq (k : string) (props : list (string * JSValue)) :
  lookup_prop k (remove_prop k props) = None.
Proof.
  unfold remove_prop. induction props as [|[k' v'] rest IH]; simpl; [reflexivity|].
  destruct (String.eqb k' k) eqn:E; simpl; [exact IH|]. rewrite E. exact IH.
Qed.

Lemma lookup_prop_remove_ne (k k' : string) (props : list (string * JSValue)) :
  k <> k' -> lookup_prop k' (remove_prop k props) = lookup_prop k' props.
Proof.
  intros Hne. unfold remove_prop. induction props as [|[k0 v0] rest IH]; simpl; [reflexivity|].
  destruct (String.eqb_spec k0 k) as [->|Hk]; simpl.
  - destruct (String.eqb_spec k k'); [contradiction|exact IH].
  - rewrite IH. reflexivity.
Qed.





End PeerInfoValidation.

Section PeerInfoExamples.
Import JS Value Validation ValidationObserve.



End PeerInfoExamples.

(** ** Address normalization *)

Section Normalization.
Import JS Net Utils UtilsObserve.

(** An address that is not IPv6, so every IPv4 address, is passed through and
    is a fixed point. *)
Lemma normalizeAddress_pass_through (x : string) :
  isIPv6 x = false ->
  normalizeAddress x = Ok {| protocol := PROTOCOL_IPV4; address := x |}
  /\ renormalize x = normalizeAddress x.
Proof.
  intros H. unfold renormalize, normalizeAddress. rewrite H. simpl. rewrite H.
  split; reflexivity.
Qed.

(** The loopback address, an IPv4-mapped address and an address with upper
    case and leading zeros are normalized to fixed points. *)
Lemma normalizeAddress_fixed_examples :
  normalizeAddress "::1" = Ok {| protocol := PROTOCOL_IPV6; address := "0:0:0:0:0:0:0:1" |}
  /\ renormalize "::1" = normalizeAddress "::1"
  /\ normalizeAddress "::ffff:10.1.2.3" = Ok {| protocol := PROTOCOL_IPV4; address := "10.1.2.3" |}
  /\ renormalize "::ffff:10.1.2.3" = normalizeAddress "::ffff:10.1.2.3"
  /\ normalizeAddress "FE80::00A1" =
     Ok {| protocol := PROTOCOL_IPV6; address := "fe80:0:0:0:0:0:0:a1" |}
  /\ renormalize "FE80::00A1" = normalizeAddress "FE80::00A1".
Proof.
  vm_compute. repeat split; reflexivity.
Qed.

(** C8, at an IPv6 address that ends in an IPv4 address. [isIPv6] accepts it;
    [normalizeIPv6Address] reads the dotted quad as one hex group and returns
    seven groups under the protocol IPv6; that text is not an IPv6 address, so
    normalizing it again answers the protocol IPv4: the result of
    [normalizeAddress] is not a fixed point. At an address with eight colons
    [normalizeAddress] throws a RangeError. *)
Theorem normalizeAddress_embedded_ipv4 :
  isIPv6 embeddedIPv4Address = true
  /\ normalizeAddress embeddedIPv4Address =
     Ok {| protocol := PROTOCOL_IPV6; address := "1:2:3:4:5:6:1" |}
  /\ renormalize embeddedIPv4Address =
     Ok {| protocol := PROTOCOL_IPV4; address := "1:2:3:4:5:6:1" |}
  /\ renormalize embeddedIPv4Address <> normalizeAddress embeddedIPv4Address
  /\ isIPv6 eightColonAddress = true
  /\ normalizeAddress eightColonAddress = Throw (RangeError "Invalid count value").
Proof.
  vm_compute. repeat split; try reflexivity. intros H. discriminate H.
Qed.

End Normalization.

(** ** Bucket hashing *)

Section Buckets.
Import JS Net Utils UtilsObserve.
Variable hash : list byte -> list byte.

Lemma Z_of_byte_range (b : byte) : 0 <= Z_of_byte b < 256.
Proof.
  unfold Z_of_byte. pose proof (Byte.to_N_bounded b) as H. lia.
Qed.

Lemma readUInt32BE_range (buf : list byte) (word : Z) :
  readUInt32BE buf = Ok word -> 0 <= word < 4294967296.
Proof.
  unfold readUInt32BE. destruct buf as [|a [|b [|c [|d rest]]]]; try discriminate.
  intros H. injection H as <-.
  pose proof (Z_of_byte_range a). pose proof (Z_of_byte_range b).
  pose proof (Z_of_byte_range c). pose proof (Z_of_byte_range d). lia.
Qed.

(** When [getBucketId] returns for a positive [bucketCount], it returns an
    integer of the range [0, bucketCount): the first four bytes of the hash,
    big-endian, modulo [bucketCount]. *)
Lemma getBucketId_range (options : BucketOptions) (result : option Z) :
  0 < bucketCount options ->
  getBucketId hash options = Ok result ->
  exists (bytes : list byte) (word : Z),
    bucketBytes options = Ok bytes
    /\ readUInt32BE (hash bytes) = Ok word
    /\ result = Some (word mod bucketCount options)
    /\ 0 <= word mod bucketCount options < bucketCount options.
Proof.
  intros Hcount. unfold getBucketId.
  destruct (bucketBytes options) as [bytes|e]; simpl; [|discriminate].
  destruct (readUInt32BE (hash bytes)) as [word|e] eqn:R; simpl; [|discriminate].
  intros H. injection H as <-. exists bytes, word.
  pose proof (readUInt32BE_range _ _ R) as Hword.
  unfold js_rem. destruct (Z.eqb_spec (bucketCount options) 0) as [E|_]; [lia|].
  rewrite Z.rem_mod_nonneg by lia.
  split; [reflexivity|]. split; [exact R|]. split; [reflexivity|].
  apply Z.mod_pos_bound. lia.
Qed.

(** For a local or a private address the hashed bytes are the secret and the
    network code: the address does not enter. *)
Lemma bucketBytes_local_private (options : BucketOptions) (network : NETWORK)
    (secretBytes : list byte) :
  writeUInt32BE (secret options) = Ok secretBytes ->
  getNetwork (targetAddress options) = Ok network ->
  network = NET_LOCAL \/ network = NET_PRIVATE ->
  bucketBytes options = Ok (secretBytes ++ [byte_of_Z (network_code network)]).
Proof.
  intros Hs Hn Hcase. unfold bucketBytes. rewrite Hs, Hn. simpl.
  destruct Hcase as [-> | ->]; reflexivity.
Qed.

(** An address of no supported network is refused. *)
Lemma getBucketId_unsupported (options : BucketOptions) (secretBytes : list byte) :
  writeUInt32BE (secret options) = Ok secretBytes ->
  getNetwork (targetAddress options) = Ok NET_OTHER ->
  getBucketId hash options = Throw (Error "IP address is unsupported.").
Proof.
  intros Hs Hn. unfold getBucketId, bucketBytes. rewrite Hs, Hn. reflexivity.
Qed.

(** C4, at two IPv6 addresses. For an address that ends in an IPv4 address the
    network is IPv6 and the address bytes are 14 bytes, not 16, so 19 bytes
    are hashed. For an address with eight colons [getBucketId] throws a
    RangeError: it neither returns a bucket nor reports an unsupported
    address. *)
Theorem getBucketId_ipv6_forms :
  getNetwork embeddedIPv4Address = Ok NET_IPV6
  /\ (map Z_of_byte <$> match getIPV6Bytes embeddedIPv4Address with
                        | Ok bytes => Some bytes
                        | Throw _ => None
                        end) = Some [0; 1; 0; 2; 0; 3; 0; 4; 0; 5; 0; 6; 0; 1]
  /\ (length <$> match bucketBytes (bucketOptionsFor embeddedIPv4Address) with
                 | Ok bytes => Some bytes
                 | Throw _ => None
                 end) = Some 19%nat
  /\ isIPv6 eightColonAddress = true
  /\ getBucketId hash (bucketOptionsFor eightColonAddress) =
     Throw (RangeError "Invalid count value").
Proof.
  vm_compute. repeat split; reflexivity.
Qed.

End Buckets.

(** * Further properties *)

(** ** Texts and numbers *)

Section Texts.
Import JS Net Utils TextObserve.

Lemma is_digit_cases (c : ascii) :
  is_digit c = true ->
  In c ["0"; "1"; "2"; "3"; "4"; "5"; "6"; "7"; "8"; "9"]%char.
Proof.
  destruct c as [[] [] [] [] [] [] [] []]; intros H; try discriminate H;
    simpl; auto 12.
Qed.


Lemma all_chars_free_of (p : ascii -> bool) (c : ascii) (s : string) :
  p c = false -> all_chars p s = true -> free_of c s.
Proof.
  intros Hc. unfold all_chars, free_of. induction s as [|a s IH]; simpl; [reflexivity|].
  intros H. apply andb_true_iff in H as [Ha Hs]. rewrite IH by exact Hs.
  destruct (Ascii.eqb_spec a c) as [->|_]; [congruence|reflexivity].
Qed.

Lemma free_of_cons (c a : ascii) (s : string) :
  free_of c (String a s) <-> a <> c /\ free_of c s.
Proof.
  unfold free_of. simpl. rewrite andb_true_iff, negb_true_iff.
  destruct (Ascii.eqb_spec a c); intuition congruence.
Qed.

Lemma split_free_of (c : ascii) (s : string) : free_of c s -> split c s = [s].
Proof.
  induction s as [|a s IH]; [reflexivity|].
  intros H. apply free_of_cons in H as [Ha Hs]. simpl.
  destruct (Ascii.eqb_spec a c) as [E|_]; [contradiction|].
  rewrite IH by exact Hs. reflexivity.
Qed.

Lemma split_app_free_of (c : ascii) (s t : string) :
  free_of c s -> split c (s +:+ String c t) = s :: split c t.
Proof.
  induction s as [|a s IH]; intros H.
  - simpl. rewrite Ascii.eqb_refl. reflexivity.
  - apply free_of_cons in H as [Ha Hs]. simpl.
    destruct (Ascii.eqb_spec a c) as [E|_]; [contradiction|].
    rewrite IH by exact Hs. reflexivity.
Qed.

Lemma free_of_app (c : ascii) (s t : string) :
  free_of c s -> free_of c t -> free_of c (s +:+ t).
Proof.
  induction s as [|a s IH]; intros Hs Ht; [exact Ht|].
  apply free_of_cons in Hs as [Ha Hs]. simpl. apply free_of_cons. auto.
Qed.

Lemma all_chars_split (p : ascii -> bool) (sep : ascii) (s : string) :
  p sep = true -> forallb (all_chars p) (split sep s) = true -> all_chars p s = true.
Proof.
  intros Hsep. unfold all_chars. induction s as [|a s IH]; [reflexivity|].
  simpl. destruct (Ascii.eqb_spec a sep) as [->|Hne].
  - simpl. intros H. rewrite Hsep. simpl. exact (IH H).
  - destruct (split sep s) as [|part parts] eqn:E.
    + simpl. rewrite andb_true_r. intros H. apply andb_true_iff in H as [H _].
      rewrite H. simpl. apply IH. reflexivity.
    + simpl. intros H. apply andb_true_iff in H as [H1 H2].
      apply andb_true_iff in H1 as [Ha Hpart]. rewrite Ha. simpl.
      apply IH. simpl. rewrite Hpart, H2. reflexivity.
Qed.

(** The decimal text of an integer reads back as that integer. *)
Lemma read_digits_step (c : ascii) (s : string) (acc v : Z) (n : nat) :
  digit_value 10 c = Some v ->
  read_digits 10 (String c s) acc n = read_digits 10 s (acc * 10 + v) (S n).
Proof.
  intros H. cbn [read_digits]. rewrite H. reflexivity.
Qed.

Ltac digit_value_now :=
  match goal with
  | |- context [Z.of_nat (nat_of_ascii ?c) - 48] =>
      let v := eval vm_compute in (Z.of_nat (nat_of_ascii c) - 48) in
      change (Z.of_nat (nat_of_ascii c) - 48) with v
  end.

Lemma read_digits_acc (d : Decimal.uint) (acc : positive) (n : nat) :
  read_digits 10 (DecimalString.NilEmpty.string_of_uint d) (Z.pos acc) n =
  (Z.pos (Pos.of_uint_acc d acc), (n + Decimal.nb_digits d)%nat).
Proof.
  revert acc n. induction d as [|d IH|d IH|d IH|d IH|d IH|d IH|d IH|d IH|d IH|d IH];
    intros acc n; cbn [DecimalString.NilEmpty.string_of_uint Pos.of_uint_acc Decimal.nb_digits];
    try (erewrite read_digits_step by reflexivity; digit_value_now);
    [cbn [read_digits]; rewrite Nat.add_0_r; reflexivity|..];
    match goal with
    | |- read_digits 10 _ ?a _ = (Z.pos (Pos.of_uint_acc _ ?b), _) =>
        replace a with (Z.pos b) by lia
    end; rewrite IH; f_equal; lia.
Qed.

Lemma read_digits_decimal (d : Decimal.uint) (n : nat) :
  read_digits 10 (DecimalString.NilEmpty.string_of_uint d) 0 n =
  (Z.of_N (Pos.of_uint d), (n + Decimal.nb_digits d)%nat).
Proof.
  revert n. induction d as [|d IH|d IH|d IH|d IH|d IH|d IH|d IH|d IH|d IH|d IH];
    intros n; cbn [DecimalString.NilEmpty.string_of_uint Pos.of_uint Decimal.nb_digits];
    try (erewrite read_digits_step by reflexivity; digit_value_now);
    [cbn [read_digits]; rewrite Nat.add_0_r; reflexivity
    |change (0 * 10 + 0) with 0; rewrite IH; f_equal; lia
    |..];
    match goal with
    | |- read_digits 10 _ ?a _ = _ => change a with (Z.pos (Z.to_pos a))
    end; rewrite read_digits_acc; cbn; f_equal; lia.
Qed.

Lemma decimal_uint_text (d : Decimal.uint) :
  d <> Decimal.Nil ->
  let s := DecimalString.NilEmpty.string_of_uint d in
  drop_while is_whitespace s = s
  /\ strip_sign s = (1, s)
  /\ strip_hex_prefix s = None
  /\ exists k : nat, read_digits 10 s 0 0 = (Z.of_N (Pos.of_uint d), S k).
Proof.
  intros Hd s. subst s. repeat split.
  - destruct d; reflexivity.
  - destruct d; reflexivity.
  - destruct d as [|d|d|d|d|d|d|d|d|d|d]; try reflexivity. destruct d; reflexivity.
  - rewrite read_digits_decimal. destruct d; try contradiction;
      cbn [Decimal.nb_digits Nat.add]; eexists; reflexivity.
Qed.

Lemma parseInt_number_to_string (z : Z) : parseInt (number_to_string z) None = Some z.
Proof.
  unfold number_to_string. destruct z as [|p|p]; [reflexivity| |];
    cbn [Z.to_int DecimalString.NilEmpty.string_of_int];
    destruct (decimal_uint_text (Pos.to_uint p) (Unsigned.to_uint_nonnil p))
      as (Hws & Hsign & Hpre & k & Hread);
    rewrite Unsigned.of_to in Hread; unfold parseInt.
  - rewrite Hws, Hsign, Hpre, Hread. reflexivity.
  - cbn [drop_while]. change (is_whitespace "-") with false. cbv iota.
    cbn [strip_sign]. rewrite Hpre, Hread. reflexivity.
Qed.


Lemma v4Seg_digits (s : string) : v4Seg s = true -> all_chars is_digit s = true.
Proof.
  unfold v4Seg, all_chars.
  destruct s as [|a [|b [|c [|d s]]]]; cbn [list_ascii_of_string forallb]; try discriminate;
    intros H; rewrite ?andb_true_iff in H; destruct_and?;
    repeat match goal with Hb : is_digit _ = true |- _ => rewrite Hb; clear Hb end;
    reflexivity.
Qed.

Lemma all_chars_weaken (p q : ascii -> bool) (s : string) :
  (forall c, p c = true -> q c = true) -> all_chars p s = true -> all_chars q s = true.
Proof.
  intros Hpq. unfold all_chars. induction s as [|a s IH]; [reflexivity|]. simpl.
  intros H. apply andb_true_iff in H as [Ha Hs]. rewrite (Hpq _ Ha), (IH Hs). reflexivity.
Qed.

Lemma isIPv4_chars (s : string) : isIPv4 s = true -> all_chars digit_or_dot s = true.
Proof.
  unfold isIPv4. intros H. apply (all_chars_split digit_or_dot "."); [reflexivity|].
  destruct (split "." s) as [|a [|b [|c [|d [|e l]]]]]; try discriminate.
  repeat (apply andb_true_iff in H as [H ?]). simpl.
  repeat match goal with
         | Hs : v4Seg _ = true |- _ =>
             apply v4Seg_digits in Hs;
             apply (all_chars_weaken is_digit digit_or_dot) in Hs;
             [rewrite Hs|intros ? Hc; unfold digit_or_dot; rewrite Hc; reflexivity]
         end.
  reflexivity.
Qed.

Lemma split_double_colon_free_of (s : string) : free_of ":" s -> split_double_colon s = None.
Proof.
  induction s as [|a s IH]; [reflexivity|].
  intros H. apply free_of_cons in H as [Ha Hs]. specialize (IH Hs).
  destruct s as [|b s']; [reflexivity|].
  change (split_double_colon (String a (String b s')))
    with (if Ascii.eqb a ":" && Ascii.eqb b ":" then Some (EmptyString, s')
          else match split_double_colon (String b s') with
               | Some (l, r) => Some (String a l, r)
               | None => None
               end).
  rewrite IH. destruct (Ascii.eqb_spec a ":") as [E|_]; [contradiction|reflexivity].
Qed.

Lemma split_zone_free_of (s : string) : free_of "%" s -> split_zone s = (s, None).
Proof.
  induction s as [|a s IH]; [reflexivity|].
  intros H. apply free_of_cons in H as [Ha Hs]. simpl.
  destruct (Ascii.eqb_spec a "%") as [E|_]; [contradiction|].
  rewrite (IH Hs). reflexivity.
Qed.

(** No IPv4 address is an IPv6 address. *)
Lemma isIPv4_not_isIPv6 (s : string) : isIPv4 s = true -> isIPv6 s = false.
Proof.
  intros H. pose proof (isIPv4_chars s H) as Hchars.
  unfold isIPv6. rewrite split_zone_free_of
    by (apply (all_chars_free_of digit_or_dot); [reflexivity|exact Hchars]).
  unfold ipv6_body. rewrite split_double_colon_free_of, split_free_of
    by (apply (all_chars_free_of digit_or_dot); [reflexivity|exact Hchars]).
  cbn [groups_count]. rewrite H. destruct (v6Seg s); reflexivity.
Qed.

Lemma IPV6_PEER_HOST_match_free_of (s : string) :
  free_of "[" s -> PeerIds.IPV6_PEER_HOST_match s = None.
Proof.
  induction s as [|a s IH]; [reflexivity|].
  intros H. apply free_of_cons in H as [Ha Hs]. simpl.
  destruct (Ascii.eqb_spec a "[") as [E|_]; [contradiction|]. exact (IH Hs).
Qed.

Lemma IPV6_PEER_PORT_match_free_of (s : string) :
  free_of "[" s -> PeerIds.IPV6_PEER_PORT_match s = None.
Proof.
  induction s as [|a s IH]; [reflexivity|].
  intros H. apply free_of_cons in H as [Ha Hs]. simpl.
  destruct (Ascii.eqb_spec a "[") as [E|_]; [contradiction|]. exact (IH Hs).
Qed.

Lemma decimal_uint_digits (d : Decimal.uint) :
  all_chars is_digit (DecimalString.NilEmpty.string_of_uint d) = true.
Proof.
  unfold all_chars. induction d; simpl; auto.
Qed.


Lemma number_to_string_chars (z : Z) : all_chars digit_or_minus (number_to_string z) = true.
Proof.
  assert (H : forall d, all_chars digit_or_minus (DecimalString.NilEmpty.string_of_uint d) = true).
  { intros d. apply (all_chars_weaken is_digit); [|apply decimal_uint_digits].
    intros c Hc. unfold digit_or_minus. rewrite Hc. reflexivity. }
  unfold number_to_string. destruct z as [|p|p]; [reflexivity|apply H|].
  cbn [Z.to_int DecimalString.NilEmpty.string_of_int]. unfold all_chars. simpl. apply H.
Qed.

End Texts.

(** ** Peer ids *)

Section PeerIdParts.
Import JS Net Utils PeerIds TextObserve.

(** X1. The id of a peer info with an IPv4 address and a port of the safe
    range, where a number prints with all its digits, is the address, a colon
    and the port; [getHostFromPeerId] and [getPortFromPeerId] give back the
    address and the port, and [normalizePeerId] leaves the id as it is. *)
Theorem peerId_parts_ipv4 (peerInfo : P2PPeerInfo) :
  isIPv4 (ipAddress peerInfo) = true ->
  - MAX_SAFE_INTEGER <= wsPort peerInfo <= MAX_SAFE_INTEGER ->
  let peerId := ipAddress peerInfo +:+ ":" +:+ number_to_string (wsPort peerInfo) in
  getPeerIdFromPeerInfo peerInfo = Ok peerId
  /\ getHostFromPeerId peerId = Ok (ipAddress peerInfo)
  /\ getPortFromPeerId peerId = Some (wsPort peerInfo)
  /\ normalizePeerId peerId = Ok peerId.
Proof.
  intros Hv4 _ peerId.
  pose proof (isIPv4_chars _ Hv4) as Hchars.
  pose proof (number_to_string_chars (wsPort peerInfo)) as Hport.
  assert (Hcolon : free_of ":" (ipAddress peerInfo))
    by (apply (all_chars_free_of digit_or_dot); [reflexivity|exact Hchars]).
  assert (Hbracket : free_of "[" peerId).
  { unfold peerId. apply free_of_app;
      [apply (all_chars_free_of digit_or_dot); [reflexivity|exact Hchars]|].
    apply free_of_cons. split; [discriminate|].
    apply (all_chars_free_of digit_or_minus); [reflexivity|exact Hport]. }
  assert (Hsplit : split ":" peerId = [ipAddress peerInfo; number_to_string (wsPort peerInfo)]).
  { unfold peerId. change (":" +:+ ?t) with (String ":" t).
    rewrite split_app_free_of by exact Hcolon.
    rewrite split_free_of; [reflexivity|].
    apply (all_chars_free_of digit_or_minus); [reflexivity|exact Hport]. }
  assert (Hhost : getHostFromPeerId peerId = Ok (ipAddress peerInfo)).
  { unfold getHostFromPeerId. rewrite IPV6_PEER_HOST_match_free_of by exact Hbracket.
    rewrite Hsplit. reflexivity. }
  assert (Hportv : getPortFromPeerId peerId = Some (wsPort peerInfo)).
  { unfold getPortFromPeerId. rewrite IPV6_PEER_PORT_match_free_of by exact Hbracket.
    rewrite Hsplit. cbn [nth_error]. apply parseInt_number_to_string. }
  split.
  - unfold getPeerIdFromPeerInfo, normalizeAddress.
    rewrite (isIPv4_not_isIPv6 _ Hv4). reflexivity.
  - split; [exact Hhost|]. split; [exact Hportv|].
    unfold normalizePeerId. rewrite Hhost. cbn [bind]. rewrite Hportv, Hv4. reflexivity.
Qed.

Lemma peerId_parts_ipv4_witness :
  isIPv4 "10.20.30.40" = true
  /\ getHostFromPeerId "10.20.30.40:5000" = Ok "10.20.30.40"
  /\ getPortFromPeerId "10.20.30.40:5000" = Some 5000.
Proof.
  pose proof (peerId_parts_ipv4
                {| ipAddress := "10.20.30.40"; wsPort := 5000; height := 0; isPassive := false |}
                eq_refl ltac:(vm_compute; split; discriminate)) as H.
  split; [reflexivity|]. split; [exact (proj1 (proj2 H))|exact (proj1 (proj2 (proj2 H)))].
Defined.

End PeerIdParts.

Section Networks.
Import JS Net Utils.

(** X2. [getNetwork] throws a RangeError for a text that is not an IPv4
    address and holds more than seven colons, whatever else it holds; for
    every other text it returns, and it answers IPv4 or IPv6 only for a text
    that [isIPv4] or [isIPv6] accepts, and OTHER only for a text that neither
    accepts. *)
Theorem getNetwork_outcomes (address : string) :
  if negb (isIPv4 address) && (7 <? count_char ":" address)
  then getNetwork address = Throw (RangeError "Invalid count value")
  else exists network : NETWORK,
      getNetwork address = Ok network
      /\ (network = NET_IPV4 -> isIPv4 address = true)
      /\ (network = NET_IPV6 -> isIPv6 address = true)
      /\ (network = NET_OTHER -> isIPv4 address = false /\ isIPv6 address = false).
Proof.
  unfold getNetwork, isLocal, normalizeIPv6Address, repeat, IPV6_UNCOMPRESSED_COLON_COUNT.
  destruct (isIPv4 address) eqn:Hv4; cbn [negb andb].
  - destruct (parseInt (nth 0 (split "." address) "") None) as [f|]; cbn [bind].
    + destruct ((f =? 127) || (f =? 0)); [eexists; split; [reflexivity|]; repeat split; discriminate|].
      destruct (isPrivate address); eexists; (split; [reflexivity|]);
        repeat split; (discriminate || reflexivity).
    + destruct (isPrivate address); eexists; (split; [reflexivity|]);
        repeat split; (discriminate || reflexivity).
  - destruct (Z.ltb_spec 7 (count_char ":" address)) as [Hmany|Hfew].
    + destruct (Z.ltb_spec (7 - count_char ":" address) 0) as [_|Hge]; [reflexivity|lia].
    + destruct (Z.ltb_spec (7 - count_char ":" address) 0) as [Hlt|_]; [lia|].
      cbn [bind].
      match goal with |- context [if String.eqb ?a ?b then _ else _] => destruct (String.eqb a b) end;
        [eexists; split; [reflexivity|]; repeat split; discriminate|].
      destruct (isPrivate address);
        [eexists; split; [reflexivity|]; repeat split; discriminate|].
      destruct (isIPv6 address) eqn:Hv6; eexists; (split; [reflexivity|]);
        repeat split; (discriminate || reflexivity || assumption).
Qed.

End Networks.

(** ** Bucket hashing of IPv4 addresses *)

Section BucketsIPv4.
Import JS Net Utils TextObserve.
Variable hash : list byte -> list byte.

(** A segment of an IPv4 address parses to a number that fits a byte. *)
Lemma v4Seg_value (s : string) :
  v4Seg s = true -> exists v : Z, parseInt s None = Some v /\ 0 <= v <= 255.
Proof.
  unfold v4Seg.
  destruct s as [|a [|b [|c [|d s]]]]; cbn [list_ascii_of_string]; try discriminate;
    intros H; rewrite ?andb_true_iff in H; destruct_and?;
    repeat match goal with
           | Hd : is_digit ?x = true |- _ =>
               apply is_digit_cases in Hd; cbn [In] in Hd;
               repeat (destruct Hd as [<-|Hd]; [|try contradiction])
           end;
    try discriminate;
    first [ eexists; split; [vm_compute; reflexivity|split; [discriminate|discriminate]]
          | exfalso; vm_compute in *; congruence ].
Qed.

Lemma getIPV4Bytes_length (address : string) :
  isIPv4 address = true ->
  exists addressBytes : list byte,
    getIPV4Bytes address = Ok addressBytes /\ length addressBytes = 4%nat.
Proof.
  unfold isIPv4, getIPV4Bytes. intros H.
  destruct (split "." address) as [|a [|b [|c [|d [|e l]]]]]; try discriminate.
  rewrite ?andb_true_iff in H. destruct H as [[[Ha Hb] Hc] Hd].
  destruct (v4Seg_value a Ha) as (va & Pa & Ra).
  destruct (v4Seg_value b Hb) as (vb & Pb & Rb).
  destruct (v4Seg_value c Hc) as (vc & Pc & Rc).
  destruct (v4Seg_value d Hd) as (vd & Pd & Rd).
  cbn [mapM]. rewrite Pa, Pb, Pc, Pd. unfold writeUInt8.
  repeat match goal with
         | |- context [(?v <? 0) || (255 <? ?v)] =>
             replace ((v <? 0) || (255 <? v)) with false by lia
         end.
  eexists. split; reflexivity.
Qed.

(** X3. For an IPv4 address, a secret that fits 32 bits, a positive
    [bucketCount] and a hash of at least four bytes, [getBucketId] returns a
    bucket of the range; the address gives four bytes, and when its network is
    NET_IPV4 nine bytes are hashed: the secret, the network code 0 and the
    address bytes. *)
Theorem getBucketId_ipv4 (options : BucketOptions) :
  isIPv4 (targetAddress options) = true ->
  0 <= secret options <= 4294967295 ->
  0 < bucketCount options ->
  (forall bytes : list byte, (4 <= length (hash bytes))%nat) ->
  exists (secretBytes addressBytes bytes : list byte) (id : Z),
    writeUInt32BE (secret options) = Ok secretBytes
    /\ getIPV4Bytes (targetAddress options) = Ok addressBytes
    /\ length addressBytes = 4%nat
    /\ bucketBytes options = Ok bytes
    /\ (getNetwork (targetAddress options) = Ok NET_IPV4 ->
        bytes = secretBytes ++ [byte_of_Z 0] ++ addressBytes /\ length bytes = 9%nat)
    /\ getBucketId hash options = Ok (Some id)
    /\ 0 <= id < bucketCount options.
Proof.
  intros Hv4 Hsecret Hcount Hhash.
  destruct (getIPV4Bytes_length _ Hv4) as (addressBytes & Haddr & Hlen).
  assert (Hs : exists secretBytes, writeUInt32BE (secret options) = Ok secretBytes
                                   /\ length secretBytes = 4%nat).
  { unfold writeUInt32BE.
    replace ((secret options <? 0) || (4294967295 <? secret options)) with false by lia.
    eexists. split; reflexivity. }
  destruct Hs as (secretBytes & Hs & Hslen).
  pose proof (getNetwork_outcomes (targetAddress options)) as Hnet.
  rewrite Hv4 in Hnet. cbn [negb andb] in Hnet.
  destruct Hnet as (network & Hnet & _ & H6 & Hother).
  assert (Hbytes : exists bytes, bucketBytes options = Ok bytes
            /\ (network = NET_IPV4 ->
                bytes = secretBytes ++ [byte_of_Z 0] ++ addressBytes /\ length bytes = 9%nat)).
  { unfold bucketBytes. rewrite Hs, Hnet. cbn [bind].
    destruct network; cbn [network_code writeUInt8 bind Z.ltb Z.compare orb].
    - rewrite Haddr. cbn [bind]. eexists. split; [reflexivity|]. intros _.
      split; [reflexivity|]. rewrite !length_app, Hslen, Hlen. reflexivity.
    - rewrite (isIPv4_not_isIPv6 _ Hv4) in H6. discriminate (H6 eq_refl).
    - eexists. split; [reflexivity|discriminate].
    - eexists. split; [reflexivity|discriminate].
    - destruct (Hother eq_refl) as [Hno _]. congruence. }
  destruct Hbytes as (bytes & Hbytes & Hshape).
  assert (Hword : exists word, readUInt32BE (hash bytes) = Ok word /\ 0 <= word).
  { unfold readUInt32BE. pose proof (Hhash bytes) as Hl.
    destruct (hash bytes) as [|a [|b [|c [|d rest]]]]; simpl in Hl; try lia.
    eexists. split; [reflexivity|].
    unfold Z_of_byte. lia. }
  destruct Hword as (word & Hword & Hpos).
  exists secretBytes, addressBytes, bytes, (word mod bucketCount options).
  split; [exact Hs|]. split; [exact Haddr|]. split; [exact Hlen|]. split; [exact Hbytes|].
  split.
  { intros Hn. apply Hshape. congruence. }
  split.
  - unfold getBucketId. rewrite Hbytes. cbn [bind]. rewrite Hword. cbn [bind].
    unfold js_rem. destruct (Z.eqb_spec (bucketCount options) 0) as [E|_]; [lia|].
    rewrite Z.rem_mod_nonneg by lia. reflexivity.
  - apply Z.mod_pos_bound. exact Hcount.
Qed.

End BucketsIPv4.

Section BucketsIPv4Example.
Import JS Net Utils UtilsObserve UtilsExamples.

Lemma getBucketId_ipv4_witness :
  exists id : Z,
    getBucketId zeroHash (bucketOptionsFor "8.8.8.8") = Ok (Some id) /\ 0 <= id < 128.
Proof.
  destruct (getBucketId_ipv4 zeroHash (bucketOptionsFor "8.8.8.8") eq_refl
              ltac:(simpl; lia) ltac:(simpl; lia) ltac:(intros; simpl; lia))
    as (secretBytes & addressBytes & bytes & id & _ & _ & _ & _ & _ & Hid & Hrange).
  exists id. split; [exact Hid|exact Hrange].
Defined.

End BucketsIPv4Example.

(** ** Lists that are mapped and filtered by functions that can throw *)

Section Traversals.
Import JS Pool.
Context {A B : Type}.

Lemma mapM_Ok (f : A -> completion B) (l : list A) (r : list B) :
  mapM f l = Ok r -> Forall2 (fun a b => f a = Ok b) l r.
Proof.
  revert r. induction l as [|a l IH]; intros r; cbn [mapM].
  - intros H. injection H as <-. constructor.
  - destruct (f a) as [b|e] eqn:Ha; [|discriminate].
    destruct (mapM f l) as [bs|e]; [|discriminate].
    intros H. injection H as <-. constructor; [exact Ha|]. apply IH. reflexivity.
Qed.

Lemma mapM_Throw (f : A -> completion B) (l : list A) (a : A) (e : JSError) :
  In a l -> f a = Throw e -> exists e' : JSError, mapM f l = Throw e'.
Proof.
  induction l as [|x l IH]; intros Hin Ha; [contradiction|]. cbn [mapM].
  destruct (f x) as [b|e0] eqn:Hx; [|eexists; reflexivity].
  destruct Hin as [->|Hin]; [congruence|].
  destruct (IH Hin Ha) as (e' & ->). eexists; reflexivity.
Qed.

Lemma filterM_Ok (f : A -> completion bool) (l r : list A) :
  filterM f l = Ok r ->
  (length r <= length l)%nat
  /\ (forall a, In a r -> In a l /\ f a = Ok true)
  /\ (forall a, In a l -> f a = Ok true -> In a r).
Proof.
  revert r. induction l as [|x l IH]; intros r; cbn [filterM].
  - intros H. injection H as <-. split; [reflexivity|]. split; intros a []. 
  - destruct (f x) as [b|e] eqn:Hx; cbn [bind]; [|discriminate].
    destruct (filterM f l) as [rest|e]; cbn [bind]; [|discriminate].
    intros H. injection H as <-.
    destruct (IH rest eq_refl) as (Hlen & Hin & Hkeep).
    destruct b; cbn [length In].
    + split; [lia|]. split.
      * intros a [<-|Ha]; [split; [left; reflexivity|exact Hx]|].
        destruct (Hin a Ha). split; [right|]; assumption.
      * intros a [<-|Ha] Hf; [left; reflexivity|right; apply Hkeep; assumption].
    + split; [lia|]. split.
      * intros a Ha. destruct (Hin a Ha). split; [right|]; assumption.
      * intros a [<-|Ha] Hf; [congruence|apply Hkeep; assumption].
Qed.

End Traversals.

(** ** Sanitization of peer infos *)

Section SanitizationProperties.
Import JS Value Utils Validation Pool Sanitization.

Lemma lookup_prop_None (k : string) (props : list (string * JSValue)) :
  ~ In k (map fst props) -> lookup_prop k props = None.
Proof.
  induction props as [|[k' v] rest IH]; [reflexivity|]. cbn [map fst In lookup_prop].
  intros H. destruct (String.eqb_spec k' k) as [->|_]; [tauto|]. apply IH. tauto.
Qed.

Lemma lookup_prop_In (k : string) (props : list (string * JSValue)) :
  lookup_prop k props = None -> ~ In k (map fst props).
Proof.
  induction props as [|[k' v] rest IH]; [intros _ []|]. cbn [map fst In lookup_prop].
  destruct (String.eqb_spec k' k) as [->|Hne]; [discriminate|]. intros H [E|Hin]; [congruence|].
  exact (IH H Hin).
Qed.

Lemma keys_set_prop (k : string) (v : JSValue) (props : list (string * JSValue)) :
  map fst (set_prop k v props) =
  if has_prop k props then map fst props else map fst props ++ [k].
Proof.
  unfold has_prop. induction props as [|[k' v'] rest IH]; [reflexivity|].
  cbn [set_prop lookup_prop]. destruct (String.eqb_spec k' k) as [->|Hne]; [reflexivity|].
  cbn [map fst]. rewrite IH. destruct (lookup_prop k rest); reflexivity.
Qed.

Lemma NoDup_set_prop (k : string) (v : JSValue) (props : list (string * JSValue)) :
  NoDup (map fst props) -> NoDup (map fst (set_prop k v props)).
Proof.
  intros H. rewrite keys_set_prop. unfold has_prop.
  destruct (lookup_prop k props) eqn:E; [exact H|].
  apply NoDup_app. split; [exact H|]. split.
  - intros x Hx Hk. apply list_elem_of_singleton in Hk as ->.
    apply (lookup_prop_In _ _ E). apply list_elem_of_In. exact Hx.
  - apply NoDup_singleton.
Qed.

Lemma NoDup_spread (props into : list (string * JSValue)) :
  NoDup (map fst into) -> NoDup (map fst (spread props into)).
Proof.
  unfold spread. revert into. induction props as [|[k v] rest IH]; intros into H; [exact H|].
  cbn [fold_left]. apply IH. apply NoDup_set_prop. exact H.
Qed.

Lemma lookup_prop_spread (k : string) (props into : list (string * JSValue)) :
  NoDup (map fst props) ->
  lookup_prop k (spread props into) =
  match lookup_prop k props with
  | Some v => Some v
  | None => lookup_prop k into
  end.
Proof.
  unfold spread. revert into. induction props as [|[k0 v0] rest IH]; intros into Hnd;
    [reflexivity|].
  cbn [map fst] in Hnd. apply NoDup_cons in Hnd as [Hk0 Hnd].
  cbn [fold_left lookup_prop fst snd]. rewrite IH by exact Hnd.
  destruct (String.eqb_spec k0 k) as [->|Hne].
  - rewrite lookup_prop_None by (intros Hin; apply Hk0, list_elem_of_In; exact Hin).
    apply lookup_prop_set_eq.
  - rewrite lookup_prop_set_ne by exact Hne. reflexivity.
Qed.

Lemma NoDup_remove_prop (k : string) (props : list (string * JSValue)) :
  NoDup (map fst props) -> NoDup (map fst (remove_prop k props)).
Proof.
  unfold remove_prop. induction props as [|[k' v] rest IH]; [intros H; exact H|].
  cbn [map fst]. intros H. apply NoDup_cons in H as [Hk' H].
  cbn [List.filter fst]. destruct (negb (String.eqb k' k)); [|exact (IH H)].
  cbn [map fst]. apply NoDup_cons. split; [|exact (IH H)].
  intros Hin. apply Hk'. apply list_elem_of_In in Hin. apply list_elem_of_In.
  apply in_map_iff in Hin as ([k1 v1] & <- & Hin). apply filter_In in Hin as [Hin _].
  apply in_map_iff. exists (k1, v1). split; [reflexivity|exact Hin].
Qed.

(** The properties of [rename_prop k k'] of an object without an own [k']. *)
Lemma rename_prop_get (k k' : string) (props : list (string * JSValue)) :
  k <> k' ->
  NoDup (map fst props) ->
  lookup_prop k' props = None ->
  exists renamed : list (string * JSValue),
    rename_prop k k' (JObj props) = Ok (JObj renamed)
    /\ NoDup (map fst renamed)
    /\ lookup_prop k renamed = None
    /\ get (JObj renamed) k' = get (JObj props) k
    /\ forall x : string, x <> k -> x <> k' -> lookup_prop x renamed = lookup_prop x props.
Proof.
  intros Hne Hnd Hfree. eexists. split; [reflexivity|].
  cbn [enumerable_props]. split.
  { apply NoDup_spread. cbn [map fst]. apply NoDup_singleton. }
  split.
  { rewrite lookup_prop_spread by (apply NoDup_remove_prop; exact Hnd).
    rewrite lookup_prop_remove_eq. cbn [lookup_prop].
    destruct (String.eqb_spec k' k) as [E|_]; [congruence|reflexivity]. }
  split.
  { unfold get at 1. rewrite lookup_prop_spread by (apply NoDup_remove_prop; exact Hnd).
    rewrite lookup_prop_remove_ne, Hfree by exact Hne.
    cbn [lookup_prop]. rewrite String.eqb_refl. reflexivity. }
  intros x Hxk Hxk'.
  rewrite lookup_prop_spread by (apply NoDup_remove_prop; exact Hnd).
  rewrite lookup_prop_remove_ne by congruence.
  destruct (lookup_prop x props); [reflexivity|]. cbn [lookup_prop].
  destruct (String.eqb_spec k' x) as [E|_]; [congruence|reflexivity].
Qed.

(** X4. A peer info object that has no own property [ip] goes through
    [outgoingPeerInfoSanitization] and back through
    [incomingPeerInfoSanitization] with every property read as before: the
    wire form carries the address under [ip], and the way back puts it under
    [ipAddress] again. *)
Theorem peerInfo_sanitization_round_trip (props : list (string * JSValue)) :
  NoDup (map fst props) ->
  lookup_prop "ip" props = None ->
  exists wire back : JSValue,
    outgoingPeerInfoSanitization (JObj props) = Ok wire
    /\ get wire "ip" = get (JObj props) "ipAddress"
    /\ get wire "ipAddress" = JUndefined
    /\ incomingPeerInfoSanitization wire = Ok back
    /\ forall k : string, get back k = get (JObj props) k.
Proof.
  intros Hnd Hip. unfold outgoingPeerInfoSanitization, incomingPeerInfoSanitization.
  destruct (rename_prop_get "ipAddress" "ip" props ltac:(discriminate) Hnd Hip)
    as (wire & Hwire & Hnd' & Hgone & Hmoved & Hrest).
  destruct (rename_prop_get "ip" "ipAddress" wire ltac:(discriminate) Hnd' Hgone)
    as (back & Hback & _ & Hgone' & Hmoved' & Hrest').
  exists (JObj wire), (JObj back).
  split; [exact Hwire|]. split; [exact Hmoved|].
  split; [unfold get; rewrite Hgone; reflexivity|]. split; [exact Hback|].
  intros k. destruct (String.eqb_spec k "ipAddress") as [->|Hk1].
  - rewrite Hmoved'. exact Hmoved.
  - destruct (String.eqb_spec k "ip") as [->|Hk2].
    + unfold get. rewrite Hgone', Hip. reflexivity.
    + unfold get. rewrite Hrest', Hrest by assumption. reflexivity.
Qed.

Lemma peerInfo_sanitization_round_trip_witness :
  exists wire : JSValue,
    outgoingPeerInfoSanitization
      (JObj [("ipAddress", JStr "1.2.3.4"); ("wsPort", JNum 5000)]) = Ok wire
    /\ get wire "ip" = JStr "1.2.3.4".
Proof.
  destruct (peerInfo_sanitization_round_trip
              [("ipAddress", JStr "1.2.3.4"); ("wsPort", JNum 5000)]
              ltac:(apply (bool_decide_unpack _); vm_compute; exact I) eq_refl)
    as (wire & back & Hwire & Hip & _).
  exists wire. split; [exact Hwire|exact Hip].
Defined.

End SanitizationProperties.

(** ** Lists of peer infos received from a peer *)

Section PeerInfoLists.
Import JS Value Utils Validation Pool Sanitization.
Variable lib : Library.

(** X5. When [validatePeersInfoList] returns, the response held an array
    [peers] of at most [maxPeerInfoListLength] entries, the result is not
    longer than it, and every peer info of the result is the validated form
    of an entry whose JSON byte size is below [maxPeerInfoByteSize]. *)
Theorem validatePeersInfoList_returns (raw : JSValue) (maxLength maxByteSize : Z)
    (result : list JSValue) :
  validatePeersInfoList lib raw maxLength maxByteSize = Ok result ->
  exists peers : list JSValue,
    get raw "peers" = JArr peers
    /\ Z.of_nat (length peers) <= maxLength
    /\ (length result <= length peers)%nat
    /\ Forall (fun info =>
                 exists (peerInfo : JSValue) (size : Z),
                   In peerInfo peers
                   /\ getByteSize peerInfo = Ok size
                   /\ size < maxByteSize
                   /\ validatePeerInfoSchema lib peerInfo = Ok info) result.
Proof.
  unfold validatePeersInfoList.
  destruct (truthy raw); cbn [negb]; [|discriminate].
  destruct (get raw "peers") as [| | | | | |peers|]; try discriminate.
  destruct (Z.ltb_spec maxLength (Z.of_nat (length peers))) as [|Hlen]; [discriminate|].
  destruct (filterM _ peers) as [clean|e] eqn:Hclean; cbn [bind]; [|discriminate].
  intros Hmap. exists peers. split; [reflexivity|]. split; [exact Hlen|].
  apply filterM_Ok in Hclean as (Hshort & Hin & _).
  apply mapM_Ok in Hmap.
  split.
  { apply Forall2_length in Hmap. lia. }
  clear Hshort. induction Hmap as [|peerInfo info clean result Hinfo Hmap IH]; constructor.
  - destruct (Hin peerInfo (or_introl eq_refl)) as [Hpeer Hsize].
    destruct (getByteSize peerInfo) as [size|e] eqn:Hbytes; cbn [bind] in Hsize;
      [|discriminate].
    exists peerInfo, size. split; [exact Hpeer|]. split; [exact Hbytes|].
    split; [|exact Hinfo]. injection Hsize as Hsize. apply Z.ltb_lt. exact Hsize.
  - apply IH. intros a Ha. apply Hin. right. exact Ha.
Qed.

(** X6. One entry of the array that is below the size limit and fails the
    schema makes [validatePeersInfoList] throw: the list is validated as a
    whole, the valid entries are not returned. *)
Theorem validatePeersInfoList_rejects (raw : JSValue) (maxLength maxByteSize : Z)
    (peers : list JSValue) (peerInfo : JSValue) (size : Z) (e : JSError) :
  get raw "peers" = JArr peers ->
  In peerInfo peers ->
  getByteSize peerInfo = Ok size ->
  size < maxByteSize ->
  validatePeerInfoSchema lib peerInfo = Throw e ->
  exists e' : JSError, validatePeersInfoList lib raw maxLength maxByteSize = Throw e'.
Proof.
  intros Hpeers Hin Hsize Hsmall Hbad. unfold validatePeersInfoList. rewrite Hpeers.
  destruct (truthy raw); cbn [negb]; [|eexists; reflexivity].
  destruct (maxLength <? Z.of_nat (length peers)); [eexists; reflexivity|].
  destruct (filterM _ peers) as [clean|e0] eqn:Hclean; cbn [bind]; [|eexists; reflexivity].
  apply filterM_Ok in Hclean as (_ & _ & Hkeep).
  apply (mapM_Throw _ _ peerInfo e); [|exact Hbad].
  apply Hkeep; [exact Hin|]. rewrite Hsize. cbn [bind].
  apply Z.ltb_lt in Hsmall. rewrite Hsmall. reflexivity.
Qed.

End PeerInfoLists.

Section PeerInfoListsExamples.
Import JS Value Utils Validation ValidationObserve Pool Sanitization SanitizationObserve.

Lemma validatePeersInfoList_returns_witness :
  validatePeersInfoList exampleLibrary exampleResponse 10 200 = Ok exampleValidated
  /\ length exampleValidated = 1%nat
  /\ exists peers : list JSValue,
       get exampleResponse "peers" = JArr peers /\ (length exampleValidated <= length peers)%nat.
Proof.
  split; [vm_compute; reflexivity|]. split; [reflexivity|].
  destruct (validatePeersInfoList_returns exampleLibrary exampleResponse 10 200
              exampleValidated ltac:(vm_compute; reflexivity))
    as (peers & Hpeers & _ & Hlen & _).
  exists peers. split; [exact Hpeers|exact Hlen].
Defined.

Lemma validatePeersInfoList_rejects_witness :
  exists e : JSError, validatePeersInfoList exampleLibrary exampleBadResponse 10 200 = Throw e.
Proof.
  apply (validatePeersInfoList_rejects exampleLibrary exampleBadResponse 10 200
           [exampleRawPeerInfo; JNull] JNull 4 (InvalidPeerError "Invalid peer object"));
    [reflexivity|right; left; reflexivity|reflexivity|reflexivity|reflexivity].
Defined.

End PeerInfoListsExamples.

(** ** The peer lists of the configuration *)

Section PeerListsSanitization.
Import JS Value Utils Validation Pool Sanitization SanitizationObserve.

Lemma includes_In (l : list string) (x : string) : includes l x = true <-> In x l.
Proof.
  unfold includes. rewrite existsb_exists. split.
  - intros (y & Hy & E). apply String.eqb_eq in E as ->. exact Hy.
  - intros H. exists x. split; [exact H|apply String.eqb_refl].
Qed.

Lemma sanitized_not_blacklisted_Ok (blacklist : list string) (input output : list P2PPeerInfo) :
  sanitized_not_blacklisted blacklist input = Ok output ->
  sanitized_from input output
  /\ forall p : P2PPeerInfo, In p output -> ~ In (ipAddress p) blacklist.
Proof.
  unfold sanitized_not_blacklisted.
  destruct (mapM sanitizePeerInfo input) as [sanitized|e] eqn:Hmap; cbn [bind]; [|discriminate].
  intros H. injection H as <-. apply mapM_Ok in Hmap. split.
  - intros p Hp. apply filter_In in Hp as [Hp _].
    clear -Hmap Hp. induction Hmap as [|q p' input sanitized Hq Hmap IH]; [contradiction|].
    destruct Hp as [->|Hp].
    + exists q. split; [left; reflexivity|exact Hq].
    + destruct (IH Hp) as (q' & Hin & Hq'). exists q'. split; [right; exact Hin|exact Hq'].
  - intros p Hp Hblack. apply filter_In in Hp as [_ Hp].
    apply includes_In in Hblack. rewrite Hblack in Hp. discriminate Hp.
Qed.

Lemma id_among_false (others : list P2PPeerInfo) (peerInfo other : P2PPeerInfo) :
  id_among others peerInfo = Ok false ->
  In other others ->
  getPeerIdFromPeerInfo peerInfo <> getPeerIdFromPeerInfo other.
Proof.
  unfold id_among.
  destruct (mapM getPeerIdFromPeerInfo others) as [ids|e] eqn:Hmap; cbn [bind]; [|discriminate].
  destruct (getPeerIdFromPeerInfo peerInfo) as [peerId|e]; cbn [bind]; [|discriminate].
  intros H Hin Heq. injection H as H. apply mapM_Ok in Hmap.
  assert (Hid : In peerId ids).
  { clear H. induction Hmap as [|o oid others ids Ho Hmap IH]; [contradiction|].
    destruct Hin as [->|Hin]; [left; congruence|right; exact (IH Hin)]. }
  apply includes_In in Hid. congruence.
Qed.

(** X7. In the lists that [sanitizePeerLists] returns, every entry is the
    sanitized form of an entry of the list it comes from, no entry has an
    address that is on the blacklist, and no whitelisted entry has the peer id
    of a fixed peer or of a seed peer of the result. *)
Theorem sanitizePeerLists_result (lists : ConfiguredPeerLists) (nodeInfo : JSValue)
    (result : PeerLists) :
  sanitizePeerLists lists nodeInfo = Ok result ->
  sanitized_from (seedPeers (configured lists)) (seedPeers result)
  /\ sanitized_from (fixedPeers (configured lists)) (fixedPeers result)
  /\ sanitized_from (whitelisted (configured lists)) (whitelisted result)
  /\ sanitized_from (previousPeers (configured lists)) (previousPeers result)
  /\ (forall p : P2PPeerInfo,
        In p (seedPeers result ++ fixedPeers result ++ whitelisted result ++ previousPeers result) ->
        ~ In (ipAddress p) (blacklistedIPs lists))
  /\ (forall w other : P2PPeerInfo,
        In w (whitelisted result) ->
        In other (fixedPeers result ++ seedPeers result) ->
        getPeerIdFromPeerInfo w <> getPeerIdFromPeerInfo other).
Proof.
  unfold sanitizePeerLists.
  destruct (sanitized_not_blacklisted _ (seedPeers _)) as [seed|e] eqn:Hseed;
    cbn [bind]; [|discriminate].
  destruct (sanitized_not_blacklisted _ (fixedPeers _)) as [fixed|e] eqn:Hfixed;
    cbn [bind]; [|discriminate].
  destruct (mapM sanitizePeerInfo (whitelisted _)) as [sanitized|e] eqn:Hsan;
    cbn [bind]; [|discriminate].
  destruct (filterM _ sanitized) as [white|e] eqn:Hwhite; cbn [bind]; [|discriminate].
  destruct (sanitized_not_blacklisted _ (previousPeers _)) as [previous|e] eqn:Hprev;
    cbn [bind]; [|discriminate].
  intros H. injection H as <-. cbn [seedPeers fixedPeers whitelisted previousPeers].
  apply sanitized_not_blacklisted_Ok in Hseed as [Sseed Bseed].
  apply sanitized_not_blacklisted_Ok in Hfixed as [Sfixed Bfixed].
  apply sanitized_not_blacklisted_Ok in Hprev as [Sprev Bprev].
  apply filterM_Ok in Hwhite as (_ & Hwhite & _). apply mapM_Ok in Hsan.
  assert (Hkept : forall w, In w white ->
            includes (blacklistedIPs lists) (ipAddress w) = false
            /\ id_among fixed w = Ok false /\ id_among seed w = Ok false).
  { intros w Hw. destruct (Hwhite w Hw) as [_ Hf].
    destruct (includes (blacklistedIPs lists) (ipAddress w)); [discriminate|].
    destruct (id_among fixed w) as [[]|]; cbn [bind] in Hf; try discriminate.
    destruct (id_among seed w) as [[]|]; cbn [bind] in Hf; try discriminate.
    repeat split. }
  split; [exact Sseed|]. split; [exact Sfixed|]. split.
  { intros p Hp. destruct (Hwhite p Hp) as [Hin _].
    clear -Hsan Hin. induction Hsan as [|q p' input sanitized Hq Hsan IH]; [contradiction|].
    destruct Hin as [->|Hin].
    - exists q. split; [left; reflexivity|exact Hq].
    - destruct (IH Hin) as (q' & Hq' & E). exists q'. split; [right; exact Hq'|exact E]. }
  split; [exact Sprev|]. split.
  - intros p Hp. rewrite !in_app_iff in Hp.
    destruct Hp as [Hp|[Hp|[Hp|Hp]]]; [exact (Bseed p Hp)|exact (Bfixed p Hp)| |exact (Bprev p Hp)].
    destruct (Hkept p Hp) as [Hb _]. intros Hin. apply includes_In in Hin. congruence.
  - intros w other Hw Hother. destruct (Hkept w Hw) as (_ & Hf & Hs).
    apply in_app_iff in Hother as [Ho|Ho];
      [exact (id_among_false _ _ _ Hf Ho)|exact (id_among_false _ _ _ Hs Ho)].
Qed.

Lemma sanitizePeerLists_result_witness :
  sanitizePeerLists exampleConfiguredLists JUndefined = Ok exampleSanitizedLists
  /\ forall p : P2PPeerInfo,
       In p (whitelisted exampleSanitizedLists) -> ~ In (ipAddress p) ["10.0.0.9"].
Proof.
  split; [vm_compute; reflexivity|].
  destruct (sanitizePeerLists_result exampleConfiguredLists JUndefined exampleSanitizedLists
              ltac:(vm_compute; reflexivity)) as (_ & _ & _ & _ & Hblack & _).
  intros p Hp. apply Hblack. rewrite !in_app_iff. right. right. left. exact Hp.
Defined.

End PeerListsSanitization.

(** ** The session: disconnecting twice *)

Section DisconnectTwice.
Import JS Value Utils Rate PeerSession Observe.

(** X8. A second [disconnect] changes nothing that the first one set: the
    session stays inactive and closed, both timers stay cleared, and the socket
    has received one [disconnect] call, with the code and the reason of the
    first call (the code 1000 when none was given). *)
Theorem disconnect_twice (code1 code2 : option StatusCode) (reason1 reason2 : Reason)
    (p : Peer) :
  _active p = true ->
  let q := disconnect code2 reason2 (disconnect code1 reason1 p) in
  _active q = false
  /\ state q = CLOSED
  /\ _counterResetInterval q = false
  /\ _productivityResetInterval q = false
  /\ disconnect_calls q =
     disconnect_calls p ++
     match _socket p with
     | Some _ => [(default_code code1, reason1)]
     | None => []
     end.
Proof.
  intros Hact q. subst q.
  unfold disconnect, Peer_disconnect, state, disconnect_calls.
  destruct p as [cls ? ? ? ? ? act ? ? ? ? ? ? ? ? ? ? ? ? ? ? ? ? sock ? ?].
  simpl in Hact. subst act. simpl.
  destruct cls, sock as [s|]; simpl; repeat split;
    rewrite ?omap_app; simpl; rewrite ?omap_app; simpl; rewrite ?app_nil_r; reflexivity.
Qed.

Lemma disconnect_twice_witness :
  returns exampleInbound (fun p =>
    disconnect_calls (disconnect (Some EVICTED_PEER_CODE) NoReason (disconnect None NoReason p)) =
    [(StatusNumber 1000, NoReason)]).
Proof.
  unfold returns. destruct exampleInbound as [p|e] eqn:E; [|discriminate E].
  assert (Hp : _active p = true /\ disconnect_calls p = [] /\ exists s, _socket p = Some s).
  { injection E as <-. vm_compute. repeat split. eexists. reflexivity. }
  destruct Hp as (Hact & Hcalls & s & Hs).
  pose proof (disconnect_twice None (Some EVICTED_PEER_CODE) NoReason NoReason p Hact) as H.
  cbv zeta in H. destruct H as (_ & _ & _ & _ & H).
  rewrite H, Hcalls, Hs. reflexivity.
Defined.

End DisconnectTwice.

(** ** The session: the productivity reset and a pending request *)

Section ProductivityReset.
Import JS Value Utils Rate PeerSession Observe.

(** X9. When the productivity timer fires between the start of a request and
    its response, on a session whose last response is older than the reset
    interval, the counters are zeroed while the request is pending; the
    response is then counted against no request: [responseCounter] is 1,
    [requestCounter] is 0 and [responseRate] is [1 / 0], infinity. *)
Theorem productivity_reset_during_request (tick now : Z) (packet : RequestPacket)
    (responseData : JSValue) (p : Peer) (socket : Socket) :
  _socket p = Some socket ->
  lastResponded (_productivity p) < tick - DEFAULT_PRODUCTIVITY_RESET_INTERVAL ->
  truthy responseData = true ->
  let started := fst (request_start_of packet p) in
  let settled := request_settle now packet (Resolved responseData)
                   (productivityResetTick tick started) in
  snd (request_start_of packet p) = Ok tt
  /\ snd settled = Ok responseData
  /\ _productivity (fst settled) =
     {| requestCounter := 0;
        responseCounter := 1;
        responseRate := PosInfinity;
        lastResponded := now |}.
Proof.
  intros Hsock Hold Htruthy started settled. subst started settled.
  unfold request_start_of, request_start, ensure_outbound_socket, productivityResetTick,
    request_settle.
  destruct p as [cls ? ? ? ? ? act ? ? ? ? ? ? ? ? ? ? ? ? ? ? pr ? sock ? ?].
  simpl in Hsock, Hold. subst sock. rewrite Htruthy.
  destruct cls; simpl; (destruct (Z.ltb_spec (lastResponded pr) (tick - DEFAULT_PRODUCTIVITY_RESET_INTERVAL)) as [_|Hge]; [|lia]);
    simpl; repeat split; reflexivity.
Qed.

Lemma productivity_reset_during_request_witness :
  returns exampleInbound (fun p =>
    responseRate
      (_productivity
         (fst (request_settle 30001 examplePacket (Resolved (JObj []))
                 (productivityResetTick 30000 (fst (request_start_of examplePacket p)))))) =
    PosInfinity).
Proof.
  unfold returns. destruct exampleInbound as [p|e] eqn:E; [|discriminate E].
  assert (Hp : lastResponded (_productivity p) = 0 /\ exists s, _socket p = Some s).
  { injection E as <-. vm_compute. split; [reflexivity|]. eexists. reflexivity. }
  destruct Hp as (Hlast & s & Hs).
  pose proof (productivity_reset_during_request 30000 30001 examplePacket (JObj []) p s Hs
                ltac:(rewrite Hlast; reflexivity) eq_refl) as H.
  cbv zeta in H. destruct H as (_ & _ & H). rewrite H. reflexivity.
Defined.

End ProductivityReset.

(** ** The session: the rate reported with a message *)

Section MessageRates.
Import JS Value Utils Rate PeerSession Errors Double Incoming Observe IncomingObserve.
Import TextObserve.











(** The two roundings show: 1001 messages in an interval of 1000 ms are
    delivered with the rate 1000.9999999999999, not 1001. *)
Lemma message_rate_rounds :
  js_mul (js_div 1001 1000) RATE_NORMALIZATION_FACTOR =
    Finite (8804889115230207 # 8796093022208)
  /\ js_mul (js_div 1001 1000) RATE_NORMALIZATION_FACTOR <> of_Z 1001.
Proof.
  split; [vm_compute; reflexivity|]. vm_compute. discriminate.
Qed.





End MessageRates.

(** ** The pool: removing all sessions *)

Section RemoveAll.
Import JS Value Utils Rate PeerSession Pool Observe PoolObserve PoolTraffic PoolTrafficObserve.

Lemma settled_refl (h : list Peer) : settled h h.
Proof. intros ref p H. exists p. auto. Qed.

Lemma settled_trans (h1 h2 h3 : list Peer) : settled h1 h2 -> settled h2 h3 -> settled h1 h3.
Proof.
  intros H12 H23 ref p Hp. destruct (H12 ref p Hp) as (p2 & Hp2 & Hc2).
  destruct (H23 ref p2 Hp2) as (p3 & Hp3 & Hc3). exists p3. split; [exact Hp3|].
  destruct Hc3 as [->|Hc3]; [exact Hc2|right; exact Hc3].
Qed.

Lemma new_PeerPool_owns (config : PeerPoolConfig) : pool_owns (new_PeerPool config).
Proof.
  split; intros k r Hk; simpl in Hk; rewrite lookup_empty in Hk; discriminate Hk.
Qed.

Lemma active_removeListener (name : EventName) (handler : Handler) (p : Peer) :
  _active (removeListener name handler p) = _active p.
Proof. destruct p; reflexivity. Qed.

Lemma unbind_disconnect_inactive (code : option StatusCode) (reason : Reason) (p : Peer) :
  _active (_unbindHandlersFromPeer (disconnect code reason p)) = false.
Proof.
  unfold _unbindHandlersFromPeer. rewrite !active_removeListener.
  exact (proj1 (disconnect_closes code reason p)).
Qed.

Section OneMap.
Variable map_of other_of : PeerPool -> gmap string nat.
Variable remove : string -> PeerPool -> PeerPool.
Variable change : string -> Peer -> Peer.

Hypothesis remove_map : forall k acc, map_of (remove k acc) = delete k (map_of acc).
Hypothesis remove_other : forall k acc, other_of (remove k acc) = other_of acc.
Hypothesis remove_flag :
  forall k acc, _outboundShuffleIntervalId (remove k acc) = _outboundShuffleIntervalId acc.
Hypothesis remove_events :
  forall k acc, events (remove k acc) = events acc ++ [(EVENT_REMOVE_PEER, k)].
Hypothesis remove_heap :
  forall k acc,
    heap (remove k acc) =
    match map_of acc !! k with
    | Some r => alter (change k) r (heap acc)
    | None => heap acc
    end.
Hypothesis change_inactive : forall k p, _active (change k p) = false.

Lemma for_each_entry_removes (l : list (string * nat)) :
  forall acc : PeerPool,
    keyed map_of acc ->
    NoDup l.*1 ->
    (forall k r, (k, r) ∈ l <-> map_of acc !! k = Some r) ->
    let acc' :=
      fold_left (fun acc (entry : string * nat) =>
                   if bool_decide (map_of acc !! fst entry = Some (snd entry))
                   then remove (id_of acc (snd entry)) acc
                   else acc) l acc in
    map_of acc' = ∅
    /\ other_of acc' = other_of acc
    /\ _outboundShuffleIntervalId acc' = _outboundShuffleIntervalId acc
    /\ events acc' = events acc ++ ((fun entry => (EVENT_REMOVE_PEER, fst entry)) <$> l)
    /\ settled (heap acc) (heap acc')
    /\ forall k r, (k, r) ∈ l -> exists p, heap acc' !! r = Some p /\ _active p = false.
Proof.
  induction l as [|[k r] l IH]; intros acc Hkeyed Hnodup Hentries; cbn zeta.
  - cbn [fold_left fmap list_fmap]. rewrite app_nil_r.
    split.
    { apply map_eq. intros k. rewrite lookup_empty.
      destruct (map_of acc !! k) as [r|] eqn:E; [|reflexivity].
      apply Hentries in E. inversion E. }
    split; [reflexivity|]. split; [reflexivity|]. split; [reflexivity|].
    split; [apply settled_refl|]. intros k r H. inversion H.
  - cbn [fold_left fst snd].
    assert (Hk : map_of acc !! k = Some r) by (apply Hentries; left).
    rewrite bool_decide_eq_true_2 by exact Hk.
    destruct (Hkeyed k r Hk) as (p & Hp & Hid).
    assert (Hidof : id_of acc r = k) by (unfold id_of; rewrite Hp; exact Hid).
    rewrite Hidof.
    cbn [fmap list_fmap] in Hnodup. apply NoDup_cons in Hnodup as [Hfresh Hnodup].
    assert (Hheap1 : heap (remove k acc) = alter (change k) r (heap acc))
      by (rewrite remove_heap, Hk; reflexivity).
    assert (Hkeyed1 : keyed map_of (remove k acc)).
    { intros k' r' H'. rewrite remove_map in H'.
      apply lookup_delete_Some in H' as [Hne H'].
      destruct (Hkeyed k' r' H') as (p' & Hp' & Hid').
      exists p'. split; [|exact Hid'].
      rewrite Hheap1, list_lookup_alter_ne; [exact Hp'|].
      intros E. subst r'. congruence. }
    assert (Hentries1 : forall k' r', (k', r') ∈ l <-> map_of (remove k acc) !! k' = Some r').
    { intros k' r'. rewrite remove_map, lookup_delete_Some. split.
      - intros Hin. split.
        + intros E. subst k'. apply Hfresh. apply list_elem_of_fmap.
          exists (k, r'). split; [reflexivity|exact Hin].
        + apply Hentries. right. exact Hin.
      - intros [Hne H']. apply Hentries in H'. apply elem_of_cons in H' as [E|H']; [|exact H'].
        congruence. }
    destruct (IH (remove k acc) Hkeyed1 Hnodup Hentries1) as (I1 & I2 & I3 & I4 & I5 & I6).
    cbv zeta in I1, I2, I3, I4, I5, I6.
    split; [exact I1|]. split; [rewrite I2; apply remove_other|].
    split; [rewrite I3; apply remove_flag|].
    split; [rewrite I4, remove_events, <- app_assoc; reflexivity|].
    assert (Hstep : settled (heap acc) (heap (remove k acc))).
    { intros ref q Hq. rewrite Hheap1. destruct (decide (ref = r)) as [->|Hne].
      - exists (change k q). rewrite list_lookup_alter_eq, Hq. split; [reflexivity|].
        right. apply change_inactive.
      - exists q. rewrite list_lookup_alter_ne by congruence. auto. }
    split; [exact (settled_trans _ _ _ Hstep I5)|].
    intros k' r' Hin. apply elem_of_cons in Hin as [E|Hin]; [|exact (I6 k' r' Hin)].
    injection E as -> ->.
    assert (Hr : heap (remove k acc) !! r = Some (change k p))
      by (rewrite Hheap1, list_lookup_alter_eq, Hp; reflexivity).
    destruct (I5 r _ Hr) as (p' & Hp' & Hc). exists p'. split; [exact Hp'|].
    destruct Hc as [->|Hc]; [apply change_inactive|exact Hc].
Qed.

Lemma for_each_entry_empties (pool : PeerPool) :
  keyed map_of pool ->
  let pool' := for_each_entry map_of (fun peer acc => remove (id_of acc peer) acc) pool in
  map_of pool' = ∅
  /\ other_of pool' = other_of pool
  /\ _outboundShuffleIntervalId pool' = _outboundShuffleIntervalId pool
  /\ events pool' =
     events pool ++ ((fun entry => (EVENT_REMOVE_PEER, fst entry)) <$> map_to_list (map_of pool))
  /\ settled (heap pool) (heap pool')
  /\ forall k r, map_of pool !! k = Some r ->
       exists p, heap pool' !! r = Some p /\ _active p = false.
Proof.
  intros Hkeyed pool'. subst pool'. unfold for_each_entry.
  destruct (for_each_entry_removes (map_to_list (map_of pool)) pool Hkeyed
              (NoDup_fst_map_to_list _) (fun k r => elem_of_map_to_list _ k r))
    as (H1 & H2 & H3 & H4 & H5 & H6).
  split; [exact H1|]. split; [exact H2|]. split; [exact H3|]. split; [exact H4|].
  split; [exact H5|]. intros k r Hk. apply (H6 k r). apply elem_of_map_to_list. exact Hk.
Qed.

End OneMap.

Lemma count_event_removePeer (l : list (string * nat)) :
  count_event EVENT_REMOVE_PEER ((fun entry => (EVENT_REMOVE_PEER, fst entry)) <$> l) = length l.
Proof.
  unfold count_event. induction l as [|e l IH]; [reflexivity|].
  cbn [fmap list_fmap]. rewrite filter_cons_True by reflexivity. cbn [length].
  f_equal. exact IH.
Qed.

Lemma for_each_entry_invariant (P : PeerPool -> Prop) (map_of : PeerPool -> gmap string nat)
    (callback : nat -> PeerPool -> PeerPool) (pool : PeerPool) :
  (forall ref acc, P acc -> P (callback ref acc)) ->
  P pool -> P (for_each_entry map_of callback pool).
Proof.
  intros Hstep. unfold for_each_entry. generalize (map_to_list (map_of pool)).
  intros l. revert pool. induction l as [|e l IH]; intros pool H; [exact H|].
  cbn [fold_left]. apply IH. destruct (bool_decide _); [apply Hstep|]; exact H.
Qed.

Lemma removeOutboundPeer_heap (peerId : string) (code : option StatusCode) (reason : Reason)
    (pool : PeerPool) :
  heap (fst (removeOutboundPeer peerId code reason pool)) =
  match _outboundPeerMap pool !! peerId with
  | Some r => alter (fun p => _unbindHandlersFromPeer (disconnect code reason p)) r (heap pool)
  | None => heap pool
  end
  /\ _outboundShuffleIntervalId (fst (removeOutboundPeer peerId code reason pool)) =
     _outboundShuffleIntervalId pool.
Proof.
  unfold removeOutboundPeer. cbn [fst].
  destruct (_outboundPeerMap pool !! peerId); split; reflexivity.
Qed.

Lemma removeInboundPeer_heap (peerId : string) (code : option StatusCode) (reason : Reason)
    (pool : PeerPool) :
  heap (fst (removeInboundPeer peerId code reason pool)) =
  match _inboundPeerMap pool !! peerId with
  | Some r => alter (fun p => _unbindHandlersFromPeer (disconnect code reason p)) r (heap pool)
  | None => heap pool
  end
  /\ _outboundShuffleIntervalId (fst (removeInboundPeer peerId code reason pool)) =
     _outboundShuffleIntervalId pool.
Proof.
  unfold removeInboundPeer. cbn [fst].
  destruct (_inboundPeerMap pool !! peerId); split; reflexivity.
Qed.

(** X11. [removeAllPeers] stops the shuffle timer and removes every session:
    both maps are empty afterwards, one [removePeer] event was emitted for
    every session that was held, and every such session is inactive. *)
Theorem removeAllPeers_removes_all (pool : PeerPool) :
  pool_owns pool ->
  let pool' := removeAllPeers pool in
  _outboundPeerMap pool' = ∅
  /\ _inboundPeerMap pool' = ∅
  /\ _outboundShuffleIntervalId pool' = false
  /\ count_event EVENT_REMOVE_PEER (events pool') =
     (count_event EVENT_REMOVE_PEER (events pool)
      + size (_outboundPeerMap pool) + size (_inboundPeerMap pool))%nat
  /\ forall (peerId : string) (ref : nat),
       _outboundPeerMap pool !! peerId = Some ref \/ _inboundPeerMap pool !! peerId = Some ref ->
       exists p : Peer, heap pool' !! ref = Some p /\ _active p = false.
Proof.
  intros Howns pool'. subst pool'. unfold removeAllPeers.
  set (pool1 := if _outboundShuffleIntervalId pool
                then pool_set_outboundShuffleIntervalId false pool else pool).
  assert (H1 : _outboundPeerMap pool1 = _outboundPeerMap pool
               /\ _inboundPeerMap pool1 = _inboundPeerMap pool
               /\ heap pool1 = heap pool /\ events pool1 = events pool
               /\ _outboundShuffleIntervalId pool1 = false).
  { subst pool1. destruct (_outboundShuffleIntervalId pool) eqn:E; simpl; auto. }
  destruct H1 as (M1 & M2 & M3 & M4 & M5).
  assert (Howns1 : pool_owns pool1).
  { destruct Howns as [Hi Ho]. split; rewrite ?M1, ?M2, M3; assumption. }
  clearbody pool1.
  set (code := Some (StatusNumber INTENTIONAL_DISCONNECT_STATUS_CODE)).
  set (removeOut := fun (k : string) (acc : PeerPool) =>
         fst (removeOutboundPeer k code
                (ReasonText ("Intentionally removed outbound peer " +:+ k)) acc)).
  set (removeIn := fun (k : string) (acc : PeerPool) =>
         fst (removeInboundPeer k code
                (ReasonText ("Intentionally removed inbound peer " +:+ k)) acc)).
  change (for_each_entry _outboundPeerMap _ pool1)
    with (for_each_entry _outboundPeerMap (fun peer acc => removeOut (id_of acc peer) acc) pool1).
  set (pool2 := for_each_entry _outboundPeerMap _ pool1).
  change (for_each_entry _inboundPeerMap _ pool2)
    with (for_each_entry _inboundPeerMap (fun peer acc => removeIn (id_of acc peer) acc) pool2).
  set (pool3 := for_each_entry _inboundPeerMap _ pool2).
  assert (Howns2 : pool_owns pool2).
  { subst pool2. apply for_each_entry_invariant; [|exact Howns1].
    intros ref acc Hacc. apply removeOutboundPeer_owns. exact Hacc. }
  (* the outbound map *)
  assert (A1 : forall k acc, _outboundPeerMap (removeOut k acc) = delete k (_outboundPeerMap acc))
    by (intros k acc; exact (proj1 (proj2 (proj2 (removeOutboundPeer_effects k _ _ acc))))).
  assert (A2 : forall k acc, _inboundPeerMap (removeOut k acc) = _inboundPeerMap acc)
    by (intros k acc; exact (proj1 (proj2 (removeOutboundPeer_effects k _ _ acc)))).
  assert (A3 : forall k acc,
             _outboundShuffleIntervalId (removeOut k acc) = _outboundShuffleIntervalId acc)
    by (intros k acc; exact (proj2 (removeOutboundPeer_heap k _ _ acc))).
  assert (A4 : forall k acc, events (removeOut k acc) = events acc ++ [(EVENT_REMOVE_PEER, k)])
    by (intros k acc; exact (proj1 (removeOutboundPeer_effects k _ _ acc))).
  assert (A5 : forall k acc,
             heap (removeOut k acc) =
             match _outboundPeerMap acc !! k with
             | Some r =>
                 alter (fun p =>
                          _unbindHandlersFromPeer
                            (disconnect code
                               (ReasonText ("Intentionally removed outbound peer " +:+ k)) p))
                       r (heap acc)
             | None => heap acc
             end)
    by (intros k acc; exact (proj1 (removeOutboundPeer_heap k _ _ acc))).
  assert (K1 : forall k r, _outboundPeerMap pool1 !! k = Some r ->
                 exists p, heap pool1 !! r = Some p /\ PeerSession.id p = k).
  { intros k r Hk. destruct (proj2 Howns1 k r Hk) as (p & Hp & _ & Hid). exists p. auto. }
  pose proof (for_each_entry_empties _outboundPeerMap _inboundPeerMap removeOut
                (fun k p =>
                   _unbindHandlersFromPeer
                     (disconnect code
                        (ReasonText ("Intentionally removed outbound peer " +:+ k)) p))
                A1 A2 A3 A4 A5 (fun k p => unbind_disconnect_inactive _ _ p) pool1 K1) as Hout.
  cbv zeta in Hout. fold pool2 in Hout. destruct Hout as (O1 & O2 & O3 & O4 & O5 & O6).
  (* the inbound map *)
  assert (B1 : forall k acc, _inboundPeerMap (removeIn k acc) = delete k (_inboundPeerMap acc))
    by (intros k acc; exact (proj1 (proj2 (proj2 (removeInboundPeer_effects k _ _ acc))))).
  assert (B2 : forall k acc, _outboundPeerMap (removeIn k acc) = _outboundPeerMap acc)
    by (intros k acc; exact (proj1 (proj2 (removeInboundPeer_effects k _ _ acc)))).
  assert (B3 : forall k acc,
             _outboundShuffleIntervalId (removeIn k acc) = _outboundShuffleIntervalId acc)
    by (intros k acc; exact (proj2 (removeInboundPeer_heap k _ _ acc))).
  assert (B4 : forall k acc, events (removeIn k acc) = events acc ++ [(EVENT_REMOVE_PEER, k)])
    by (intros k acc; exact (proj1 (removeInboundPeer_effects k _ _ acc))).
  assert (B5 : forall k acc,
             heap (removeIn k acc) =
             match _inboundPeerMap acc !! k with
             | Some r =>
                 alter (fun p =>
                          _unbindHandlersFromPeer
                            (disconnect code
                               (ReasonText ("Intentionally removed inbound peer " +:+ k)) p))
                       r (heap acc)
             | None => heap acc
             end)
    by (intros k acc; exact (proj1 (removeInboundPeer_heap k _ _ acc))).
  assert (K2 : forall k r, _inboundPeerMap pool2 !! k = Some r ->
                 exists p, heap pool2 !! r = Some p /\ PeerSession.id p = k).
  { intros k r Hk. destruct (proj1 Howns2 k r Hk) as (p & Hp & _ & Hid). exists p. auto. }
  pose proof (for_each_entry_empties _inboundPeerMap _outboundPeerMap removeIn
                (fun k p =>
                   _unbindHandlersFromPeer
                     (disconnect code
                        (ReasonText ("Intentionally removed inbound peer " +:+ k)) p))
                B1 B2 B3 B4 B5 (fun k p => unbind_disconnect_inactive _ _ p) pool2 K2) as Hin.
  cbv zeta in Hin. fold pool3 in Hin. destruct Hin as (I1 & I2 & I3 & I4 & I5 & I6).
  clear A1 A2 A3 A4 A5 B1 B2 B3 B4 B5 K1 K2.
  clearbody pool2 pool3.
  split; [rewrite I2; exact O1|]. split; [exact I1|].
  split; [rewrite I3, O3; exact M5|]. split.
  { rewrite I4, O4, M4, !count_event_app, !count_event_removePeer, !length_map_to_list.
    rewrite O2, M1, M2. reflexivity. }
  intros peerId ref [Hout|Hin].
  - rewrite <- M1 in Hout.
    destruct (O6 peerId ref Hout) as (p & Hp & Hinactive).
    destruct (I5 ref p Hp) as (p' & Hp' & Hc). exists p'. split; [exact Hp'|].
    destruct Hc as [->|Hc]; assumption.
  - rewrite <- M2, <- O2 in Hin. exact (I6 peerId ref Hin).
Qed.

Lemma removeAllPeers_removes_all_witness :
  _outboundPeerMap (removeAllPeers exampleBothKinds) = ∅
  /\ _inboundPeerMap (removeAllPeers exampleBothKinds) = ∅.
Proof.
  destruct (removeAllPeers_removes_all exampleBothKinds
              (run_owns _ _ _ (new_PeerPool_owns _))) as (H1 & H2 & _).
  split; assumption.
Defined.

End RemoveAll.

(** ** The pool: eviction *)

Section Eviction.
Import JS Value Utils Rate PeerSession Pool Observe PoolObserve EvictionObserve.

Lemma everyM_true {A : Type} (f : A -> completion bool) (l : list A) :
  everyM f l = Ok true -> forall a : A, In a l -> f a = Ok true.
Proof.
  induction l as [|x l IH]; intros H a Hin; [contradiction|].
  cbn [everyM] in H. destruct (f x) as [[]|e] eqn:Hx; cbn [bind] in H; try discriminate H.
  destruct Hin as [<-|Hin]; [exact Hx|exact (IH H a Hin)].
Qed.

Lemma In_drop {A : Type} (n : nat) (l : list A) (x : A) : In x (drop n l) -> In x l.
Proof.
  revert l. induction n as [|n IH]; intros l H; [exact H|].
  destruct l as [|y l]; [exact H|]. right. apply IH. exact H.
Qed.

Lemma In_map_values (m : gmap string nat) (ref : nat) :
  In ref (map_values m) -> exists k : string, m !! k = Some ref.
Proof.
  unfold map_values. intros H. apply list_elem_of_In in H.
  apply list_elem_of_fmap in H as ([k r] & -> & H). apply elem_of_map_to_list in H.
  exists k. exact H.
Qed.

Lemma filterPeersByCategory_In (rt : Runtime) (pool : PeerPool) (peers : list nat)
    (category : PROTECTION_CATEGORY) (percentage : Q) (asc : bool) (x : nat) :
  runtime_selects rt ->
  In x (filterPeersByCategory rt pool peers category percentage asc) -> In x peers.
Proof.
  intros [_ Hsort]. unfold filterPeersByCategory.
  destruct (negb (Qle_bool percentage 1) || negb (Qle_bool 0 percentage)); [auto|].
  intros H. apply In_drop in H. apply Hsort in H. exact H.
Qed.

(** A session that is not listed does not have the id of a listed peer. *)
Lemma not_listed_id (pool : PeerPool) (list : list P2PPeerInfo) (ref : nat) (p : Peer)
    (peerInfo : P2PPeerInfo) (peerId : string) :
  not_listed pool list ref = Ok true ->
  heap pool !! ref = Some p ->
  In peerInfo list ->
  getPeerIdFromPeerInfo peerInfo = Ok peerId ->
  PeerSession.id p <> peerId.
Proof.
  intros Hnot Hp Hin Hid. unfold not_listed in Hnot.
  pose proof (everyM_true _ _ Hnot peerInfo Hin) as H. cbv beta in H.
  rewrite Hid, Hp in H. cbn [bind fmap option_fmap option_map] in H.
  injection H as H. apply negb_true_iff, bool_decide_eq_false in H.
  intros E. apply H. rewrite E. reflexivity.
Qed.

Lemma selectPeersForEviction_In (rt : Runtime) (pool : PeerPool) (candidates : list nat)
    (x : nat) :
  runtime_selects rt ->
  _selectPeersForEviction rt pool = Ok candidates ->
  In x candidates ->
  In x (map_values (_inboundPeerMap pool))
  /\ not_listed pool (whitelisted (_peerLists pool)) x = Ok true.
Proof.
  intros Hrt. unfold _selectPeersForEviction.
  destruct (filterM _ _) as [peers|e] eqn:Hpeers; cbn [bind]; [|discriminate].
  intros Hsel Hx.
  assert (Hin : In x peers).
  { repeat match type of Hsel with
           | (if ?c then _ else _) = _ => destruct c
           end;
      injection Hsel as <-;
      repeat match goal with
             | H : In _ (if ?c then _ else _) |- _ => destruct c
             | H : In _ (filterPeersByCategory _ _ _ _ _ _) |- _ =>
                 apply filterPeersByCategory_In in H; [|exact Hrt]
             end;
      assumption. }
  apply filterM_Ok in Hpeers as (_ & Hpeers & _). exact (Hpeers x Hin).
Qed.

(** X12. An eviction never removes a protected peer. For the outbound kind the
    session of a fixed peer stays in the outbound map; for the inbound kind
    the session of a whitelisted peer stays in the inbound map. This holds
    whatever the shuffle picks and however the sort orders. *)
Theorem evictPeer_protects (rt : Runtime) (pool : PeerPool) :
  runtime_selects rt ->
  pool_owns pool ->
  (forall (peerInfo : P2PPeerInfo) (peerId : string) (ref : nat),
      In peerInfo (fixedPeers (_peerLists pool)) ->
      getPeerIdFromPeerInfo peerInfo = Ok peerId ->
      _outboundPeerMap pool !! peerId = Some ref ->
      _outboundPeerMap (fst (_evictPeer rt PEER_KIND_OUTBOUND pool)) !! peerId = Some ref)
  /\ (forall (peerInfo : P2PPeerInfo) (peerId : string) (ref : nat),
         In peerInfo (whitelisted (_peerLists pool)) ->
         getPeerIdFromPeerInfo peerInfo = Ok peerId ->
         _inboundPeerMap pool !! peerId = Some ref ->
         _inboundPeerMap (fst (_evictPeer rt PEER_KIND_INBOUND pool)) !! peerId = Some ref).
Proof.
  intros Hrt [Hown_in Hown_out]. split; intros peerInfo peerId ref Hlisted Hid Hheld.
  - unfold _evictPeer.
    change (String.eqb PEER_KIND_OUTBOUND PEER_KIND_OUTBOUND) with true. cbv iota.
    destruct (length _ <? 1)%nat; [exact Hheld|].
    destruct (filterM _ _) as [candidates|e] eqn:Hcand; [|exact Hheld].
    destruct (shuffle rt candidates) as [|selected rest] eqn:Hshuffle; [exact Hheld|].
    cbn [fst].
    assert (Hsel : In selected candidates)
      by (apply (proj1 Hrt); rewrite Hshuffle; left; reflexivity).
    apply filterM_Ok in Hcand as (_ & Hcand & _). destruct (Hcand selected Hsel) as [Hpeer Hnot].
    change (getPeers (Some PEER_KIND_OUTBOUND) pool) with (map_values (_outboundPeerMap pool))
      in Hpeer.
    apply In_map_values in Hpeer as (k & Hk).
    destruct (Hown_out k selected Hk) as (p & Hp & _ & Hpid).
    pose proof (not_listed_id _ _ _ _ _ _ Hnot Hp Hlisted Hid) as Hne.
    assert (Hidof : id_of pool selected = PeerSession.id p) by (unfold id_of; rewrite Hp; reflexivity).
    rewrite Hidof.
    rewrite (proj1 (proj2 (proj2 (removeOutboundPeer_effects _ _ _ pool)))).
    rewrite lookup_delete_ne by exact Hne. exact Hheld.
  - unfold _evictPeer.
    change (String.eqb PEER_KIND_INBOUND PEER_KIND_OUTBOUND) with false.
    change (String.eqb PEER_KIND_INBOUND PEER_KIND_INBOUND) with true. cbv iota.
    destruct (length _ <? 1)%nat; [exact Hheld|].
    destruct (_selectPeersForEviction rt pool) as [candidates|e] eqn:Hcand; [|exact Hheld].
    destruct (shuffle rt candidates) as [|selected rest] eqn:Hshuffle; [exact Hheld|].
    cbn [fst].
    assert (Hsel : In selected candidates)
      by (apply (proj1 Hrt); rewrite Hshuffle; left; reflexivity).
    destruct (selectPeersForEviction_In rt pool candidates selected Hrt Hcand Hsel)
      as [Hpeer Hnot].
    apply In_map_values in Hpeer as (k & Hk).
    destruct (Hown_in k selected Hk) as (p & Hp & _ & Hpid).
    pose proof (not_listed_id _ _ _ _ _ _ Hnot Hp Hlisted Hid) as Hne.
    assert (Hidof : id_of pool selected = PeerSession.id p) by (unfold id_of; rewrite Hp; reflexivity).
    rewrite Hidof.
    rewrite (proj1 (proj2 (proj2 (removeInboundPeer_effects _ _ _ pool)))).
    rewrite lookup_delete_ne by exact Hne. exact Hheld.
Qed.

Lemma insert_sorted_In (cmp : nat -> nat -> Z) (x y : nat) (l : list nat) :
  In y (insert_sorted cmp x l) -> y = x \/ In y l.
Proof.
  induction l as [|z l IH]; cbn [insert_sorted].
  - intros [<-|[]]. left. reflexivity.
  - destruct (cmp x z <=? 0).
    + intros [<-|H]; [left; reflexivity|right; exact H].
    + intros [<-|H]; [right; left; reflexivity|].
      destruct (IH H) as [->|Hl]; [left; reflexivity|right; right; exact Hl].
Qed.

Lemma exampleRuntime_selects : runtime_selects exampleRuntime.
Proof.
  split; [intros l x H; exact H|]. intros cmp l x. cbn [sort exampleRuntime].
  induction l as [|y l IH]; [intros []|]. cbn [fold_right]. intros H.
  apply insert_sorted_In in H as [->|H]; [left; reflexivity|right; exact (IH H)].
Qed.

Lemma evictPeer_protects_witness :
  _outboundPeerMap (fst (_evictPeer exampleRuntime PEER_KIND_OUTBOUND exampleFixedPool))
    !! exampleId = Some 0%nat.
Proof.
  apply (proj1 (evictPeer_protects exampleRuntime exampleFixedPool exampleRuntime_selects
                  (run_owns _ _ _ (new_PeerPool_owns _))) exampleInfo exampleId 0%nat).
  - left. reflexivity.
  - reflexivity.
  - vm_compute. reflexivity.
Defined.

End Eviction.

(** ** The pool: new connections *)

Section NewConnections.
Import JS Value Utils Rate PeerSession Pool Observe PoolObserve PoolTraffic PoolTrafficObserve.
Variable peerSelectForConnection : ConnectionSelectionInput -> list P2PPeerInfo.

(** What [addOutboundPeer] does to the maps: the inbound map is left alone
    and no key of the outbound map is lost. *)
Lemma addOutboundPeer_maps (now : Z) (peerId : string) (peerInfo : P2PPeerInfo)
    (pool : PeerPool) :
  _inboundPeerMap (fst (addOutboundPeer now peerId peerInfo pool)) = _inboundPeerMap pool
  /\ forall k : string,
       is_Some (_outboundPeerMap pool !! k) ->
       is_Some (_outboundPeerMap (fst (addOutboundPeer now peerId peerInfo pool)) !! k).
Proof.
  unfold addOutboundPeer.
  destruct (_outboundPeerMap pool !! peerId); [split; auto|].
  destruct (new_OutboundPeer now peerInfo (_peerConfig pool)) as [peer|e]; [|split; auto].
  unfold allocate. destruct (truthy _); cbn; (split; [reflexivity|]);
    intros k Hk; (destruct (decide (PeerSession.id peer = k)) as [->|Hne];
      [rewrite lookup_insert_eq; eexists; reflexivity
      |rewrite lookup_insert_ne by exact Hne; exact Hk]).
Qed.

Lemma snd_imap_pair {A : Type} (l : list A) :
  forall g : nat -> nat, map snd (imap (fun i x => (g i, x)) l) = l.
Proof.
  induction l as [|x l IH]; intros g; [reflexivity|].
  cbn [imap map snd]. f_equal. exact (IH (g ∘ S)).
Qed.

Lemma connect_all_Throw (clock : nat -> Z) (entries : list (nat * P2PPeerInfo))
    (pool : PeerPool) (e : JSError) :
  connect_all clock entries (pool, Throw e) = (pool, Throw e).
Proof.
  induction entries as [|entry entries IH]; [reflexivity|exact IH].
Qed.

Lemma connect_all_Ok (clock : nat -> Z) (entries : list (nat * P2PPeerInfo)) :
  forall pool pool' : PeerPool,
    connect_all clock entries (pool, Ok tt) = (pool', Ok tt) ->
    _inboundPeerMap pool' = _inboundPeerMap pool
    /\ (forall k, is_Some (_outboundPeerMap pool !! k) -> is_Some (_outboundPeerMap pool' !! k))
    /\ forall (peerInfo : P2PPeerInfo) (k : string),
         In peerInfo (map snd entries) ->
         getPeerIdFromPeerInfo peerInfo = Ok k ->
         is_Some (_outboundPeerMap pool' !! k).
Proof.
  induction entries as [|[i peerInfo] entries IH]; intros pool pool' H.
  - injection H as <-. split; [reflexivity|]. split; [auto|]. intros ? ? [].
  - unfold connect_all in H. cbn [fold_left fst snd] in H.
    destruct (getPeerIdFromPeerInfo peerInfo) as [peerId|e] eqn:Hid;
      [|fold (connect_all clock entries (pool, Throw e)) in H;
        rewrite connect_all_Throw in H; discriminate H].
    destruct (addOutboundPeer (clock i) peerId peerInfo pool) as [pool2 [ref|e]] eqn:Hadd;
      [|fold (connect_all clock entries (pool2, Throw e)) in H;
        rewrite connect_all_Throw in H; discriminate H].
    fold (connect_all clock entries (pool2, Ok tt)) in H.
    destruct (IH pool2 pool' H) as (I1 & I2 & I3).
    pose proof (addOutboundPeer_maps (clock i) peerId peerInfo pool) as [A1 A2].
    rewrite Hadd in A1, A2. cbn [fst] in A1, A2.
    split; [congruence|]. split; [intros k Hk; apply I2, A2, Hk|].
    intros f k [<-|Hin] Hk; [|exact (I3 f k Hin Hk)].
    apply I2. cbn [snd] in Hk. rewrite Hid in Hk. injection Hk as <-.
    rewrite (addOutboundPeer_stores (clock i) peerId peerInfo pool pool2 ref Hid Hadd).
    eexists. reflexivity.
Qed.

(** X13. When [triggerNewConnections] returns, every fixed peer has a session
    in the outbound map, whatever the selection function chose; no session was
    dropped from the outbound map and the inbound map is as it was. *)
Theorem triggerNewConnections_connects_fixed (clock : nat -> Z)
    (newPeers triedPeers fixedPeers : list P2PPeerInfo) (pool pool' : PeerPool) :
  triggerNewConnections peerSelectForConnection clock newPeers triedPeers fixedPeers pool =
    (pool', Ok tt) ->
  (forall (peerInfo : P2PPeerInfo) (peerId : string),
      In peerInfo fixedPeers ->
      getPeerIdFromPeerInfo peerInfo = Ok peerId ->
      is_Some (_outboundPeerMap pool' !! peerId))
  /\ (forall peerId : string,
         is_Some (_outboundPeerMap pool !! peerId) ->
         is_Some (_outboundPeerMap pool' !! peerId))
  /\ _inboundPeerMap pool' = _inboundPeerMap pool.
Proof.
  unfold triggerNewConnections.
  destruct (filterM _ newPeers) as [disconnectedNew|e]; cbn [bind]; [|discriminate].
  destruct (filterM _ triedPeers) as [disconnectedTried|e]; cbn [bind]; [|discriminate].
  destruct (filterM (has_outbound pool) newPeers) as [connectedNew|e]; cbn [bind];
    [|discriminate].
  destruct (filterM (has_outbound pool) triedPeers) as [connectedTried|e]; cbn [bind];
    [|discriminate].
  destruct (getPeersCountPerKind pool) as [outboundCount inboundCount].
  destruct (filterM _ fixedPeers) as [disconnectedFixed|e] eqn:Hfixed; cbn [bind];
    [|discriminate].
  set (peersToConnect := peerSelectForConnection _).
  intros H.
  apply connect_all_Ok in H as (H1 & H2 & H3).
  rewrite (snd_imap_pair _ (fun i => i)) in H3.
  split; [|split; [exact H2|exact H1]].
  intros peerInfo peerId Hin Hid.
  destruct (_outboundPeerMap pool !! peerId) as [ref|] eqn:Hheld.
  - apply H2. rewrite Hheld. eexists. reflexivity.
  - apply (H3 peerInfo peerId); [|exact Hid]. apply in_or_app. right.
    apply filterM_Ok in Hfixed as (_ & _ & Hkeep). apply Hkeep; [exact Hin|].
    unfold has_outbound. rewrite Hid. cbn [bind]. rewrite Hheld.
    rewrite bool_decide_eq_false_2 by (intros [x Hx]; discriminate Hx). reflexivity.
Qed.

End NewConnections.

Section NewConnectionsExample.
Import JS Value Utils Rate PeerSession Pool Observe PoolObserve PoolTraffic PoolTrafficObserve.

Lemma triggerNewConnections_connects_fixed_witness :
  is_Some (_outboundPeerMap
             (fst (triggerNewConnections connectNone exampleClock [] [] [exampleInfo]
                     examplePool)) !! exampleId).
Proof.
  apply (proj1 (triggerNewConnections_connects_fixed connectNone exampleClock [] []
                  [exampleInfo] examplePool
                  (fst (triggerNewConnections connectNone exampleClock [] [] [exampleInfo]
                          examplePool))
                  ltac:(vm_compute; reflexivity)) exampleInfo exampleId);
    [left; reflexivity|reflexivity].
Defined.

End NewConnectionsExample.

(** ** The pool: an inbound peer that is already held *)

Section InboundDuplicate.
Import JS Value Utils Rate PeerSession Pool Observe PoolObserve PoolTraffic PoolTrafficObserve.

Lemma keys_length_nonneg (v : JSValue) : 0 <= keys_length v.
Proof. destruct v; simpl; lia. Qed.

(** X14. Below the inbound limit, [addInboundPeer] for a peer whose id is a key
    of the inbound map throws, and the maps, the events and the session that
    is held are as before: the session object that was constructed for the
    call is not stored. *)
Theorem addInboundPeer_duplicate (rt : Runtime) (now : Z) (peerInfo : P2PPeerInfo)
    (socket : Socket) (pool : PeerPool) (peerId : string) (ref : nat) :
  Z.of_nat (size (_inboundPeerMap pool)) < _maxInboundConnections pool ->
  getPeerIdFromPeerInfo peerInfo = Ok peerId ->
  _inboundPeerMap pool !! peerId = Some ref ->
  (ref < length (heap pool))%nat ->
  let result := addInboundPeer rt now peerInfo socket pool in
  snd result = Throw (Error ("Peer " +:+ peerId +:+ " was already in the peer pool"))
  /\ _inboundPeerMap (fst result) = _inboundPeerMap pool
  /\ _outboundPeerMap (fst result) = _outboundPeerMap pool
  /\ events (fst result) = events pool
  /\ heap (fst result) !! ref = heap pool !! ref.
Proof.
  intros Hroom Hid Hheld Hlive result. subst result. unfold addInboundPeer.
  set (moduleCount :=
         if truthy (Pool._nodeInfo pool) && truthy (get (Pool._nodeInfo pool) "modules")
         then keys_length (get (Pool._nodeInfo pool) "modules") + 1 else 1).
  assert (Hcount : 1 <= moduleCount).
  { subst moduleCount. destruct (_ && _); [|lia].
    pose proof (keys_length_nonneg (get (Pool._nodeInfo pool) "modules")). lia. }
  assert (Hlen : length (getPeers (Some PEER_KIND_INBOUND) pool) = size (_inboundPeerMap pool)).
  { change (getPeers (Some PEER_KIND_INBOUND) pool) with (map_values (_inboundPeerMap pool)).
    unfold map_values. rewrite length_fmap, length_map_to_list. reflexivity. }
  rewrite Hlen.
  destruct (Z.leb_spec (_maxInboundConnections pool * moduleCount)
              (Z.of_nat (size (_inboundPeerMap pool)))) as [Hfull|_]; [nia|].
  destruct (new_InboundPeer now peerInfo socket (_peerConfig pool)) as [peer|e] eqn:Hnew.
  - destruct (new_InboundPeer_class _ _ _ _ _ Hnew) as (_ & Hpid).
    rewrite Hid in Hpid. injection Hpid as <-.
    unfold allocate. cbn [_inboundPeerMap pool_set_heap].
    rewrite bool_decide_eq_true_2 by (rewrite Hheld; eexists; reflexivity).
    cbn. repeat split. apply lookup_app_l. exact Hlive.
  - unfold new_InboundPeer, new_Peer in Hnew. cbn [ipAddress wsPort] in Hnew.
    rewrite getPeerIdFromPeerInfo_address, Hid in Hnew. discriminate Hnew.
Qed.

Lemma addInboundPeer_duplicate_witness :
  snd (addInboundPeer exampleRuntime 2 exampleInfo exampleSocket exampleBothKinds) =
  Throw (Error "Peer 127.0.0.1:5000 was already in the peer pool").
Proof.
  apply (addInboundPeer_duplicate exampleRuntime 2 exampleInfo exampleSocket exampleBothKinds
           exampleId 1%nat); [reflexivity|reflexivity|vm_compute; reflexivity|vm_compute; lia].
Defined.

End InboundDuplicate.

(** ** The pool: sending a message *)

Section Sending.
Import JS Value Utils Rate PeerSession Pool Errors Observe PoolObserve PoolTraffic
  PoolTrafficObserve.

(** What [sendToPeer] leaves alone. *)
Lemma sendToPeer_frame (message : MessagePacket) (peerId : string) (pool : PeerPool) :
  let pool' := fst (sendToPeer message peerId pool) in
  _inboundPeerMap pool' = _inboundPeerMap pool
  /\ _outboundPeerMap pool' = _outboundPeerMap pool
  /\ events pool' = events pool
  /\ length (heap pool') = length (heap pool).
Proof.
  unfold sendToPeer, call_peer. destruct (getPeer peerId pool) as [peer|]; [|cbn; auto].
  destruct (heap pool !! peer); cbn; repeat split. apply length_alter.
Qed.

Lemma send_all_Ok (packet : MessagePacket) (selectedPeers : list P2PPeerInfo) :
  forall pool : PeerPool,
    (forall peerInfo, In peerInfo selectedPeers ->
                      exists peerId, getPeerIdFromPeerInfo peerInfo = Ok peerId) ->
    let result := send_all packet selectedPeers (pool, Ok tt) in
    snd result = Ok tt
    /\ _inboundPeerMap (fst result) = _inboundPeerMap pool
    /\ _outboundPeerMap (fst result) = _outboundPeerMap pool
    /\ length (heap (fst result)) = length (heap pool)
    /\ exists failures : list (EventName * string),
         events (fst result) = events pool ++ failures
         /\ Forall (fun e => fst e = EVENT_FAILED_TO_SEND_MESSAGE) failures
         /\ (length failures <= length selectedPeers)%nat.
Proof.
  induction selectedPeers as [|peerInfo rest IH]; intros pool Hids; cbn zeta.
  - cbn. split; [reflexivity|]. split; [reflexivity|]. split; [reflexivity|].
    split; [reflexivity|]. exists []. rewrite app_nil_r.
    split; [reflexivity|]. split; [apply Forall_nil_2|reflexivity].
  - unfold send_all. cbn [fold_left].
    destruct (Hids peerInfo (or_introl eq_refl)) as (peerId & Hid). rewrite Hid.
    pose proof (sendToPeer_frame packet peerId pool) as Hframe. cbv zeta in Hframe.
    destruct (sendToPeer packet peerId pool) as [pool2 [[]|error]];
      cbn [fst] in Hframe; destruct Hframe as (F1 & F2 & F3 & F4).
    + fold (send_all packet rest (pool2, Ok tt)).
      destruct (IH pool2 (fun f Hf => Hids f (or_intror Hf)))
        as (I1 & I2 & I3 & I4 & failures & I5 & I6 & I7).
      cbv zeta in I1, I2, I3, I4, I5.
      split; [exact I1|]. split; [congruence|]. split; [congruence|]. split; [congruence|].
      exists failures. rewrite I5, F3. split; [reflexivity|]. split; [exact I6|].
      cbn [length]. lia.
    + fold (send_all packet rest
              (pool_emit EVENT_FAILED_TO_SEND_MESSAGE (error_text error) pool2, Ok tt)).
      destruct (IH (pool_emit EVENT_FAILED_TO_SEND_MESSAGE (error_text error) pool2)
                  (fun f Hf => Hids f (or_intror Hf)))
        as (I1 & I2 & I3 & I4 & failures & I5 & I6 & I7).
      cbv zeta in I1, I2, I3, I4, I5. cbn [pool_emit pool_set_events _inboundPeerMap
        _outboundPeerMap heap events] in I2, I3, I4, I5.
      split; [exact I1|]. split; [congruence|]. split; [congruence|]. split; [congruence|].
      exists ((EVENT_FAILED_TO_SEND_MESSAGE, error_text error) :: failures).
      rewrite I5, F3, <- app_assoc. split; [reflexivity|].
      split; [apply Forall_cons_2; [reflexivity|exact I6]|]. cbn [length]. lia.
Qed.

(** X15. When every selected peer info has an id, [send] returns without
    throwing, also when a selected peer is not held by the pool or its session
    cannot send: the only events it adds are [failedToSendMessage] events, and
    the maps and the number of session objects are as before. *)
Theorem send_reports_failures (peerSelectForSend : SendSelectionInput -> list P2PPeerInfo)
    (packet : MessagePacket) (peerLimit : option Z) (pool : PeerPool) :
  (forall input peerInfo,
      In peerInfo (peerSelectForSend input) ->
      exists peerId, getPeerIdFromPeerInfo peerInfo = Ok peerId) ->
  let result := send peerSelectForSend packet peerLimit pool in
  snd result = Ok tt
  /\ _inboundPeerMap (fst result) = _inboundPeerMap pool
  /\ _outboundPeerMap (fst result) = _outboundPeerMap pool
  /\ length (heap (fst result)) = length (heap pool)
  /\ exists failures : list (EventName * string),
       events (fst result) = events pool ++ failures
       /\ Forall (fun e => fst e = EVENT_FAILED_TO_SEND_MESSAGE) failures.
Proof.
  intros Hids result. subst result. unfold send.
  set (selected := peerSelectForSend _).
  destruct (send_all_Ok packet selected pool (Hids _))
    as (H1 & H2 & H3 & H4 & failures & H5 & H6 & _).
  split; [exact H1|]. split; [exact H2|]. split; [exact H3|]. split; [exact H4|].
  exists failures. split; [exact H5|exact H6].
Qed.

Lemma send_reports_failures_witness :
  snd (send selectStranger exampleMessagePacket None exampleBothKinds) = Ok tt
  /\ events (fst (send selectStranger exampleMessagePacket None exampleBothKinds)) =
     [(EVENT_FAILED_TO_SEND_MESSAGE,
       "Send failed because a peer with id 10.9.9.9:4000 could not be found")].
Proof.
  split; [|vm_compute; reflexivity].
  apply (send_reports_failures selectStranger exampleMessagePacket None exampleBothKinds).
  intros input peerInfo [<-|[<-|[]]]; eexists; vm_compute; reflexivity.
Defined.

End Sending.
